(** * Crowd Pong: the vote ledger, the tick and the round state machine

    A shallow embedding of the two game servers of the repository:

    - [FixedTeam]    is [server.js]: players are split in two teams by the
      parity of their join number, each team owns one paddle, and the ball
      speeds up every round;
    - [BallTracking] is the second server (the file whose header reads
      "All players control the same paddle based on ball position"): every
      vote is counted on both paddles and only the paddle on the ball's side
      is moved.

    JavaScript numbers that hold positions, speeds and ratios are embedded as
    exact rationals ([Q]); counters (votes, scores, round, player numbers)
    as integers ([Z]) with [Math.max(0, n - 1)] written out.  [Math.random()]
    and [Date.now()] are inputs of the handler that reads them, in the order
    in which the handler reads them.  Broadcasts ([io.emit]) do not change
    the game state; those of the tick are given apart, by [tickEmits].  The
    [players] map is a [gmap] keyed by the socket id.

    The process is single-threaded: its behaviour is a sequence of callbacks
    (socket handlers, the [setInterval] tick, the [setTimeout] round resets),
    each run to completion.  [step] is one callback and [run] a sequence of
    them.  The 1500 ms of a round reset are not measured: a scheduled reset
    is outstanding until the event that runs it. *)

From Stdlib Require Import ZArith QArith Qminmax Lia Lqa.
From stdpp Require Import gmap strings fin_maps.

Local Open Scope Q_scope.

(** ** JavaScript values that reach the vote handlers *)

(** [data.direction] comes from the client: it can be any value. *)
Inductive jsval : Type :=
  | JNull
  | JUndefined
  | JBool (b : bool)
  | JNum (n : Z)
  | JStr (s : string)
  | JObject.

(** [v === 'str'] *)
Definition strictEqStr (v : jsval) (s : string) : bool :=
  match v with
  | JStr t => String.eqb t s
  | _ => false
  end.

(** The truth value of [v] in a condition ([!v] is its negation). *)
Definition truthy (v : jsval) : bool :=
  match v with
  | JNull | JUndefined => false
  | JBool b => b
  | JNum n => negb (n =? 0)%Z
  | JStr s => negb (String.eqb s EmptyString)
  | JObject => true
  end.

Definition up : jsval := JStr "up".
Definition down : jsval := JStr "down".

Inductive matchStatus : Type := waiting | playing | paused | finished.

Definition status_eqb (a b : matchStatus) : bool :=
  match a, b with
  | waiting, waiting | playing, playing
  | paused, paused | finished, finished => true
  | _, _ => false
  end.

(** ['left'] and ['right'], as team names, paddle names and scoring sides. *)
Inductive side : Type := sideLeft | sideRight.

Definition side_eqb (a b : side) : bool :=
  match a, b with
  | sideLeft, sideLeft | sideRight, sideRight => true
  | _, _ => false
  end.

Module Paddle.
Record t : Type := mk { y : Q; upVotes : Z; downVotes : Z }.

Definition set_y (v : Q) (p : t) : t :=
  {| y := v; upVotes := upVotes p; downVotes := downVotes p |}.
Definition set_upVotes (v : Z) (p : t) : t :=
  {| y := y p; upVotes := v; downVotes := downVotes p |}.
Definition set_downVotes (v : Z) (p : t) : t :=
  {| y := y p; upVotes := upVotes p; downVotes := v |}.
End Paddle.

Module Ball.
Record t : Type := mk { x : Q; y : Q; vx : Q; vy : Q }.

Definition set_x (v : Q) (b : t) : t :=
  {| x := v; y := y b; vx := vx b; vy := vy b |}.
Definition set_y (v : Q) (b : t) : t :=
  {| x := x b; y := v; vx := vx b; vy := vy b |}.
Definition set_vx (v : Q) (b : t) : t :=
  {| x := x b; y := y b; vx := v; vy := vy b |}.
Definition set_vy (v : Q) (b : t) : t :=
  {| x := x b; y := y b; vx := vx b; vy := v |}.
End Ball.

Module Score.
Record t : Type := mk { left : Z; right : Z }.
End Score.

(** ** Counting the entries of a map that satisfy a test *)

Definition b2n (b : bool) : nat := if b then 1 else 0.

Definition count {A : Type} (f : A -> bool) (m : gmap string A) : nat :=
  size (filter (λ kv : string * A, f kv.2 = true) m).

(** ** What the two servers share word for word *)

Definition WINNING_SCORE : Z := 7%Z.
Definition CANVAS_WIDTH : Q := 1200.
Definition CANVAS_HEIGHT : Q := 600.
Definition PADDLE_HEIGHT : Q := 120.
Definition PADDLE_WIDTH : Q := 15.
Definition BALL_SIZE : Q := 15.

(** [a < b] on rationals, as a boolean. *)
Definition Qlt_bool (a b : Q) : bool := negb (Qle_bool b a).

(** [Math.max(0, n - 1)]: how every handler takes a vote back. *)
Definition retract (n : Z) : Z := Z.max 0 (n - 1).

(** [Math.max(0, Math.min(hi, v))] *)
Definition clamp (hi v : Q) : Q := Qmax 0 (Qmin hi v).

(** [CANVAS_HEIGHT / 2 - PADDLE_HEIGHT / 2] *)
Definition centerY : Q := CANVAS_HEIGHT / 2 - PADDLE_HEIGHT / 2.

(** [Math.random() > 0.5 ? 1 : -1] *)
Definition coin (rnd : Q) : Q := if Qlt_bool 0.5 rnd then 1 else -1.

Section SharedPhysics.
(** The constant in which the two copies of the function differ. *)
Variable PADDLE_SPEED : Q.

(** [calculatePaddleMovement(paddle)] *)
Definition calculatePaddleMovement (paddle : Paddle.t) : Q :=
  let totalVotes := (Paddle.upVotes paddle + Paddle.downVotes paddle)%Z in
  if (totalVotes =? 0)%Z then 0
  else
    let upRatio := inject_Z (Paddle.upVotes paddle) / inject_Z totalVotes in
    let downRatio := inject_Z (Paddle.downVotes paddle) / inject_Z totalVotes in
    if Qlt_bool downRatio upRatio then (- PADDLE_SPEED) * (upRatio - 0.5) * 2
    else if Qlt_bool upRatio downRatio then PADDLE_SPEED * (downRatio - 0.5) * 2
    else 0.
End SharedPhysics.

(** [resetBall(direction)]: the ball the function builds, from the current
    [ballSpeed] and the one [Math.random()] it reads. *)
Definition servedBall (ballSpeed direction rnd : Q) : Ball.t :=
  {| Ball.x := CANVAS_WIDTH / 2;
     Ball.y := CANVAS_HEIGHT / 2;
     Ball.vx := ballSpeed * direction;
     Ball.vy := ballSpeed * (rnd * 2 - 1) |}.

(** [gameState.score.left > gameState.score.right ? -1 : 1] in [resetRound] *)
Definition lastScorer (score : Score.t) : Q :=
  if (Score.right score <? Score.left score)%Z then -1 else 1.

(** A paddle of the initial [gameState]: at the centre, without votes. *)
Definition resetPaddle : Paddle.t :=
  {| Paddle.y := centerY; Paddle.upVotes := 0; Paddle.downVotes := 0 |}.

(** "Remove previous vote if exists", on one paddle: the two lines
    [if (input === 'up') paddle.upVotes = Math.max(0, paddle.upVotes - 1)]
    and the same for ['down'].  The release and disconnect handlers have
    the same two lines. *)
Definition retractVote (input : jsval) (paddle : Paddle.t) : Paddle.t :=
  let paddle :=
    if strictEqStr input "up"
    then Paddle.set_upVotes (retract (Paddle.upVotes paddle)) paddle
    else paddle in
  if strictEqStr input "down"
  then Paddle.set_downVotes (retract (Paddle.downVotes paddle)) paddle
  else paddle.

(** "Add new vote", on one paddle: [if (direction === 'up') paddle.upVotes++]
    and the same for ['down']. *)
Definition addVote (direction : jsval) (paddle : Paddle.t) : Paddle.t :=
  let paddle :=
    if strictEqStr direction "up"
    then Paddle.set_upVotes (Paddle.upVotes paddle + 1) paddle
    else paddle in
  if strictEqStr direction "down"
  then Paddle.set_downVotes (Paddle.downVotes paddle + 1) paddle
  else paddle.

(** [recentInputs.unshift(entry)] followed by the [pop()] that keeps the log
    at [maxRecentInputs] entries. *)
Definition logInput {A : Type} (maxRecentInputs : nat) (entry : A)
    (recentInputs : list A) : list A :=
  let recentInputs := entry :: recentInputs in
  if (maxRecentInputs <? length recentInputs)%nat
  then removelast recentInputs
  else recentInputs.

(** "Ball collision with top/bottom walls" *)
Definition wallCollision (ball : Ball.t) : Ball.t :=
  if Qle_bool (Ball.y ball) 0 || Qle_bool (CANVAS_HEIGHT - BALL_SIZE) (Ball.y ball)
  then
    let ball := Ball.set_vy (Ball.vy ball * -1) ball in
    Ball.set_y (clamp (CANVAS_HEIGHT - BALL_SIZE) (Ball.y ball)) ball
  else ball.

(** The bounce on a paddle: [vx] is inverted and [vy] follows the hit point. *)
Definition bounce (ballSpeed : Q) (paddle : Paddle.t) (ball : Ball.t) : Ball.t :=
  let ball := Ball.set_vx (Ball.vx ball * -1) ball in
  let hitPos := (Ball.y ball - Paddle.y paddle) / PADDLE_HEIGHT in
  Ball.set_vy ((hitPos - 0.5) * ballSpeed * 2) ball.

(** The conditions of "Ball collision with left paddle" and of "Ball
    collision with right paddle". *)
Definition leftPaddleCollision (paddle : Paddle.t) (ball : Ball.t) : bool :=
  Qle_bool (Ball.x ball) (PADDLE_WIDTH + 20)
  && Qle_bool (Paddle.y paddle) (Ball.y ball + BALL_SIZE)
  && Qle_bool (Ball.y ball) (Paddle.y paddle + PADDLE_HEIGHT)
  && Qlt_bool (Ball.vx ball) 0.

Definition rightPaddleCollision (paddle : Paddle.t) (ball : Ball.t) : bool :=
  Qle_bool (CANVAS_WIDTH - PADDLE_WIDTH - 20 - BALL_SIZE) (Ball.x ball)
  && Qle_bool (Paddle.y paddle) (Ball.y ball + BALL_SIZE)
  && Qle_bool (Ball.y ball) (Paddle.y paddle + PADDLE_HEIGHT)
  && Qlt_bool 0 (Ball.vx ball).

(** The two paddle checks, in the order of the tick. *)
Definition paddleCollisions (ballSpeed : Q) (leftPaddle rightPaddle : Paddle.t)
    (ball : Ball.t) : Ball.t :=
  let ball :=
    if leftPaddleCollision leftPaddle ball
    then bounce ballSpeed leftPaddle ball else ball in
  if rightPaddleCollision rightPaddle ball
  then bounce ballSpeed rightPaddle ball else ball.

(** Score detection: who scores on this ball, if anyone. *)
Definition scoringSide (ball : Ball.t) : option side :=
  if Qle_bool (Ball.x ball) 0 then Some sideRight
  else if Qle_bool CANVAS_WIDTH (Ball.x ball) then Some sideLeft
  else None.

Definition addPoint (s : side) (score : Score.t) : Score.t :=
  match s with
  | sideRight => {| Score.left := Score.left score; Score.right := Score.right score + 1 |}
  | sideLeft => {| Score.left := Score.left score + 1; Score.right := Score.right score |}
  end.

(** [score.left >= WINNING_SCORE || score.right >= WINNING_SCORE] *)
Definition hasWinner (score : Score.t) : bool :=
  (WINNING_SCORE <=? Score.left score)%Z || (WINNING_SCORE <=? Score.right score)%Z.

(** The paddles that return the ball in one tick, in the order of the two
    checks: the branches of [paddleCollisions] that run (the second server
    announces each of them with ['game:paddleHit']). *)
Definition paddleHits (ballSpeed : Q) (leftPaddle rightPaddle : Paddle.t)
    (ball : Ball.t) : list side :=
  let hitLeft := leftPaddleCollision leftPaddle ball in
  let ball := if hitLeft then bounce ballSpeed leftPaddle ball else ball in
  (if hitLeft then [sideLeft] else [])
  ++ (if rightPaddleCollision rightPaddle ball then [sideRight] else []).

(** [gameState.score.left >= WINNING_SCORE ? 'left' : 'right'] *)
Definition winnerOf (score : Score.t) : side :=
  if (WINNING_SCORE <=? Score.left score)%Z then sideLeft else sideRight.

(** ** What the tick broadcasts about a paddle *)

(** One paddle of the ['game:state'] payload. *)
Module PaddleView.
Record t : Type := mk { y : Q; upRatio : Q; downRatio : Q; totalVotes : Z }.
End PaddleView.

(** [votes / Math.max(1, paddle.upVotes + paddle.downVotes)] *)
Definition voteShare (votes : Z) (paddle : Paddle.t) : Q :=
  inject_Z votes
  / inject_Z (Z.max 1 (Paddle.upVotes paddle + Paddle.downVotes paddle)).

Definition paddleView (paddle : Paddle.t) : PaddleView.t :=
  {| PaddleView.y := Paddle.y paddle;
     PaddleView.upRatio := voteShare (Paddle.upVotes paddle) paddle;
     PaddleView.downRatio := voteShare (Paddle.downVotes paddle) paddle;
     PaddleView.totalVotes := (Paddle.upVotes paddle + Paddle.downVotes paddle)%Z |}.

(** [0 <= Math.random() < 1] *)
Definition inUnitInterval (rnd : Q) : bool := Qle_bool 0 rnd && Qlt_bool rnd 1.

(** ** Words for the properties of paddles and ball *)

(** The points of a side. *)
Definition pointsOf (s : side) (score : Score.t) : Z :=
  match s with sideLeft => Score.left score | sideRight => Score.right score end.

Definition otherSide (s : side) : side :=
  match s with sideLeft => sideRight | sideRight => sideLeft end.

(** The ball is inside the canvas vertically. *)
Definition ballInside (b : Ball.t) : Prop :=
  0 <= Ball.y b <= CANVAS_HEIGHT - BALL_SIZE.

(** Each side follows the one before it, starting after [prev]: no side
    comes twice in a row. *)
Fixpoint alternates (prev : side) (l : list side) : bool :=
  match l with
  | [] => true
  | s :: l => negb (side_eqb prev s) && alternates s l
  end.

(** No tally of the paddle is negative. *)
Definition paddleNonneg (p : Paddle.t) : Prop :=
  (0 <= Paddle.upVotes p)%Z /\ (0 <= Paddle.downVotes p)%Z.

(** The paddle is inside the canvas. *)
Definition paddleInside (p : Paddle.t) : Prop :=
  0 <= Paddle.y p <= CANVAS_HEIGHT - PADDLE_HEIGHT.

(** The side the ball is travelling to. *)
Definition movesLeft (b : Ball.t) : Prop := Ball.vx b < 0.
Definition movesRight (b : Ball.t) : Prop := 0 < Ball.vx b.

(** ** [server.js]: two fixed teams *)

Module FixedTeam.

Definition INITIAL_BALL_SPEED : Q := 5.
Definition SPEED_INCREMENT : Q := 0.5.
Definition PADDLE_SPEED : Q := 8.

(** A value of the [players] map. [inputTime] is [null] or a [Date.now()]. *)
Record player : Type := mkPlayer {
  number : Z;
  team : side;
  lastInput : jsval;
  inputTime : option Z
}.

(** An entry of [recentInputs]. *)
Record inputEntry : Type := mkEntry {
  e_number : Z;
  e_direction : jsval;
  e_team : side;
  e_timestamp : Z
}.

Record gameState : Type := mkState {
  status : matchStatus;
  ball : Ball.t;
  leftPaddle : Paddle.t;
  rightPaddle : Paddle.t;
  score : Score.t;
  round : Z;
  ballSpeed : Q;
  players : gmap string player;
  nextPlayerNumber : Z;
  recentInputs : list inputEntry;
  maxRecentInputs : nat
}.

Definition set_status v g :=
  mkState v (ball g) (leftPaddle g) (rightPaddle g) (score g) (round g)
    (ballSpeed g) (players g) (nextPlayerNumber g) (recentInputs g) (maxRecentInputs g).
Definition set_ball v g :=
  mkState (status g) v (leftPaddle g) (rightPaddle g) (score g) (round g)
    (ballSpeed g) (players g) (nextPlayerNumber g) (recentInputs g) (maxRecentInputs g).
Definition set_leftPaddle v g :=
  mkState (status g) (ball g) v (rightPaddle g) (score g) (round g)
    (ballSpeed g) (players g) (nextPlayerNumber g) (recentInputs g) (maxRecentInputs g).
Definition set_rightPaddle v g :=
  mkState (status g) (ball g) (leftPaddle g) v (score g) (round g)
    (ballSpeed g) (players g) (nextPlayerNumber g) (recentInputs g) (maxRecentInputs g).
Definition set_score v g :=
  mkState (status g) (ball g) (leftPaddle g) (rightPaddle g) v (round g)
    (ballSpeed g) (players g) (nextPlayerNumber g) (recentInputs g) (maxRecentInputs g).
Definition set_round v g :=
  mkState (status g) (ball g) (leftPaddle g) (rightPaddle g) (score g) v
    (ballSpeed g) (players g) (nextPlayerNumber g) (recentInputs g) (maxRecentInputs g).
Definition set_ballSpeed v g :=
  mkState (status g) (ball g) (leftPaddle g) (rightPaddle g) (score g) (round g)
    v (players g) (nextPlayerNumber g) (recentInputs g) (maxRecentInputs g).
Definition set_players v g :=
  mkState (status g) (ball g) (leftPaddle g) (rightPaddle g) (score g) (round g)
    (ballSpeed g) v (nextPlayerNumber g) (recentInputs g) (maxRecentInputs g).
Definition set_nextPlayerNumber v g :=
  mkState (status g) (ball g) (leftPaddle g) (rightPaddle g) (score g) (round g)
    (ballSpeed g) (players g) v (recentInputs g) (maxRecentInputs g).
Definition set_recentInputs v g :=
  mkState (status g) (ball g) (leftPaddle g) (rightPaddle g) (score g) (round g)
    (ballSpeed g) (players g) (nextPlayerNumber g) v (maxRecentInputs g).

(** The [gameState] literal the module starts with; [rnd] is the
    [Math.random()] of its [ball.vy]. *)
Definition initialState (rnd : Q) : gameState :=
  {| status := waiting;
     ball := {| Ball.x := CANVAS_WIDTH / 2; Ball.y := CANVAS_HEIGHT / 2;
                Ball.vx := INITIAL_BALL_SPEED;
                Ball.vy := INITIAL_BALL_SPEED * coin rnd |};
     leftPaddle := resetPaddle;
     rightPaddle := resetPaddle;
     score := {| Score.left := 0; Score.right := 0 |};
     round := 1;
     ballSpeed := INITIAL_BALL_SPEED;
     players := ∅;
     nextPlayerNumber := 1;
     recentInputs := [];
     maxRecentInputs := 20 |}.

(** [resetBall(direction)] *)
Definition resetBall (direction rnd : Q) (g : gameState) : gameState :=
  set_ball (servedBall (ballSpeed g) direction rnd) g.

(** [resetRound()] *)
Definition resetRound (rnd : Q) (g : gameState) : gameState :=
  let g := set_leftPaddle (Paddle.set_y centerY (leftPaddle g)) g in
  let g := set_rightPaddle (Paddle.set_y centerY (rightPaddle g)) g in
  let g := set_leftPaddle (Paddle.set_upVotes 0 (leftPaddle g)) g in
  let g := set_leftPaddle (Paddle.set_downVotes 0 (leftPaddle g)) g in
  let g := set_rightPaddle (Paddle.set_upVotes 0 (rightPaddle g)) g in
  let g := set_rightPaddle (Paddle.set_downVotes 0 (rightPaddle g)) g in
  resetBall (lastScorer (score g)) rnd g.

(** [resetGame()]: [r1] is read by [resetRound], [r2] picks the side of the
    serve and [r3] is read by the second [resetBall]. *)
Definition resetGame (r1 r2 r3 : Q) (g : gameState) : gameState :=
  let g := set_status waiting g in
  let g := set_score {| Score.left := 0; Score.right := 0 |} g in
  let g := set_round 1 g in
  let g := set_ballSpeed INITIAL_BALL_SPEED g in
  let g := set_recentInputs [] g in
  let g := resetRound r1 g in
  resetBall (coin r2) r3 g.

(** *** The tick: the body of the [setInterval] callback, statement by
    statement.  The boolean of the result says whether the tick called
    [setTimeout] (a round reset in 1500 ms). *)

(** "Move paddles based on collective votes" *)
Definition movePaddles (g : gameState) : gameState :=
  let leftMove := calculatePaddleMovement PADDLE_SPEED (leftPaddle g) in
  let rightMove := calculatePaddleMovement PADDLE_SPEED (rightPaddle g) in
  let g := set_leftPaddle (Paddle.set_y (Paddle.y (leftPaddle g) + leftMove) (leftPaddle g)) g in
  set_rightPaddle (Paddle.set_y (Paddle.y (rightPaddle g) + rightMove) (rightPaddle g)) g.

(** "Clamp paddles to screen" *)
Definition clampPaddles (g : gameState) : gameState :=
  let g := set_leftPaddle
    (Paddle.set_y (clamp (CANVAS_HEIGHT - PADDLE_HEIGHT) (Paddle.y (leftPaddle g)))
       (leftPaddle g)) g in
  set_rightPaddle
    (Paddle.set_y (clamp (CANVAS_HEIGHT - PADDLE_HEIGHT) (Paddle.y (rightPaddle g)))
       (rightPaddle g)) g.

(** "Move ball" *)
Definition moveBall (g : gameState) : gameState :=
  let g := set_ball (Ball.set_x (Ball.x (ball g) + Ball.vx (ball g)) (ball g)) g in
  set_ball (Ball.set_y (Ball.y (ball g) + Ball.vy (ball g)) (ball g)) g.

(** The ball against the walls, then against the left and the right paddle. *)
Definition collisions (g : gameState) : gameState :=
  let g := set_ball (wallCollision (ball g)) g in
  set_ball (paddleCollisions (ballSpeed g) (leftPaddle g) (rightPaddle g) (ball g)) g.

(** From "Score detection" to the end of [if (scored)]. *)
Definition scoreDetection (g : gameState) : gameState * bool :=
  match scoringSide (ball g) with
  | None => (g, false)
  | Some s =>
      let g := set_score (addPoint s (score g)) g in
      let g := set_round (round g + 1) g in
      let g := set_ballSpeed
                 (INITIAL_BALL_SPEED + (inject_Z (round g) - 1) * SPEED_INCREMENT) g in
      if hasWinner (score g) then (set_status finished g, false)
      else (g, true)
  end.

(** Everything between the status test and "Score detection". *)
Definition advance (g : gameState) : gameState :=
  collisions (moveBall (clampPaddles (movePaddles g))).

(** The callback of [setInterval]; it returns at once unless the match is
    being played. *)
Definition tick (g : gameState) : gameState * bool :=
  if negb (status_eqb (status g) playing) then (g, false)
  else scoreDetection (advance g).

(** *** The socket handlers; [id] is [socket.id]. *)

(** [player:join] *)
Definition playerJoin (id : string) (g : gameState) : gameState :=
  let playerNumber := nextPlayerNumber g in
  let g := set_nextPlayerNumber (playerNumber + 1) g in
  let team := if (Z.rem playerNumber 2 =? 0)%Z then sideLeft else sideRight in
  set_players
    (<[id := {| number := playerNumber; team := team;
                lastInput := JNull; inputTime := None |}]> (players g)) g.

(** [player.team === 'left' ? gameState.leftPaddle : gameState.rightPaddle],
    as the paddle the handler goes on to mutate. *)
Definition onTeamPaddle (t : side) (f : Paddle.t -> Paddle.t)
    (g : gameState) : gameState :=
  match t with
  | sideLeft => set_leftPaddle (f (leftPaddle g)) g
  | sideRight => set_rightPaddle (f (rightPaddle g)) g
  end.

(** [player:input]; [t1] and [t2] are its two [Date.now()]. *)
Definition playerInput (id : string) (direction : jsval) (t1 t2 : Z)
    (g : gameState) : gameState :=
  match players g !! id with
  | None => g
  | Some player =>
      let prevInput := lastInput player in
      let player := {| number := number player; team := team player;
                       lastInput := direction; inputTime := Some t1 |} in
      let g := set_players (<[id := player]> (players g)) g in
      let g := onTeamPaddle (team player) (retractVote prevInput) g in
      let g := onTeamPaddle (team player) (addVote direction) g in
      set_recentInputs
        (logInput (maxRecentInputs g)
           {| e_number := number player; e_direction := direction;
              e_team := team player; e_timestamp := t2 |}
           (recentInputs g)) g
  end.

(** [player:release] *)
Definition playerRelease (id : string) (g : gameState) : gameState :=
  match players g !! id with
  | None => g
  | Some player =>
      if negb (truthy (lastInput player)) then g
      else
        let g := onTeamPaddle (team player) (retractVote (lastInput player)) g in
        set_players
          (<[id := {| number := number player; team := team player;
                      lastInput := JNull; inputTime := inputTime player |}]>
             (players g)) g
  end.

(** [disconnect] *)
Definition disconnect (id : string) (g : gameState) : gameState :=
  match players g !! id with
  | None => g
  | Some player =>
      let g := onTeamPaddle (team player) (retractVote (lastInput player)) g in
      set_players (delete id (players g)) g
  end.

(** [admin:resetPlayers] *)
Definition adminResetPlayers (g : gameState) : gameState :=
  let g := set_players ∅ g in
  let g := set_nextPlayerNumber 1 g in
  let g := set_leftPaddle (Paddle.set_upVotes 0 (leftPaddle g)) g in
  let g := set_leftPaddle (Paddle.set_downVotes 0 (leftPaddle g)) g in
  let g := set_rightPaddle (Paddle.set_upVotes 0 (rightPaddle g)) g in
  let g := set_rightPaddle (Paddle.set_downVotes 0 (rightPaddle g)) g in
  set_recentInputs [] g.

(** *** The process: the game state, the interval handle [gameLoop] and the
    [setTimeout] callbacks that have been scheduled and have not run yet.
    The callbacks are all the same closure and no handle to them is kept,
    so their number is all there is to know about them. *)
Record server : Type := mkServer {
  game : gameState;
  gameLoop : bool;
  pendingResets : nat
}.

Definition set_game (g : gameState) (s : server) : server :=
  mkServer g (gameLoop s) (pendingResets s).

(** The callbacks that touch the game state, each with what it reads from
    outside: the socket id, [data.direction], clock and random values. *)
Inductive event : Type :=
  | IntervalTick
  | TimeoutFire (rnd : Q)
  | PlayerJoin (id : string)
  | PlayerInput (id : string) (direction : jsval) (t1 t2 : Z)
  | PlayerRelease (id : string)
  | Disconnect (id : string)
  | AdminStart (r1 r2 r3 : Q)
  | AdminPause
  | AdminResume
  | AdminReset (r1 r2 r3 : Q)
  | AdminResetPlayers.

(** One callback of the event loop.  An interval tick needs an armed
    interval and a timeout needs a scheduled callback: without one the
    event does not happen and the process is left as it is. *)
Definition step (e : event) (s : server) : server :=
  match e with
  | IntervalTick =>
      if gameLoop s then
        let '(g, scheduled) := tick (game s) in
        mkServer g (gameLoop s)
          (if scheduled then S (pendingResets s) else pendingResets s)
      else s
  | TimeoutFire rnd =>
      match pendingResets s with
      | O => s
      | S n => mkServer (resetRound rnd (game s)) (gameLoop s) n
      end
  | PlayerJoin id => set_game (playerJoin id (game s)) s
  | PlayerInput id direction t1 t2 =>
      set_game (playerInput id direction t1 t2 (game s)) s
  | PlayerRelease id => set_game (playerRelease id (game s)) s
  | Disconnect id => set_game (disconnect id (game s)) s
  | AdminStart r1 r2 r3 =>
      if status_eqb (status (game s)) waiting || status_eqb (status (game s)) finished
      then
        (* startGameLoop(): clearInterval on the old handle, one new interval *)
        mkServer (set_status playing (resetGame r1 r2 r3 (game s))) true
          (pendingResets s)
      else s
  | AdminPause =>
      if status_eqb (status (game s)) playing
      then set_game (set_status paused (game s)) s else s
  | AdminResume =>
      if status_eqb (status (game s)) paused
      then set_game (set_status playing (game s)) s else s
  | AdminReset r1 r2 r3 => set_game (resetGame r1 r2 r3 (game s)) s
  | AdminResetPlayers => set_game (adminResetPlayers (game s)) s
  end.

(** The events of a trace, oldest first. *)
Definition run (evs : list event) (s : server) : server :=
  fold_left (fun s e => step e s) evs s.

Definition boot (rnd : Q) : server :=
  {| game := initialState rnd; gameLoop := false; pendingResets := 0 |}.

(** *** The vocabulary of the properties below *)

Definition paddleOf (t : side) (g : gameState) : Paddle.t :=
  match t with sideLeft => leftPaddle g | sideRight => rightPaddle g end.

(** The player is on team [t] and currently holds direction [d]: the
    player's vote counts in the [d] tally of the paddle of [t]. *)
Definition votesFor (t : side) (d : string) (p : player) : bool :=
  side_eqb (team p) t && strictEqStr (lastInput p) d.

Definition holders (t : side) (d : string) (ps : gmap string player) : nat :=
  count (votesFor t d) ps.

(** Every tally is the number of present players that hold its vote. *)
Definition ledgerConsistent (g : gameState) : Prop :=
  forall t : side,
    Paddle.upVotes (paddleOf t g) = Z.of_nat (holders t "up" (players g)) /\
    Paddle.downVotes (paddleOf t g) = Z.of_nat (holders t "down" (players g)).

(** *** The vote ledger as the history tells it

    The same ledger read off the callbacks that have happened, without the
    game state.  [past] is a history of player events, latest first. *)

(** The socket of a player event. *)
Definition socketOf (e : event) : option string :=
  match e with
  | PlayerJoin i | PlayerInput i _ _ _ | PlayerRelease i | Disconnect i => Some i
  | _ => None
  end.

(** The sockets the history mentions, each of them once. *)
Definition sockets (past : list event) : list string :=
  remove_dups (omap socketOf past).

Definition isJoin (e : event) : bool :=
  match e with PlayerJoin _ => true | _ => false end.

(** Socket [id] has a player: of its joins and disconnects, the latest is a
    join. *)
Fixpoint present (id : string) (past : list event) : bool :=
  match past with
  | [] => false
  | PlayerJoin i :: past => if String.eqb i id then true else present id past
  | Disconnect i :: past => if String.eqb i id then false else present id past
  | _ :: past => present id past
  end.

(** The player of socket [id] holds direction [d]: the latest callback of
    the socket is an input of [d], sent while the socket had a player. *)
Fixpoint holds (id : string) (d : string) (past : list event) : bool :=
  match past with
  | [] => false
  | PlayerInput i v _ _ :: past =>
      if String.eqb i id then strictEqStr v d && present id past
      else holds id d past
  | PlayerJoin i :: past | PlayerRelease i :: past | Disconnect i :: past =>
      if String.eqb i id then false else holds id d past
  | _ :: past => holds id d past
  end.

(** The number of the player of socket [id]: the players are numbered from
    1 in the order of the joins. *)
Fixpoint numberOf (id : string) (past : list event) : Z :=
  match past with
  | [] => 0%Z
  | PlayerJoin i :: past =>
      if String.eqb i id then (1 + Z.of_nat (length (List.filter isJoin past)))%Z
      else numberOf id past
  | _ :: past => numberOf id past
  end.

(** Even numbers play on the left, odd numbers on the right. *)
Definition teamOf (id : string) (past : list event) : side :=
  if Z.even (numberOf id past) then sideLeft else sideRight.

(** The number of players the history says hold [d] on the paddle of [t]. *)
Definition voters (t : side) (d : string) (past : list event) : nat :=
  length (List.filter
            (fun id => holds id d past && side_eqb (teamOf id past) t)
            (sockets past)).

(** A history of the vote ledger: joins on sockets without a player,
    inputs (with any direction value), releases and disconnects. *)
Fixpoint ledgerHistory (past : list event) : bool :=
  match past with
  | [] => true
  | e :: past =>
      match e with
      | PlayerJoin id => negb (present id past)
      | PlayerInput _ _ _ _ | PlayerRelease _ | Disconnect _ => true
      | _ => false
      end && ledgerHistory past
  end.

(** The players map and the counter of a state are what the history says. *)
Definition tracks (past : list event) (g : gameState) : Prop :=
  nextPlayerNumber g = (1 + Z.of_nat (length (List.filter isJoin past)))%Z /\
  forall id,
    match players g !! id with
    | None => present id past = false
    | Some pl =>
        present id past = true /\
        number pl = numberOf id past /\
        team pl = teamOf id past /\
        forall d, d <> EmptyString ->
                  strictEqStr (lastInput pl) d = holds id d past
    end.

(** Every event but the two admin commands that start or reset the match. *)
Definition keepsMatch (e : event) : bool :=
  match e with
  | AdminStart _ _ _ | AdminReset _ _ _ => false
  | _ => true
  end.

(** The positions the display draws. *)
Definition positions (g : gameState) : Ball.t * Q * Q :=
  (ball g, Paddle.y (leftPaddle g), Paddle.y (rightPaddle g)).

(** The [setTimeout] callbacks outstanding after an event: a tick adds one
    when it calls [setTimeout], a callback that runs is gone, and nothing
    else touches them. *)
Definition pendingAfter (e : event) (s : server) : nat :=
  match e with
  | IntervalTick =>
      if gameLoop s && (tick (game s)).2
      then S (pendingResets s) else pendingResets s
  | TimeoutFire _ => Nat.pred (pendingResets s)
  | _ => pendingResets s
  end.

(** A match from the start of the process up to the tick before the first
    goal: the admin starts the match, the ball is served to the right and
    upwards, three players join (["a"] and ["c"] on the right team, ["b"] on
    the left), ["a"] holds up, so the right paddle leaves the ball's way, and
    the interval fires 119 times. *)
Definition firstGoalRun : list event :=
  [AdminStart 0 1 0; PlayerJoin "a"; PlayerJoin "b"; PlayerJoin "c";
   PlayerInput "a" up 0 0] ++ repeat IntervalTick 119.

Definition beforeFirstGoal : server := run firstGoalRun (boot 0).

(** What every state of a run of the process satisfies: no tally is
    negative, the paddles are inside the canvas, the ball speed is positive
    and rounds are counted from 1. *)
Definition sound (g : gameState) : Prop :=
  (forall t, paddleNonneg (paddleOf t g) /\ paddleInside (paddleOf t g)) /\
  0 < ballSpeed g /\ (1 <= round g)%Z.

(** What the scoreboard shows. *)
Definition scoreboard (s : server) : matchStatus * Z * Z :=
  (status (game s), Score.left (score (game s)), Score.right (score (game s))).

(** The up tally of the right paddle, next to the number of right-team
    players that hold up. *)
Definition upLedger (s : server) : Z * nat :=
  (Paddle.upVotes (rightPaddle (game s)),
   holders sideRight "up" (players (game s))).

(** *** What the server reports and broadcasts *)

(** [Array.from(gameState.players.values()).filter(p => p.team === t).length] *)
Definition teamCount (t : side) (g : gameState) : nat :=
  count (fun p => side_eqb (team p) t) (players g).

(** The roster figures of [/state], ['admin:state'] and
    ['admin:playerUpdate']. *)
Record rosterReport : Type := mkRoster {
  playerCount : nat;
  leftTeamCount : nat;
  rightTeamCount : nat
}.

Definition roster (g : gameState) : rosterReport :=
  {| playerCount := size (players g);
     leftTeamCount := teamCount sideLeft g;
     rightTeamCount := teamCount sideRight g |}.

(** The payload of ['game:state']. *)
Record stateView : Type := mkView {
  v_ball : Ball.t;
  v_leftPaddle : PaddleView.t;
  v_rightPaddle : PaddleView.t;
  v_score : Score.t;
  v_round : Z;
  v_status : matchStatus;
  v_recentInputs : list inputEntry
}.

Definition viewOf (g : gameState) : stateView :=
  {| v_ball := ball g;
     v_leftPaddle := paddleView (leftPaddle g);
     v_rightPaddle := paddleView (rightPaddle g);
     v_score := score g;
     v_round := round g;
     v_status := status g;
     v_recentInputs := recentInputs g |}.

(** The messages the tick sends to every client with [io.emit]. *)
Inductive message : Type :=
  | GameFinished (winner : side) (score : Score.t)
  | GameScored (score : Score.t) (round : Z)
  | GameState (view : stateView).

(** The [io.emit] calls of [if (scored)], in their order; [g] is the state
    once the score, the round, the speed and the status are updated. *)
Definition scoredEmits (g : gameState) : list message :=
  (if hasWinner (score g)
   then [GameFinished (winnerOf (score g)) (score g)] else [])
  ++ [GameScored (score g) (round g)].

(** What one run of the [setInterval] callback emits. *)
Definition tickEmits (g : gameState) : list message :=
  if negb (status_eqb (status g) playing) then []
  else
    let moved := advance g in
    let g := (scoreDetection moved).1 in
    (match scoringSide (ball moved) with
     | Some _ => scoredEmits g
     | None => []
     end)
    ++ [GameState (viewOf g)].

(** The messages the ticks of a trace emit, oldest first. *)
Fixpoint tickBroadcast (evs : list event) (s : server) : list message :=
  match evs with
  | [] => []
  | e :: evs =>
      (match e with
       | IntervalTick => if gameLoop s then tickEmits (game s) else []
       | _ => []
       end)
      ++ tickBroadcast evs (step e s)
  end.

(** *** More vocabulary *)

(** The changes of status and the event that makes each of them. *)
Definition allowedMove (e : event) (from to : matchStatus) : bool :=
  match e, from, to with
  | AdminStart _ _ _, waiting, playing
  | AdminStart _ _ _, finished, playing
  | AdminPause, playing, paused
  | AdminResume, paused, playing
  | IntervalTick, playing, finished
  | AdminReset _ _ _, _, waiting => true
  | _, _, _ => false
  end.

(** The event is not a join on a socket that has a player already. *)
Definition freshJoin (e : event) (s : server) : bool :=
  match e with
  | PlayerJoin id => bool_decide (players (game s) !! id = None)
  | _ => true
  end.

Fixpoint freshJoins (evs : list event) (s : server) : bool :=
  match evs with
  | [] => true
  | e :: evs => freshJoin e s && freshJoins evs (step e s)
  end.

Definition staysConnected (e : event) : bool :=
  match e with Disconnect _ => false | _ => true end.

(** The events of the players: join, input, release, disconnect. *)
Definition playerEvent (e : event) : bool :=
  match e with
  | PlayerJoin _ | PlayerInput _ _ _ _ | PlayerRelease _ | Disconnect _ => true
  | _ => false
  end.

(** The event is a callback of the socket [id]. *)
Definition fromSocket (id : string) (e : event) : bool :=
  match e with
  | PlayerJoin i | PlayerInput i _ _ _ | PlayerRelease i | Disconnect i =>
      String.eqb i id
  | _ => false
  end.

(** The event is the ['player:join'] of the socket [id]. *)
Definition joinOf (id : string) (e : event) : bool :=
  match e with
  | PlayerJoin i => String.eqb i id
  | _ => false
  end.

(** Every [Math.random()] the event reads is in [[0, 1)]. *)
Definition fairEvent (e : event) : bool :=
  match e with
  | TimeoutFire rnd => inUnitInterval rnd
  | AdminStart r1 r2 r3 | AdminReset r1 r2 r3 =>
      inUnitInterval r1 && inUnitInterval r2 && inUnitInterval r3
  | _ => true
  end.

(** The scoreboard of a match: no side is above the winning score, the two
    sides are not both at it, and the match is finished exactly when one of
    them is. *)
Definition scoreLaw (g : gameState) : Prop :=
  (0 <= Score.left (score g) <= WINNING_SCORE)%Z /\
  (0 <= Score.right (score g) <= WINNING_SCORE)%Z /\
  ~ (Score.left (score g) = WINNING_SCORE /\ Score.right (score g) = WINNING_SCORE) /\
  (status g = finished <->
   Score.left (score g) = WINNING_SCORE \/ Score.right (score g) = WINNING_SCORE).

(** Rounds count the goals of the match and the ball speed follows them. *)
Definition speedLaw (g : gameState) : Prop :=
  round g = (1 + Score.left (score g) + Score.right (score g))%Z /\
  ballSpeed g ==
    INITIAL_BALL_SPEED
    + inject_Z (Score.left (score g) + Score.right (score g)) * SPEED_INCREMENT.

(** The ball is between the walls and never slower, from side to side, than
    the initial speed nor faster than the current ball speed. *)
Definition ballLaw (g : gameState) : Prop :=
  ballInside (ball g) /\
  (INITIAL_BALL_SPEED <= Ball.vx (ball g) <= ballSpeed g \/
   - ballSpeed g <= Ball.vx (ball g) <= - INITIAL_BALL_SPEED).

(** The ball is never steeper than 1.25 times the ball speed. *)
Definition steepness (g : gameState) : Prop :=
  - (1.25 * ballSpeed g) <= Ball.vy (ball g) <= 1.25 * ballSpeed g.

(** The numbers of the players present: below the next number to give,
    different from socket to socket, even on the left team and odd on the
    right. *)
Definition rosterLaw (g : gameState) : Prop :=
  (1 <= nextPlayerNumber g)%Z /\
  (forall id p, players g !! id = Some p ->
     (1 <= number p < nextPlayerNumber g)%Z /\
     team p = (if Z.even (number p) then sideLeft else sideRight)) /\
  (forall i j p q, players g !! i = Some p -> players g !! j = Some q ->
     number p = number q -> i = j).

(** No tally counts more votes than there are players holding them. *)
Definition backed (g : gameState) : Prop :=
  forall t : side,
    (0 <= Paddle.upVotes (paddleOf t g) <= Z.of_nat (holders t "up" (players g)))%Z /\
    (0 <= Paddle.downVotes (paddleOf t g)
     <= Z.of_nat (holders t "down" (players g)))%Z.

(** The entries of the inputs of a trace that found their player, newest
    first, on top of [log]; [resetGame] and [admin:resetPlayers] empty the
    list as they empty [recentInputs]. *)
Fixpoint accepted (evs : list event) (s : server) (log : list inputEntry)
    : list inputEntry :=
  match evs with
  | [] => log
  | e :: evs =>
      accepted evs (step e s)
        match e with
        | PlayerInput id direction _ t2 =>
            match players (game s) !! id with
            | Some player =>
                {| e_number := number player; e_direction := direction;
                   e_team := team player; e_timestamp := t2 |} :: log
            | None => log
            end
        | AdminStart _ _ _ =>
            if status_eqb (status (game s)) waiting
               || status_eqb (status (game s)) finished
            then [] else log
        | AdminReset _ _ _ | AdminResetPlayers => []
        | _ => log
        end
  end.

(** What a player event cannot touch: the match, the ball, the positions of
    the paddles, the interval and the outstanding round resets. *)
Definition matchPart (s : server)
    : matchStatus * Ball.t * Score.t * Z * Q * Q * Q * bool * nat :=
  (status (game s), ball (game s), score (game s), round (game s),
   ballSpeed (game s), Paddle.y (leftPaddle (game s)),
   Paddle.y (rightPaddle (game s)), gameLoop s, pendingResets s).

(** What a tick cannot touch: the players, their numbering, the log and the
    four tallies. *)
Definition ledgerPart (g : gameState)
    : gmap string player * Z * list inputEntry * nat * (Z * Z) * (Z * Z) :=
  (players g, nextPlayerNumber g, recentInputs g, maxRecentInputs g,
   (Paddle.upVotes (leftPaddle g), Paddle.downVotes (leftPaddle g)),
   (Paddle.upVotes (rightPaddle g), Paddle.downVotes (rightPaddle g))).

End FixedTeam.

(** ** The second server: every player steers the paddle next to the ball *)

Module BallTracking.

Definition INITIAL_BALL_SPEED : Q := 3.
(** Declared by the server ("No speed increase") and used nowhere. *)
Definition SPEED_INCREMENT : Q := 0.
Definition PADDLE_SPEED : Q := 6.

Record player : Type := mkPlayer {
  number : Z;
  lastInput : jsval;
  inputTime : option Z
}.

Record inputEntry : Type := mkEntry {
  e_number : Z;
  e_direction : jsval;
  e_timestamp : Z
}.

Record gameState : Type := mkState {
  status : matchStatus;
  ball : Ball.t;
  leftPaddle : Paddle.t;
  rightPaddle : Paddle.t;
  score : Score.t;
  ballSpeed : Q;
  activePaddle : side;
  players : gmap string player;
  nextPlayerNumber : Z;
  recentInputs : list inputEntry;
  maxRecentInputs : nat
}.

Definition set_status v g :=
  mkState v (ball g) (leftPaddle g) (rightPaddle g) (score g) (ballSpeed g)
    (activePaddle g) (players g) (nextPlayerNumber g) (recentInputs g) (maxRecentInputs g).
Definition set_ball v g :=
  mkState (status g) v (leftPaddle g) (rightPaddle g) (score g) (ballSpeed g)
    (activePaddle g) (players g) (nextPlayerNumber g) (recentInputs g) (maxRecentInputs g).
Definition set_leftPaddle v g :=
  mkState (status g) (ball g) v (rightPaddle g) (score g) (ballSpeed g)
    (activePaddle g) (players g) (nextPlayerNumber g) (recentInputs g) (maxRecentInputs g).
Definition set_rightPaddle v g :=
  mkState (status g) (ball g) (leftPaddle g) v (score g) (ballSpeed g)
    (activePaddle g) (players g) (nextPlayerNumber g) (recentInputs g) (maxRecentInputs g).
Definition set_score v g :=
  mkState (status g) (ball g) (leftPaddle g) (rightPaddle g) v (ballSpeed g)
    (activePaddle g) (players g) (nextPlayerNumber g) (recentInputs g) (maxRecentInputs g).
Definition set_ballSpeed v g :=
  mkState (status g) (ball g) (leftPaddle g) (rightPaddle g) (score g) v
    (activePaddle g) (players g) (nextPlayerNumber g) (recentInputs g) (maxRecentInputs g).
Definition set_activePaddle v g :=
  mkState (status g) (ball g) (leftPaddle g) (rightPaddle g) (score g) (ballSpeed g)
    v (players g) (nextPlayerNumber g) (recentInputs g) (maxRecentInputs g).
Definition set_players v g :=
  mkState (status g) (ball g) (leftPaddle g) (rightPaddle g) (score g) (ballSpeed g)
    (activePaddle g) v (nextPlayerNumber g) (recentInputs g) (maxRecentInputs g).
Definition set_nextPlayerNumber v g :=
  mkState (status g) (ball g) (leftPaddle g) (rightPaddle g) (score g) (ballSpeed g)
    (activePaddle g) (players g) v (recentInputs g) (maxRecentInputs g).
Definition set_recentInputs v g :=
  mkState (status g) (ball g) (leftPaddle g) (rightPaddle g) (score g) (ballSpeed g)
    (activePaddle g) (players g) (nextPlayerNumber g) v (maxRecentInputs g).

Definition initialState (rnd : Q) : gameState :=
  {| status := waiting;
     ball := {| Ball.x := CANVAS_WIDTH / 2; Ball.y := CANVAS_HEIGHT / 2;
                Ball.vx := INITIAL_BALL_SPEED;
                Ball.vy := INITIAL_BALL_SPEED * coin rnd |};
     leftPaddle := resetPaddle;
     rightPaddle := resetPaddle;
     score := {| Score.left := 0; Score.right := 0 |};
     ballSpeed := INITIAL_BALL_SPEED;
     activePaddle := sideRight;
     players := ∅;
     nextPlayerNumber := 1;
     recentInputs := [];
     maxRecentInputs := 30 |}.

(** [resetBall(direction)] *)
Definition resetBall (direction rnd : Q) (g : gameState) : gameState :=
  set_ball (servedBall (ballSpeed g) direction rnd) g.

(** [resetRound()] *)
Definition resetRound (rnd : Q) (g : gameState) : gameState :=
  let g := set_leftPaddle (Paddle.set_y centerY (leftPaddle g)) g in
  let g := set_rightPaddle (Paddle.set_y centerY (rightPaddle g)) g in
  let g := set_leftPaddle (Paddle.set_upVotes 0 (leftPaddle g)) g in
  let g := set_leftPaddle (Paddle.set_downVotes 0 (leftPaddle g)) g in
  let g := set_rightPaddle (Paddle.set_upVotes 0 (rightPaddle g)) g in
  let g := set_rightPaddle (Paddle.set_downVotes 0 (rightPaddle g)) g in
  resetBall (lastScorer (score g)) rnd g.

(** [resetGame()] *)
Definition resetGame (r1 r2 r3 : Q) (g : gameState) : gameState :=
  let g := set_status waiting g in
  let g := set_score {| Score.left := 0; Score.right := 0 |} g in
  let g := set_ballSpeed INITIAL_BALL_SPEED g in
  let g := set_recentInputs [] g in
  let g := resetRound r1 g in
  resetBall (coin r2) r3 g.

(** *** The tick *)

(** "Determine which paddle is active based on ball position":
    [gameState.ball.x < CANVAS_WIDTH / 2 ? 'left' : 'right'] *)
Definition trackBall (g : gameState) : gameState :=
  set_activePaddle
    (if Qlt_bool (Ball.x (ball g)) (CANVAS_WIDTH / 2) then sideLeft else sideRight) g.

(** "Inactive paddle slowly centers": [y += (centerY - y) * 0.02] *)
Definition easeToCenter (paddle : Paddle.t) : Paddle.t :=
  Paddle.set_y (Paddle.y paddle + (centerY - Paddle.y paddle) * 0.02) paddle.

(** "Move ONLY the active paddle based on collective votes" *)
Definition movePaddles (g : gameState) : gameState :=
  match activePaddle g with
  | sideLeft =>
      let leftMove := calculatePaddleMovement PADDLE_SPEED (leftPaddle g) in
      let g := set_leftPaddle
                 (Paddle.set_y (Paddle.y (leftPaddle g) + leftMove) (leftPaddle g)) g in
      set_rightPaddle (easeToCenter (rightPaddle g)) g
  | sideRight =>
      let rightMove := calculatePaddleMovement PADDLE_SPEED (rightPaddle g) in
      let g := set_rightPaddle
                 (Paddle.set_y (Paddle.y (rightPaddle g) + rightMove) (rightPaddle g)) g in
      set_leftPaddle (easeToCenter (leftPaddle g)) g
  end.

(** "Clamp paddles to screen" *)
Definition clampPaddles (g : gameState) : gameState :=
  let g := set_leftPaddle
    (Paddle.set_y (clamp (CANVAS_HEIGHT - PADDLE_HEIGHT) (Paddle.y (leftPaddle g)))
       (leftPaddle g)) g in
  set_rightPaddle
    (Paddle.set_y (clamp (CANVAS_HEIGHT - PADDLE_HEIGHT) (Paddle.y (rightPaddle g)))
       (rightPaddle g)) g.

(** "Move ball" *)
Definition moveBall (g : gameState) : gameState :=
  let g := set_ball (Ball.set_x (Ball.x (ball g) + Ball.vx (ball g)) (ball g)) g in
  set_ball (Ball.set_y (Ball.y (ball g) + Ball.vy (ball g)) (ball g)) g.

(** The ball against the walls, then against the left and the right paddle. *)
Definition collisions (g : gameState) : gameState :=
  let g := set_ball (wallCollision (ball g)) g in
  set_ball (paddleCollisions (ballSpeed g) (leftPaddle g) (rightPaddle g) (ball g)) g.

(** From "Score detection" to the end of [if (scored)]. *)
Definition scoreDetection (g : gameState) : gameState * bool :=
  match scoringSide (ball g) with
  | None => (g, false)
  | Some s =>
      let g := set_score (addPoint s (score g)) g in
      if hasWinner (score g) then (set_status finished g, false)
      else (g, true)
  end.

(** Everything between the status test and "Score detection". *)
Definition advance (g : gameState) : gameState :=
  collisions (moveBall (clampPaddles (movePaddles (trackBall g)))).

(** The callback of [setInterval]; it returns at once unless the match is
    being played. *)
Definition tick (g : gameState) : gameState * bool :=
  if negb (status_eqb (status g) playing) then (g, false)
  else scoreDetection (advance g).

(** *** The socket handlers *)

(** [player:join] *)
Definition playerJoin (id : string) (g : gameState) : gameState :=
  let playerNumber := nextPlayerNumber g in
  let g := set_nextPlayerNumber (playerNumber + 1) g in
  set_players
    (<[id := {| number := playerNumber; lastInput := JNull; inputTime := None |}]>
       (players g)) g.

(** A vote is counted on the two paddles alike.  The handlers update the
    left and the right tally of a direction inside one [if]; the four
    tallies are separate fields, so updating the left paddle first is the
    same. *)
Definition onBothPaddles (f : Paddle.t -> Paddle.t) (g : gameState) : gameState :=
  let g := set_leftPaddle (f (leftPaddle g)) g in
  set_rightPaddle (f (rightPaddle g)) g.

(** [player:input] *)
Definition playerInput (id : string) (direction : jsval) (t1 t2 : Z)
    (g : gameState) : gameState :=
  match players g !! id with
  | None => g
  | Some player =>
      let prevInput := lastInput player in
      let player := {| number := number player;
                       lastInput := direction; inputTime := Some t1 |} in
      let g := set_players (<[id := player]> (players g)) g in
      let g := onBothPaddles (retractVote prevInput) g in
      let g := onBothPaddles (addVote direction) g in
      set_recentInputs
        (logInput (maxRecentInputs g)
           {| e_number := number player; e_direction := direction;
              e_timestamp := t2 |}
           (recentInputs g)) g
  end.

(** [player:release] *)
Definition playerRelease (id : string) (g : gameState) : gameState :=
  match players g !! id with
  | None => g
  | Some player =>
      if negb (truthy (lastInput player)) then g
      else
        let g := onBothPaddles (retractVote (lastInput player)) g in
        set_players
          (<[id := {| number := number player;
                      lastInput := JNull; inputTime := inputTime player |}]>
             (players g)) g
  end.

(** [disconnect] *)
Definition disconnect (id : string) (g : gameState) : gameState :=
  match players g !! id with
  | None => g
  | Some player =>
      let g := onBothPaddles (retractVote (lastInput player)) g in
      set_players (delete id (players g)) g
  end.

(** [admin:resetPlayers] *)
Definition adminResetPlayers (g : gameState) : gameState :=
  let g := set_players ∅ g in
  let g := set_nextPlayerNumber 1 g in
  let g := set_leftPaddle (Paddle.set_upVotes 0 (leftPaddle g)) g in
  let g := set_leftPaddle (Paddle.set_downVotes 0 (leftPaddle g)) g in
  let g := set_rightPaddle (Paddle.set_upVotes 0 (rightPaddle g)) g in
  let g := set_rightPaddle (Paddle.set_downVotes 0 (rightPaddle g)) g in
  set_recentInputs [] g.

(** *** The process, as in [FixedTeam] *)
Record server : Type := mkServer {
  game : gameState;
  gameLoop : bool;
  pendingResets : nat
}.

Definition set_game (g : gameState) (s : server) : server :=
  mkServer g (gameLoop s) (pendingResets s).

Inductive event : Type :=
  | IntervalTick
  | TimeoutFire (rnd : Q)
  | PlayerJoin (id : string)
  | PlayerInput (id : string) (direction : jsval) (t1 t2 : Z)
  | PlayerRelease (id : string)
  | Disconnect (id : string)
  | AdminStart (r1 r2 r3 : Q)
  | AdminPause
  | AdminResume
  | AdminReset (r1 r2 r3 : Q)
  | AdminResetPlayers.

Definition step (e : event) (s : server) : server :=
  match e with
  | IntervalTick =>
      if gameLoop s then
        let '(g, scheduled) := tick (game s) in
        mkServer g (gameLoop s)
          (if scheduled then S (pendingResets s) else pendingResets s)
      else s
  | TimeoutFire rnd =>
      match pendingResets s with
      | O => s
      | S n => mkServer (resetRound rnd (game s)) (gameLoop s) n
      end
  | PlayerJoin id => set_game (playerJoin id (game s)) s
  | PlayerInput id direction t1 t2 =>
      set_game (playerInput id direction t1 t2 (game s)) s
  | PlayerRelease id => set_game (playerRelease id (game s)) s
  | Disconnect id => set_game (disconnect id (game s)) s
  | AdminStart r1 r2 r3 =>
      if status_eqb (status (game s)) waiting || status_eqb (status (game s)) finished
      then
        mkServer (set_status playing (resetGame r1 r2 r3 (game s))) true
          (pendingResets s)
      else s
  | AdminPause =>
      if status_eqb (status (game s)) playing
      then set_game (set_status paused (game s)) s else s
  | AdminResume =>
      if status_eqb (status (game s)) paused
      then set_game (set_status playing (game s)) s else s
  | AdminReset r1 r2 r3 => set_game (resetGame r1 r2 r3 (game s)) s
  | AdminResetPlayers => set_game (adminResetPlayers (game s)) s
  end.

Definition run (evs : list event) (s : server) : server :=
  fold_left (fun s e => step e s) evs s.

Definition boot (rnd : Q) : server :=
  {| game := initialState rnd; gameLoop := false; pendingResets := 0 |}.

(** *** The vocabulary of the properties below *)

Definition paddleOf (t : side) (g : gameState) : Paddle.t :=
  match t with sideLeft => leftPaddle g | sideRight => rightPaddle g end.

(** The player currently holds direction [d]: the vote counts in the [d]
    tally of both paddles. *)
Definition votesFor (d : string) (p : player) : bool :=
  strictEqStr (lastInput p) d.

Definition holders (d : string) (ps : gmap string player) : nat :=
  count (votesFor d) ps.

(** Every tally is the number of present players that hold its vote. *)
Definition ledgerConsistent (g : gameState) : Prop :=
  forall t : side,
    Paddle.upVotes (paddleOf t g) = Z.of_nat (holders "up" (players g)) /\
    Paddle.downVotes (paddleOf t g) = Z.of_nat (holders "down" (players g)).

(** *** The vote ledger as the history tells it, as in [FixedTeam] but
    without teams *)

(** The socket of a player event. *)
Definition socketOf (e : event) : option string :=
  match e with
  | PlayerJoin i | PlayerInput i _ _ _ | PlayerRelease i | Disconnect i => Some i
  | _ => None
  end.

(** The sockets the history mentions, each of them once. *)
Definition sockets (past : list event) : list string :=
  remove_dups (omap socketOf past).

(** Socket [id] has a player: of its joins and disconnects, the latest is a
    join. *)
Fixpoint present (id : string) (past : list event) : bool :=
  match past with
  | [] => false
  | PlayerJoin i :: past => if String.eqb i id then true else present id past
  | Disconnect i :: past => if String.eqb i id then false else present id past
  | _ :: past => present id past
  end.

(** The player of socket [id] holds direction [d]: the latest callback of
    the socket is an input of [d], sent while the socket had a player. *)
Fixpoint holds (id : string) (d : string) (past : list event) : bool :=
  match past with
  | [] => false
  | PlayerInput i v _ _ :: past =>
      if String.eqb i id then strictEqStr v d && present id past
      else holds id d past
  | PlayerJoin i :: past | PlayerRelease i :: past | Disconnect i :: past =>
      if String.eqb i id then false else holds id d past
  | _ :: past => holds id d past
  end.

(** The number of players the history says hold [d]; every one of them
    counts on both paddles. *)
Definition voters (d : string) (past : list event) : nat :=
  length (List.filter (fun id => holds id d past) (sockets past)).

(** A history of the vote ledger: joins on sockets without a player,
    inputs (with any direction value), releases and disconnects. *)
Fixpoint ledgerHistory (past : list event) : bool :=
  match past with
  | [] => true
  | e :: past =>
      match e with
      | PlayerJoin id => negb (present id past)
      | PlayerInput _ _ _ _ | PlayerRelease _ | Disconnect _ => true
      | _ => false
      end && ledgerHistory past
  end.

(** The players map of a state is what the history says. *)
Definition tracks (past : list event) (g : gameState) : Prop :=
  forall id,
    match players g !! id with
    | None => present id past = false
    | Some pl =>
        present id past = true /\
        forall d, d <> EmptyString ->
                  strictEqStr (lastInput pl) d = holds id d past
    end.

(** Every event but the two admin commands that start or reset the match. *)
Definition keepsMatch (e : event) : bool :=
  match e with
  | AdminStart _ _ _ | AdminReset _ _ _ => false
  | _ => true
  end.

(** The positions the display draws. *)
Definition positions (g : gameState) : Ball.t * Q * Q :=
  (ball g, Paddle.y (leftPaddle g), Paddle.y (rightPaddle g)).

(** The [setTimeout] callbacks outstanding after an event. *)
Definition pendingAfter (e : event) (s : server) : nat :=
  match e with
  | IntervalTick =>
      if gameLoop s && (tick (game s)).2
      then S (pendingResets s) else pendingResets s
  | TimeoutFire _ => Nat.pred (pendingResets s)
  | _ => pendingResets s
  end.

(** A match one tick before its first goal: the admin has started the
    game, two players have joined and ["a"] holds up; the ball is put just
    short of the right goal line, above the right paddle and on its way
    out. *)
Definition beforeFirstGoal : server :=
  let s := run [AdminStart 0 1 0; PlayerJoin "a"; PlayerJoin "c";
                PlayerInput "a" up 0 0] (boot 0) in
  set_game
    (set_ball {| Ball.x := 1198; Ball.y := 100; Ball.vx := 3; Ball.vy := 0 |}
       (game s)) s.

(** What every state of a run of the process satisfies: no tally is
    negative, the paddles are inside the canvas and the ball speed is
    positive. *)
Definition sound (g : gameState) : Prop :=
  (forall t, paddleNonneg (paddleOf t g) /\ paddleInside (paddleOf t g)) /\
  0 < ballSpeed g.

(** What the scoreboard shows. *)
Definition scoreboard (s : server) : matchStatus * Z * Z :=
  (status (game s), Score.left (score (game s)), Score.right (score (game s))).

(** The up tallies of the two paddles, next to the number of players that
    hold up. *)
Definition upLedger (s : server) : Z * Z * nat :=
  (Paddle.upVotes (leftPaddle (game s)), Paddle.upVotes (rightPaddle (game s)),
   holders "up" (players (game s))).

(** *** What the server broadcasts *)

(** The payload of ['game:state']; the active ratios are those of
    [gameState.activePaddle === 'left' ? gameState.leftPaddle
     : gameState.rightPaddle]. *)
Record stateView : Type := mkView {
  v_ball : Ball.t;
  v_leftPaddle : PaddleView.t;
  v_rightPaddle : PaddleView.t;
  v_activePaddle : side;
  v_activeUpRatio : Q;
  v_activeDownRatio : Q;
  v_score : Score.t;
  v_status : matchStatus;
  v_recentInputs : list inputEntry
}.

Definition viewOf (g : gameState) : stateView :=
  let active := paddleOf (activePaddle g) g in
  {| v_ball := ball g;
     v_leftPaddle := paddleView (leftPaddle g);
     v_rightPaddle := paddleView (rightPaddle g);
     v_activePaddle := activePaddle g;
     v_activeUpRatio := voteShare (Paddle.upVotes active) active;
     v_activeDownRatio := voteShare (Paddle.downVotes active) active;
     v_score := score g;
     v_status := status g;
     v_recentInputs := recentInputs g |}.

(** The messages the tick sends to every client with [io.emit]. *)
Inductive message : Type :=
  | ActivePaddleChanged (activePaddle : side)
  | PaddleHit (s : side)
  | GameFinished (winner : side) (score : Score.t)
  | GameGoal (s : side)
  | GameScored (score : Score.t)
  | GameState (view : stateView).

(** "Notify if active paddle changed" *)
Definition trackEmits (prevActivePaddle : side) (g : gameState) : list message :=
  if side_eqb prevActivePaddle (activePaddle g) then []
  else [ActivePaddleChanged (activePaddle g)].

(** The [io.emit] calls of [if (scored)], in their order; [s] is the local
    [scoringSide] and [g] the state once score and status are updated. *)
Definition scoredEmits (s : side) (g : gameState) : list message :=
  (if hasWinner (score g)
   then [GameFinished (winnerOf (score g)) (score g)] else [])
  ++ [GameGoal s; GameScored (score g)].

(** What one run of the [setInterval] callback emits. *)
Definition tickEmits (g : gameState) : list message :=
  if negb (status_eqb (status g) playing) then []
  else
    let tracked := trackBall g in
    let shifted := moveBall (clampPaddles (movePaddles tracked)) in
    let moved := advance g in
    let final := (scoreDetection moved).1 in
    trackEmits (activePaddle g) tracked
    ++ map PaddleHit
         (paddleHits (ballSpeed shifted) (leftPaddle shifted) (rightPaddle shifted)
            (wallCollision (ball shifted)))
    ++ (match scoringSide (ball moved) with
        | Some s => scoredEmits s final
        | None => []
        end)
    ++ [GameState (viewOf final)].

(** The messages the ticks of a trace emit, oldest first. *)
Fixpoint tickBroadcast (evs : list event) (s : server) : list message :=
  match evs with
  | [] => []
  | e :: evs =>
      (match e with
       | IntervalTick => if gameLoop s then tickEmits (game s) else []
       | _ => []
       end)
      ++ tickBroadcast evs (step e s)
  end.

(** The sides named by the ['game:activePaddleChanged'] messages. *)
Definition activeChanges (msgs : list message) : list side :=
  omap (fun m => match m with ActivePaddleChanged a => Some a | _ => None end) msgs.

(** *** More vocabulary *)

(** The changes of status and the event that makes each of them. *)
Definition allowedMove (e : event) (from to : matchStatus) : bool :=
  match e, from, to with
  | AdminStart _ _ _, waiting, playing
  | AdminStart _ _ _, finished, playing
  | AdminPause, playing, paused
  | AdminResume, paused, playing
  | IntervalTick, playing, finished
  | AdminReset _ _ _, _, waiting => true
  | _, _, _ => false
  end.

(** The event is not a join on a socket that has a player already. *)
Definition freshJoin (e : event) (s : server) : bool :=
  match e with
  | PlayerJoin id => bool_decide (players (game s) !! id = None)
  | _ => true
  end.

Fixpoint freshJoins (evs : list event) (s : server) : bool :=
  match evs with
  | [] => true
  | e :: evs => freshJoin e s && freshJoins evs (step e s)
  end.

(** The events of the players: join, input, release, disconnect. *)
Definition playerEvent (e : event) : bool :=
  match e with
  | PlayerJoin _ | PlayerInput _ _ _ _ | PlayerRelease _ | Disconnect _ => true
  | _ => false
  end.

(** The event is a callback of the socket [id]. *)
Definition fromSocket (id : string) (e : event) : bool :=
  match e with
  | PlayerJoin i | PlayerInput i _ _ _ | PlayerRelease i | Disconnect i =>
      String.eqb i id
  | _ => false
  end.

(** The event is the ['player:join'] of the socket [id]. *)
Definition joinOf (id : string) (e : event) : bool :=
  match e with
  | PlayerJoin i => String.eqb i id
  | _ => false
  end.

(** Every [Math.random()] the event reads is in [[0, 1)]. *)
Definition fairEvent (e : event) : bool :=
  match e with
  | TimeoutFire rnd => inUnitInterval rnd
  | AdminStart r1 r2 r3 | AdminReset r1 r2 r3 =>
      inUnitInterval r1 && inUnitInterval r2 && inUnitInterval r3
  | _ => true
  end.

(** The scoreboard of a match: no side is above the winning score, the two
    sides are not both at it, and the match is finished exactly when one of
    them is. *)
Definition scoreLaw (g : gameState) : Prop :=
  (0 <= Score.left (score g) <= WINNING_SCORE)%Z /\
  (0 <= Score.right (score g) <= WINNING_SCORE)%Z /\
  ~ (Score.left (score g) = WINNING_SCORE /\ Score.right (score g) = WINNING_SCORE) /\
  (status g = finished <->
   Score.left (score g) = WINNING_SCORE \/ Score.right (score g) = WINNING_SCORE).

(** The ball is between the walls and its speed from side to side is the
    initial ball speed, which is the ball speed of every state. *)
Definition ballLaw (g : gameState) : Prop :=
  ballSpeed g = INITIAL_BALL_SPEED /\
  ballInside (ball g) /\
  (Ball.vx (ball g) == INITIAL_BALL_SPEED \/ Ball.vx (ball g) == - INITIAL_BALL_SPEED).

(** The ball is never steeper than 1.25 times the ball speed. *)
Definition steepness (g : gameState) : Prop :=
  - (1.25 * ballSpeed g) <= Ball.vy (ball g) <= 1.25 * ballSpeed g.

(** The numbers of the players present: below the next number to give and
    different from socket to socket. *)
Definition rosterLaw (g : gameState) : Prop :=
  (1 <= nextPlayerNumber g)%Z /\
  (forall id p, players g !! id = Some p ->
     (1 <= number p < nextPlayerNumber g)%Z) /\
  (forall i j p q, players g !! i = Some p -> players g !! j = Some q ->
     number p = number q -> i = j).

(** The two paddles carry the same tallies. *)
Definition twinTallies (g : gameState) : Prop :=
  Paddle.upVotes (leftPaddle g) = Paddle.upVotes (rightPaddle g) /\
  Paddle.downVotes (leftPaddle g) = Paddle.downVotes (rightPaddle g).

(** No tally counts more votes than there are players holding them. *)
Definition backed (g : gameState) : Prop :=
  forall t : side,
    (0 <= Paddle.upVotes (paddleOf t g) <= Z.of_nat (holders "up" (players g)))%Z /\
    (0 <= Paddle.downVotes (paddleOf t g) <= Z.of_nat (holders "down" (players g)))%Z.

(** The entries of the inputs of a trace that found their player, newest
    first, on top of [log]; [resetGame] and [admin:resetPlayers] empty the
    list as they empty [recentInputs]. *)
Fixpoint accepted (evs : list event) (s : server) (log : list inputEntry)
    : list inputEntry :=
  match evs with
  | [] => log
  | e :: evs =>
      accepted evs (step e s)
        match e with
        | PlayerInput id direction _ t2 =>
            match players (game s) !! id with
            | Some player =>
                {| e_number := number player; e_direction := direction;
                   e_timestamp := t2 |} :: log
            | None => log
            end
        | AdminStart _ _ _ =>
            if status_eqb (status (game s)) waiting
               || status_eqb (status (game s)) finished
            then [] else log
        | AdminReset _ _ _ | AdminResetPlayers => []
        | _ => log
        end
  end.

(** What a player event cannot touch: the match, the ball, the positions of
    the paddles, the active paddle, the interval and the outstanding round
    resets. *)
Definition matchPart (s : server)
    : matchStatus * Ball.t * Score.t * Q * side * Q * Q * bool * nat :=
  (status (game s), ball (game s), score (game s), ballSpeed (game s),
   activePaddle (game s), Paddle.y (leftPaddle (game s)),
   Paddle.y (rightPaddle (game s)), gameLoop s, pendingResets s).

(** What a tick cannot touch: the players, their numbering, the log and the
    four tallies. *)
Definition ledgerPart (g : gameState)
    : gmap string player * Z * list inputEntry * nat * (Z * Z) * (Z * Z) :=
  (players g, nextPlayerNumber g, recentInputs g, maxRecentInputs g,
   (Paddle.upVotes (leftPaddle g), Paddle.downVotes (leftPaddle g)),
   (Paddle.upVotes (rightPaddle g), Paddle.downVotes (rightPaddle g))).

End BallTracking.

(** ** What both servers do to find the address they are reached at *)

Module Network.

(** An entry of [os.networkInterfaces()]. *)
Record iface : Type := mkIface {
  family : jsval;
  internal : bool;
  address : string
}.

(** [iface.family === 'IPv4' && !iface.internal] *)
Definition usable (i : iface) : bool :=
  strictEqStr (family i) "IPv4" && negb (internal i).

(** The inner loop of [getLocalIP]: it returns from the function at the
    first usable entry. *)
Fixpoint firstUsable (entries : list iface) : option string :=
  match entries with
  | [] => None
  | i :: entries => if usable i then Some (address i) else firstUsable entries
  end.

(** [getLocalIP()]; [interfaces] is [os.networkInterfaces()], its names in
    the order of [Object.keys]. *)
Fixpoint getLocalIP (interfaces : list (string * list iface)) : string :=
  match interfaces with
  | [] => "localhost"
  | (_, entries) :: interfaces =>
      match firstUsable entries with
      | Some a => a
      | None => getLocalIP interfaces
      end
  end.

(** A string or [null] ([undefined] for a header), in a condition. *)
Definition given (v : option string) : bool :=
  match v with
  | Some s => negb (String.eqb s EmptyString)
  | None => false
  end.

(** [v || fallback] *)
Definition orElse (v : option string) (fallback : string) : string :=
  match v with
  | Some s => if String.eqb s EmptyString then fallback else s
  | None => fallback
  end.

(** [s.includes(part)] *)
Definition includes (s part : string) : bool :=
  match String.index 0 part s with Some _ => true | None => false end.

(** [process.env.PUBLIC_URL || null] *)
Definition envURL (env : option string) : option string :=
  if given env then env else None.

(** The text of [PORT] in a template, [PORT] being
    [process.env.PORT || 3000]. *)
Definition portText (env : option string) : string := orElse env "3000".

(** [getPublicURL()] *)
Definition getPublicURL (PUBLIC_URL : option string) (PORT : string)
    (interfaces : list (string * list iface)) : string :=
  let localURL := "http://" +:+ getLocalIP interfaces +:+ ":" +:+ PORT in
  match PUBLIC_URL with
  | Some url => if given PUBLIC_URL then url else localURL
  | None => localURL
  end.

(** The two headers the first middleware reads. *)
Record request : Type := mkRequest {
  host : option string;
  forwardedProto : option string
}.

(** "Auto-detect PUBLIC_URL from request headers": the value of
    [PUBLIC_URL] after the middleware has seen the request. *)
Definition autoDetect (req : request) (PUBLIC_URL : option string) : option string :=
  match host req with
  | Some h =>
      if negb (given PUBLIC_URL) && given (host req) && negb (includes h "localhost")
      then Some (orElse (forwardedProto req) "https" +:+ "://" +:+ h)
      else PUBLIC_URL
  | None => PUBLIC_URL
  end.

(** [PUBLIC_URL] after the requests of a list, oldest first. *)
Definition served (reqs : list request) (PUBLIC_URL : option string) : option string :=
  fold_left (fun url req => autoDetect req url) reqs PUBLIC_URL.

(** The address the [/qr] endpoint encodes. *)
Definition qrURL (PUBLIC_URL : option string) (PORT : string)
    (interfaces : list (string * list iface)) : string :=
  getPublicURL PUBLIC_URL PORT interfaces +:+ "/play".

End Network.

(** * Properties *)

(** ** Rational arithmetic behind the comparisons of the tick *)

Lemma Qlt_bool_iff (a b : Q) : Qlt_bool a b = true <-> a < b.
Proof.
  unfold Qlt_bool. rewrite negb_true_iff, <- not_true_iff_false, Qle_bool_iff.
  split; [apply Qnot_le_lt | apply Qlt_not_le].
Qed.

Lemma Qlt_bool_false_iff (a b : Q) : Qlt_bool a b = false <-> b <= a.
Proof. unfold Qlt_bool. rewrite negb_false_iff. apply Qle_bool_iff. Qed.

Lemma Qle_bool_false_iff (a b : Q) : Qle_bool a b = false <-> b < a.
Proof.
  rewrite <- not_true_iff_false, Qle_bool_iff.
  split; [apply Qnot_le_lt | apply Qlt_not_le].
Qed.

Lemma ratio_lt_iff (a b t : Z) :
  (0 < t)%Z -> inject_Z a / inject_Z t < inject_Z b / inject_Z t <-> (a < b)%Z.
Proof.
  intros Ht. rewrite (Zlt_Qlt a b).
  assert (Hi : 0 < / inject_Z t).
  { apply Qinv_lt_0_compat. change 0 with (inject_Z 0). now rewrite <- Zlt_Qlt. }
  split; intros H.
  - apply Qmult_lt_r with (z := / inject_Z t); assumption.
  - apply Qmult_lt_r; assumption.
Qed.

Lemma ratios_sum (a b : Z) :
  (0 < a + b)%Z ->
  inject_Z a / inject_Z (a + b) + inject_Z b / inject_Z (a + b) == 1.
Proof.
  intros Ht. rewrite inject_Z_plus.
  assert (0 < inject_Z a + inject_Z b).
  { rewrite <- inject_Z_plus. change 0 with (inject_Z 0). now rewrite <- Zlt_Qlt. }
  field. lra.
Qed.

Lemma clamp_inside (hi v : Q) : 0 <= v -> v <= hi -> clamp hi v == v.
Proof.
  intros H0 H1. unfold clamp.
  rewrite (Q.min_r hi v) by exact H1. now apply Q.max_r.
Qed.

Lemma clamp_bounds (hi v : Q) : 0 <= hi -> 0 <= clamp hi v /\ clamp hi v <= hi.
Proof.
  intros Hhi. unfold clamp. split.
  - apply Q.le_max_l.
  - apply Q.max_lub; [exact Hhi | apply Q.le_min_l].
Qed.

(** ** The displacement a paddle gets from its tallies *)

Section Displacement.
Variable speed : Q.
Variable paddle : Paddle.t.

Let upVotes := Paddle.upVotes paddle.
Let downVotes := Paddle.downVotes paddle.
Let u := inject_Z upVotes / inject_Z (upVotes + downVotes).
Let d := inject_Z downVotes / inject_Z (upVotes + downVotes).
Let move := calculatePaddleMovement speed paddle.

Lemma move_no_votes : (upVotes + downVotes = 0)%Z -> move = 0.
Proof.
  intros H. subst move upVotes downVotes. unfold calculatePaddleMovement.
  now rewrite H.
Qed.

Lemma move_unfold :
  (upVotes + downVotes <> 0)%Z ->
  move = if Qlt_bool d u then (- speed) * (u - 0.5) * 2
         else if Qlt_bool u d then speed * (d - 0.5) * 2 else 0.
Proof.
  intros H. subst move u d upVotes downVotes. unfold calculatePaddleMovement.
  apply Z.eqb_neq in H. now rewrite H.
Qed.

Lemma move_up :
  (upVotes + downVotes <> 0)%Z -> d < u ->
  move == - (speed * (Qmax u d - 0.5) * 2).
Proof.
  intros H Hlt. rewrite (move_unfold H).
  apply Qlt_bool_iff in Hlt as Hb. rewrite Hb.
  rewrite (Q.max_l u d) by (apply Qlt_le_weak, Hlt). ring.
Qed.

Lemma move_down :
  (upVotes + downVotes <> 0)%Z -> u < d ->
  move == speed * (Qmax u d - 0.5) * 2.
Proof.
  intros H Hlt. rewrite (move_unfold H).
  assert (Hb : Qlt_bool d u = false) by (apply Qlt_bool_false_iff, Qlt_le_weak, Hlt).
  rewrite Hb. apply Qlt_bool_iff in Hlt as Hb'. rewrite Hb'.
  rewrite (Q.max_r u d) by (apply Qlt_le_weak, Hlt). ring.
Qed.

Lemma move_tie : upVotes = downVotes -> move = 0.
Proof.
  intros E. destruct (Z.eq_dec (upVotes + downVotes)%Z 0%Z) as [H0 | H0].
  - apply move_no_votes, H0.
  - rewrite (move_unfold H0). subst u d. rewrite E.
    assert (Hb : forall q, Qlt_bool q q = false)
      by (intros q; apply Qlt_bool_false_iff, Qle_refl).
    now rewrite Hb.
Qed.
End Displacement.

(** ** Counting under insertion and deletion *)

Section Counting.
Context {A : Type} (f : A -> bool).

Lemma count_empty : count f ∅ = 0%nat.
Proof. unfold count. now rewrite map_filter_empty, map_size_empty. Qed.

Lemma count_insert_fresh (m : gmap string A) (i : string) (x : A) :
  m !! i = None -> count f (<[i:=x]> m) = (count f m + b2n (f x))%nat.
Proof.
  intros Hi. unfold count. destruct (f x) eqn:E.
  - rewrite map_filter_insert_True by exact E.
    rewrite map_size_insert_None; [simpl; lia |].
    apply map_lookup_filter_None_2. now left.
  - rewrite map_filter_insert_False by (simpl; congruence).
    rewrite delete_id by exact Hi. simpl. lia.
Qed.

Lemma count_delete (m : gmap string A) (i : string) (x : A) :
  m !! i = Some x -> (count f (delete i m) + b2n (f x))%nat = count f m.
Proof.
  intros Hi. rewrite <- (insert_delete_id m i x Hi) at 2.
  now rewrite count_insert_fresh by apply lookup_delete_eq.
Qed.

Lemma count_insert (m : gmap string A) (i : string) (x y : A) :
  m !! i = Some x ->
  (count f (<[i:=y]> m) + b2n (f x))%nat = (count f m + b2n (f y))%nat.
Proof.
  intros Hi. rewrite <- (count_delete m i x Hi).
  rewrite <- (insert_delete_eq m i y).
  rewrite count_insert_fresh by apply lookup_delete_eq. lia.
Qed.
End Counting.

(** Counting in a map is counting over any duplicate-free list of keys that
    has all the keys that count. *)
Lemma count_by_list {A : Type} (f : A -> bool) (q : string -> bool)
    (l : list string) (m : gmap string A) :
  NoDup l ->
  (forall id, (exists x, m !! id = Some x /\ f x = true) <-> (id ∈ l /\ q id = true)) ->
  count f m = length (List.filter q l).
Proof.
  intros Hnd. revert m. induction Hnd as [| a l Ha Hnd IH]; intros m H.
  - unfold count. apply map_size_empty_iff, map_empty_filter.
    intros i x Hi Hf. simpl in Hf.
    destruct (proj1 (H i) (ex_intro _ x (conj Hi Hf))) as [Hin _].
    inversion Hin.
  - assert (Hrest : forall m', (forall id, id <> a -> m' !! id = m !! id) ->
                      m' !! a = None -> count f m' = length (List.filter q l)).
    { intros m' Hsame Hnone. apply IH. intros id. split.
      - intros (x & Hx & Hfx).
        assert (Hne : id <> a) by (intros ->; congruence).
        rewrite (Hsame _ Hne) in Hx.
        destruct (proj1 (H id) (ex_intro _ x (conj Hx Hfx))) as [Hin Hq].
        split; [| exact Hq].
        apply elem_of_cons in Hin as [-> | Hin]; [congruence | exact Hin].
      - intros [Hin Hq].
        assert (Hne : id <> a) by (intros ->; contradiction).
        rewrite (Hsame _ Hne). apply H. split; [now right | exact Hq]. }
    cbn [List.filter]. destruct (m !! a) as [x |] eqn:Hma.
    + rewrite <- (count_delete f m a x Hma).
      rewrite (Hrest (delete a m));
        [| intros id Hne; now apply lookup_delete_ne | apply lookup_delete_eq].
      destruct (q a) eqn:Hq.
      * assert (Hfx : f x = true).
        { destruct (proj2 (H a) (conj (list_elem_of_here _ _) Hq)) as (x' & Hx' & Hf).
          congruence. }
        rewrite Hfx. simpl. lia.
      * destruct (f x) eqn:Hfx; [| simpl; lia].
        destruct (proj1 (H a) (ex_intro _ x (conj Hma Hfx))) as [_ Hq']. congruence.
    + rewrite (Hrest m); [| reflexivity | exact Hma].
      destruct (q a) eqn:Hq; [| reflexivity].
      destruct (proj2 (H a) (conj (list_elem_of_here _ _) Hq)) as (x' & Hx' & _).
      congruence.
Qed.

Lemma rem2_even (n : Z) : (0 <= n)%Z -> (Z.rem n 2 =? 0)%Z = Z.even n.
Proof.
  intros H. rewrite Z.rem_mod_nonneg by lia. symmetry. apply Zeven_mod.
Qed.

(** A value that is not truthy is not a direction. *)
Lemma falsy_no_direction v d :
  truthy v = false -> d <> EmptyString -> strictEqStr v d = false.
Proof.
  intros Hv Hd. destruct v; try reflexivity. simpl in *.
  apply negb_false_iff, String.eqb_eq in Hv. subst s.
  apply String.eqb_neq. congruence.
Qed.

(** ** Votes on one paddle *)

Lemma retractVote_up v p :
  Paddle.upVotes (retractVote v p)
  = if strictEqStr v "up" then retract (Paddle.upVotes p) else Paddle.upVotes p.
Proof. unfold retractVote. now destruct (strictEqStr v "up"), (strictEqStr v "down"). Qed.

Lemma retractVote_down v p :
  Paddle.downVotes (retractVote v p)
  = if strictEqStr v "down" then retract (Paddle.downVotes p) else Paddle.downVotes p.
Proof. unfold retractVote. now destruct (strictEqStr v "up"), (strictEqStr v "down"). Qed.

Lemma retractVote_y v p : Paddle.y (retractVote v p) = Paddle.y p.
Proof. unfold retractVote. now destruct (strictEqStr v "up"), (strictEqStr v "down"). Qed.

Lemma addVote_up v p :
  Paddle.upVotes (addVote v p)
  = (Paddle.upVotes p + if strictEqStr v "up" then 1 else 0)%Z.
Proof.
  unfold addVote. destruct (strictEqStr v "up"), (strictEqStr v "down"); simpl; lia.
Qed.

Lemma addVote_down v p :
  Paddle.downVotes (addVote v p)
  = (Paddle.downVotes p + if strictEqStr v "down" then 1 else 0)%Z.
Proof.
  unfold addVote. destruct (strictEqStr v "up"), (strictEqStr v "down"); simpl; lia.
Qed.

Lemma addVote_y v p : Paddle.y (addVote v p) = Paddle.y p.
Proof. unfold addVote. now destruct (strictEqStr v "up"), (strictEqStr v "down"). Qed.

(** A direction that is neither ['up'] nor ['down'] adds nothing. *)
Lemma addVote_malformed v p :
  strictEqStr v "up" = false -> strictEqStr v "down" = false -> addVote v p = p.
Proof. intros Hu Hd. unfold addVote. now rewrite Hu, Hd. Qed.

Lemma paddle_eq (p q : Paddle.t) :
  Paddle.y p = Paddle.y q -> Paddle.upVotes p = Paddle.upVotes q ->
  Paddle.downVotes p = Paddle.downVotes q -> p = q.
Proof. destruct p, q; simpl; congruence. Qed.

(** Taking the vote just cast back and casting it again changes nothing. *)
Lemma revote_same d p :
  d = up \/ d = down ->
  (0 <= Paddle.upVotes p)%Z -> (0 <= Paddle.downVotes p)%Z ->
  addVote d (retractVote d (addVote d p)) = addVote d p.
Proof.
  intros Hd Hu Hdn. apply paddle_eq.
  - now rewrite !addVote_y, retractVote_y, addVote_y.
  - rewrite !addVote_up, retractVote_up, addVote_up.
    destruct Hd as [-> | ->]; simpl; unfold retract; lia.
  - rewrite !addVote_down, retractVote_down, addVote_down.
    destruct Hd as [-> | ->]; simpl; unfold retract; lia.
Qed.

Lemma retractVote_nonneg v p :
  (0 <= Paddle.upVotes p)%Z -> (0 <= Paddle.downVotes p)%Z ->
  (0 <= Paddle.upVotes (retractVote v p))%Z /\
  (0 <= Paddle.downVotes (retractVote v p))%Z.
Proof.
  intros Hu Hd. rewrite retractVote_up, retractVote_down.
  destruct (strictEqStr v "up"), (strictEqStr v "down"); unfold retract; lia.
Qed.

(** What the soundness proofs of the two servers need of a paddle. *)
Create HintDb paddles.

Lemma addVote_sound v p :
  paddleNonneg p /\ paddleInside p ->
  paddleNonneg (addVote v p) /\ paddleInside (addVote v p).
Proof.
  intros [[Hu Hd] Hy]. unfold paddleNonneg, paddleInside.
  rewrite addVote_up, addVote_down, addVote_y. split; [| exact Hy].
  destruct (strictEqStr v "up"), (strictEqStr v "down"); lia.
Qed.

Lemma retractVote_sound v p :
  paddleNonneg p /\ paddleInside p ->
  paddleNonneg (retractVote v p) /\ paddleInside (retractVote v p).
Proof.
  intros [[Hu Hd] Hy]. unfold paddleNonneg, paddleInside.
  rewrite retractVote_y. split; [now apply retractVote_nonneg | exact Hy].
Qed.

Lemma centred_paddle_sound y :
  y = centerY ->
  paddleNonneg (Paddle.mk y 0 0) /\ paddleInside (Paddle.mk y 0 0).
Proof.
  intros ->. split; [split; simpl; lia |].
  split; [vm_compute; discriminate | vm_compute; discriminate].
Qed.

Lemma clamped_paddle_sound p q :
  paddleNonneg p ->
  Paddle.upVotes q = Paddle.upVotes p -> Paddle.downVotes q = Paddle.downVotes p ->
  (exists v, Paddle.y q = clamp (CANVAS_HEIGHT - PADDLE_HEIGHT) v) ->
  paddleNonneg q /\ paddleInside q.
Proof.
  intros [Hu Hd] Eu Ed [v Ey]. unfold paddleNonneg, paddleInside.
  rewrite Eu, Ed, Ey. split; [now split |].
  apply clamp_bounds. vm_compute. discriminate.
Qed.

#[export] Hint Resolve addVote_sound retractVote_sound : paddles.

Lemma tally_replace (tally : Z) (n n' : nat) (bprev bnew : bool) :
  tally = Z.of_nat n ->
  (n' + b2n bprev = n + b2n bnew)%nat ->
  (b2n bprev <= n)%nat ->
  ((if bprev then retract tally else tally) + (if bnew then 1 else 0))%Z = Z.of_nat n'.
Proof. destruct bprev, bnew; unfold retract; simpl; lia. Qed.

Lemma tally_retract (tally : Z) (n n' : nat) (bprev : bool) :
  tally = Z.of_nat n ->
  (n' + b2n bprev = n)%nat ->
  (if bprev then retract tally else tally) = Z.of_nat n'.
Proof. destruct bprev; unfold retract; simpl; lia. Qed.

(** ** The ball in one tick *)

Lemma wallCollision_x b : Ball.x (wallCollision b) = Ball.x b.
Proof. unfold wallCollision. now destruct (_ || _). Qed.

Lemma paddleCollisions_x speed lp rp b :
  Ball.x (paddleCollisions speed lp rp b) = Ball.x b.
Proof.
  unfold paddleCollisions.
  destruct (leftPaddleCollision lp b); destruct (rightPaddleCollision rp _); reflexivity.
Qed.

Lemma scoringSide_right b : Ball.x b <= 0 -> scoringSide b = Some sideRight.
Proof. intros H. unfold scoringSide. apply Qle_bool_iff in H. now rewrite H. Qed.

Lemma scoringSide_left b : CANVAS_WIDTH <= Ball.x b -> scoringSide b = Some sideLeft.
Proof.
  intros H. unfold scoringSide.
  assert (H0 : Qle_bool (Ball.x b) 0 = false).
  { apply Qle_bool_false_iff. unfold CANVAS_WIDTH in H. lra. }
  rewrite H0. apply Qle_bool_iff in H. now rewrite H.
Qed.

Lemma status_eqb_eq a b : status_eqb a b = true <-> a = b.
Proof. destruct a, b; simpl; split; congruence. Qed.

Lemma hasWinner_iff sc :
  hasWinner sc = true
  <-> (WINNING_SCORE <= Score.left sc \/ WINNING_SCORE <= Score.right sc)%Z.
Proof. unfold hasWinner. now rewrite orb_true_iff, !Z.leb_le. Qed.

Lemma servedBall_vx speed direction rnd :
  Ball.vx (servedBall speed direction rnd) = speed * direction.
Proof. reflexivity. Qed.

Lemma lastScorer_left_leads sc :
  (Score.right sc < Score.left sc)%Z -> lastScorer sc = -1.
Proof. intros H. unfold lastScorer. apply Z.ltb_lt in H. now rewrite H. Qed.

Lemma lastScorer_otherwise sc :
  (Score.left sc <= Score.right sc)%Z -> lastScorer sc = 1.
Proof. intros H. unfold lastScorer. apply Z.ltb_ge in H. now rewrite H. Qed.

(** ** Facts about [server.js] *)

Section FixedTeamFacts.
Import FixedTeam.

(** *** The handlers, field by field *)

Lemma ft_playerInput_absent id direction t1 t2 g :
  players g !! id = None -> playerInput id direction t1 t2 g = g.
Proof. intros H. unfold playerInput. now rewrite H. Qed.

Lemma ft_playerInput_players id direction t1 t2 g pl :
  players g !! id = Some pl ->
  players (playerInput id direction t1 t2 g)
  = <[id := mkPlayer (number pl) (team pl) direction (Some t1)]> (players g).
Proof. intros H. unfold playerInput. rewrite H. now destruct (team pl). Qed.

Lemma ft_playerInput_paddle id direction t1 t2 g pl t :
  players g !! id = Some pl ->
  paddleOf t (playerInput id direction t1 t2 g)
  = if side_eqb (team pl) t
    then addVote direction (retractVote (lastInput pl) (paddleOf t g))
    else paddleOf t g.
Proof. intros H. unfold playerInput. rewrite H. now destruct t, (team pl). Qed.

Lemma ft_playerInput_log id direction t1 t2 g pl :
  players g !! id = Some pl ->
  recentInputs (playerInput id direction t1 t2 g)
  = logInput (maxRecentInputs g)
      (mkEntry (number pl) direction (team pl) t2) (recentInputs g).
Proof. intros H. unfold playerInput. rewrite H. now destruct (team pl). Qed.

Lemma ft_playerRelease_idle id g pl :
  players g !! id = Some pl -> truthy (lastInput pl) = false ->
  playerRelease id g = g.
Proof. intros H Ht. unfold playerRelease. now rewrite H, Ht. Qed.

Lemma ft_playerRelease_players id g pl :
  players g !! id = Some pl -> truthy (lastInput pl) = true ->
  players (playerRelease id g)
  = <[id := mkPlayer (number pl) (team pl) JNull (inputTime pl)]> (players g).
Proof. intros H Ht. unfold playerRelease. rewrite H, Ht. now destruct (team pl). Qed.

Lemma ft_playerRelease_paddle id g pl t :
  players g !! id = Some pl -> truthy (lastInput pl) = true ->
  paddleOf t (playerRelease id g)
  = if side_eqb (team pl) t
    then retractVote (lastInput pl) (paddleOf t g)
    else paddleOf t g.
Proof. intros H Ht. unfold playerRelease. rewrite H, Ht. now destruct t, (team pl). Qed.

Lemma ft_disconnect_players id g pl :
  players g !! id = Some pl ->
  players (disconnect id g) = delete id (players g).
Proof. intros H. unfold disconnect. rewrite H. now destruct (team pl). Qed.

Lemma ft_disconnect_paddle id g pl t :
  players g !! id = Some pl ->
  paddleOf t (disconnect id g)
  = if side_eqb (team pl) t
    then retractVote (lastInput pl) (paddleOf t g)
    else paddleOf t g.
Proof. intros H. unfold disconnect. rewrite H. now destruct t, (team pl). Qed.

(** *** The ledger invariant *)

Lemma ft_holders_replace ps id pl pl' t d :
  ps !! id = Some pl ->
  (holders t d (<[id:=pl']> ps) + b2n (votesFor t d pl)
   = holders t d ps + b2n (votesFor t d pl'))%nat
  /\ (b2n (votesFor t d pl) <= holders t d ps)%nat.
Proof.
  intros Hid. unfold holders. split; [now apply count_insert |].
  rewrite <- (count_delete _ _ _ _ Hid). lia.
Qed.

Lemma ft_holders_remove ps id pl t d :
  ps !! id = Some pl ->
  (holders t d (delete id ps) + b2n (votesFor t d pl))%nat = holders t d ps.
Proof. intros Hid. unfold holders. now apply count_delete. Qed.

Ltac ft_votes Et :=
  repeat match goal with
  | H : context [votesFor _ _ _] |- _ =>
      unfold votesFor in H; simpl in H; rewrite Et in H; simpl in H
  end.

Lemma ft_initial_consistent rnd : ledgerConsistent (initialState rnd).
Proof. intros []; simpl; unfold holders; now rewrite count_empty. Qed.

Lemma ft_playerJoin_consistent id g :
  players g !! id = None -> ledgerConsistent g -> ledgerConsistent (playerJoin id g).
Proof.
  intros Hid Hg t. destruct (Hg t) as [Hu Hd].
  unfold playerJoin, holders in *. simpl.
  rewrite !count_insert_fresh by exact Hid.
  unfold votesFor; simpl. rewrite !andb_false_r. simpl. rewrite !Nat.add_0_r.
  destruct t; simpl in *; auto.
Qed.

Lemma ft_playerInput_consistent id direction t1 t2 g :
  ledgerConsistent g -> ledgerConsistent (playerInput id direction t1 t2 g).
Proof.
  intros Hg t.
  destruct (players g !! id) as [pl |] eqn:Hid;
    [| rewrite ft_playerInput_absent by exact Hid; apply Hg].
  destruct (Hg t) as [Hu Hd].
  rewrite (ft_playerInput_players _ _ _ _ _ _ Hid),
    (ft_playerInput_paddle _ _ _ _ _ _ t Hid).
  set (pl' := mkPlayer _ _ _ _).
  destruct (ft_holders_replace _ _ _ pl' t "up" Hid) as [Cu Bu].
  destruct (ft_holders_replace _ _ _ pl' t "down" Hid) as [Cd Bd].
  destruct (side_eqb (team pl) t) eqn:Et; ft_votes Et.
  - rewrite addVote_up, addVote_down, retractVote_up, retractVote_down.
    split; eapply tally_replace; eassumption.
  - split; [rewrite Hu | rewrite Hd]; f_equal; lia.
Qed.

Lemma ft_playerRelease_consistent id g :
  ledgerConsistent g -> ledgerConsistent (playerRelease id g).
Proof.
  intros Hg t.
  destruct (players g !! id) as [pl |] eqn:Hid;
    [| unfold playerRelease; rewrite Hid; apply Hg].
  destruct (truthy (lastInput pl)) eqn:Ht;
    [| rewrite (ft_playerRelease_idle _ _ _ Hid Ht); apply Hg].
  destruct (Hg t) as [Hu Hd].
  rewrite (ft_playerRelease_players _ _ _ Hid Ht),
    (ft_playerRelease_paddle _ _ _ t Hid Ht).
  set (pl' := mkPlayer _ _ _ _).
  destruct (ft_holders_replace _ _ _ pl' t "up" Hid) as [Cu _].
  destruct (ft_holders_replace _ _ _ pl' t "down" Hid) as [Cd _].
  destruct (side_eqb (team pl) t) eqn:Et; ft_votes Et.
  - rewrite retractVote_up, retractVote_down.
    split; eapply tally_retract; try eassumption; lia.
  - split; [rewrite Hu | rewrite Hd]; f_equal; lia.
Qed.

Lemma ft_disconnect_consistent id g :
  ledgerConsistent g -> ledgerConsistent (disconnect id g).
Proof.
  intros Hg t.
  destruct (players g !! id) as [pl |] eqn:Hid;
    [| unfold disconnect; rewrite Hid; apply Hg].
  destruct (Hg t) as [Hu Hd].
  rewrite (ft_disconnect_players _ _ _ Hid), (ft_disconnect_paddle _ _ _ t Hid).
  pose proof (ft_holders_remove _ _ _ t "up" Hid) as Du.
  pose proof (ft_holders_remove _ _ _ t "down" Hid) as Dd.
  destruct (side_eqb (team pl) t) eqn:Et; ft_votes Et.
  - rewrite retractVote_up, retractVote_down.
    split; eapply tally_retract; eassumption.
  - split; [rewrite Hu | rewrite Hd]; f_equal; lia.
Qed.

(** *** The history and the state *)

Lemma ft_present_mentioned id past :
  present id past = true -> id ∈ sockets past.
Proof.
  intros H. apply elem_of_remove_dups, list_elem_of_omap.
  induction past as [| e past IH]; [discriminate |].
  destruct e; cbn [present] in H;
    try (destruct (IH H) as (e' & He' & Hs); exists e'; split; [now right | exact Hs]).
  - destruct (String.eqb id0 id) eqn:E.
    + apply String.eqb_eq in E. subst id0.
      exists (PlayerJoin id). split; [left | reflexivity].
    + destruct (IH H) as (e' & He' & Hs). exists e'. split; [now right | exact Hs].
  - destruct (String.eqb id0 id) eqn:E; [discriminate |].
    destruct (IH H) as (e' & He' & Hs). exists e'. split; [now right | exact Hs].
Qed.

Lemma ft_holds_present id d past :
  holds id d past = true -> present id past = true.
Proof.
  induction past as [| e past IH]; [discriminate |].
  destruct e; cbn [holds present]; try exact IH;
    destruct (String.eqb id0 id); try discriminate; try exact IH.
  intros H. now apply andb_true_iff in H as [_ H].
Qed.

Lemma ft_initial_tracks rnd : tracks [] (initialState rnd).
Proof. split; [reflexivity |]. intros id. cbn [players initialState]. now rewrite lookup_empty. Qed.

Lemma ft_playerInput_number id d t1 t2 g :
  nextPlayerNumber (playerInput id d t1 t2 g) = nextPlayerNumber g.
Proof.
  unfold playerInput. destruct (players g !! id) as [pl |]; [| reflexivity].
  now destruct (team pl).
Qed.

Lemma ft_playerRelease_number id g :
  nextPlayerNumber (playerRelease id g) = nextPlayerNumber g.
Proof.
  unfold playerRelease. destruct (players g !! id) as [pl |]; [| reflexivity].
  destruct (negb (truthy (lastInput pl))); [reflexivity |]. now destruct (team pl).
Qed.

Lemma ft_disconnect_number id g :
  nextPlayerNumber (disconnect id g) = nextPlayerNumber g.
Proof.
  unfold disconnect. destruct (players g !! id) as [pl |]; [| reflexivity].
  now destruct (team pl).
Qed.

(** One ledger event keeps the state in step with the history. *)
Lemma ft_step_tracks e past s :
  ledgerHistory (e :: past) = true -> tracks past (game s) ->
  tracks (e :: past) (game (step e s)).
Proof.
  intros Hh [Hn Hg]. cbn [ledgerHistory] in Hh.
  apply andb_true_iff in Hh as [He _].
  destruct e as [| | i | i v t1 t2 | i | i | | | | |]; try discriminate;
    cbn [step game set_game].
  - (* join *)
    apply negb_true_iff in He. split.
    + cbn [playerJoin nextPlayerNumber set_players set_nextPlayerNumber
           List.filter isJoin length]. rewrite Hn. lia.
    + intros id. cbn [playerJoin players set_players set_nextPlayerNumber
                      nextPlayerNumber].
      cbn [present holds numberOf]. unfold teamOf. cbn [numberOf].
      destruct (decide (i = id)) as [-> | Hne].
      * rewrite lookup_insert_eq, String.eqb_refl. cbn [number team lastInput].
        split; [reflexivity | split; [exact Hn | split]].
        -- rewrite <- Hn. rewrite rem2_even; [reflexivity | lia].
        -- reflexivity.
      * rewrite lookup_insert_ne by exact Hne.
        assert (E : String.eqb i id = false) by (now apply String.eqb_neq).
        rewrite E. exact (Hg id).
  - (* input *)
    split; [now rewrite ft_playerInput_number |].
    intros id. cbn [present holds numberOf]. unfold teamOf. cbn [numberOf].
    destruct (players (game s) !! i) as [pl |] eqn:Hi.
    + rewrite (ft_playerInput_players _ _ _ _ _ _ Hi).
      destruct (decide (i = id)) as [-> | Hne].
      * rewrite lookup_insert_eq, String.eqb_refl. cbn [number team lastInput].
        specialize (Hg id). rewrite Hi in Hg. destruct Hg as (Hp & Hnum & Ht & _).
        split; [exact Hp | split; [exact Hnum | split; [exact Ht |]]].
        intros d _. rewrite Hp. now rewrite andb_true_r.
      * rewrite lookup_insert_ne by exact Hne.
        assert (E : String.eqb i id = false) by (now apply String.eqb_neq).
        rewrite E. exact (Hg id).
    + rewrite (ft_playerInput_absent _ _ _ _ _ Hi).
      destruct (decide (i = id)) as [-> | Hne].
      * rewrite Hi. specialize (Hg id). now rewrite Hi in Hg.
      * assert (E : String.eqb i id = false) by (now apply String.eqb_neq).
        rewrite E. exact (Hg id).
  - (* release *)
    split; [now rewrite ft_playerRelease_number |].
    intros id. cbn [present holds numberOf]. unfold teamOf. cbn [numberOf].
    destruct (decide (i = id)) as [-> | Hne].
    + rewrite String.eqb_refl. specialize (Hg id).
      destruct (players (game s) !! id) as [pl |] eqn:Hi.
      * destruct Hg as (Hp & Hnum & Ht & Hd).
        destruct (truthy (lastInput pl)) eqn:Etr.
        -- rewrite (ft_playerRelease_players _ _ _ Hi Etr), lookup_insert_eq.
           cbn [number team lastInput]. now repeat split.
        -- rewrite (ft_playerRelease_idle _ _ _ Hi Etr), Hi.
           split; [exact Hp | split; [exact Hnum | split; [exact Ht |]]].
           intros d Hne. now apply falsy_no_direction.
      * unfold playerRelease. now rewrite Hi, Hi.
    + assert (E : String.eqb i id = false) by (now apply String.eqb_neq).
      rewrite E.
      assert (Hsame : players (playerRelease i (game s)) !! id = players (game s) !! id).
      { destruct (players (game s) !! i) as [pl |] eqn:Hi.
        - destruct (truthy (lastInput pl)) eqn:Etr.
          + rewrite (ft_playerRelease_players _ _ _ Hi Etr).
            now apply lookup_insert_ne.
          + now rewrite (ft_playerRelease_idle _ _ _ Hi Etr).
        - unfold playerRelease. now rewrite Hi. }
      rewrite Hsame. exact (Hg id).
  - (* disconnect *)
    split; [now rewrite ft_disconnect_number |].
    intros id. cbn [present holds numberOf]. unfold teamOf. cbn [numberOf].
    destruct (decide (i = id)) as [-> | Hne].
    + rewrite String.eqb_refl.
      destruct (players (game s) !! id) as [pl |] eqn:Hi.
      * now rewrite (ft_disconnect_players _ _ _ Hi), lookup_delete_eq.
      * unfold disconnect. now rewrite Hi, Hi.
    + assert (E : String.eqb i id = false) by (now apply String.eqb_neq).
      rewrite E.
      assert (Hsame : players (disconnect i (game s)) !! id = players (game s) !! id).
      { destruct (players (game s) !! i) as [pl |] eqn:Hi.
        - rewrite (ft_disconnect_players _ _ _ Hi). now apply lookup_delete_ne.
        - unfold disconnect. now rewrite Hi. }
      rewrite Hsame. exact (Hg id).
Qed.

Lemma ft_step_ledger e past s :
  ledgerHistory (e :: past) = true -> tracks past (game s) ->
  ledgerConsistent (game s) -> ledgerConsistent (game (step e s)).
Proof.
  intros Hh [_ Hg] Hc. cbn [ledgerHistory] in Hh.
  apply andb_true_iff in Hh as [He _].
  destruct e as [| | i | i v t1 t2 | i | i | | | | |]; try discriminate;
    cbn [step game set_game].
  - apply ft_playerJoin_consistent; [| exact Hc].
    apply negb_true_iff in He. specialize (Hg i).
    destruct (players (game s) !! i); [| reflexivity].
    destruct Hg as [Hp _]. congruence.
  - now apply ft_playerInput_consistent.
  - now apply ft_playerRelease_consistent.
  - now apply ft_disconnect_consistent.
Qed.

(** Along a ledger history the state stays in step with the history and
    the tallies with the players. *)
Lemma ft_history_tracks rnd evs :
  ledgerHistory (rev evs) = true ->
  tracks (rev evs) (game (run evs (boot rnd))) /\
  ledgerConsistent (game (run evs (boot rnd))).
Proof.
  induction evs as [| e evs IH] using rev_ind; intros Hh.
  - split; [apply ft_initial_tracks | apply ft_initial_consistent].
  - rewrite rev_app_distr in Hh |- *. cbn [rev app] in Hh |- *.
    unfold run. rewrite fold_left_app. cbn [fold_left]. fold (run evs (boot rnd)).
    assert (Hpast : ledgerHistory (rev evs) = true).
    { cbn [ledgerHistory] in Hh. now apply andb_true_iff in Hh as [_ Hh]. }
    destruct (IH Hpast) as [Ht Hc].
    split; [now apply ft_step_tracks | now apply (ft_step_ledger e (rev evs))].
Qed.

(** The holders of a vote in the players map are the voters of the
    history. *)
Lemma ft_holders_voters past g t d :
  tracks past g -> d <> EmptyString ->
  holders t d (players g) = voters t d past.
Proof.
  intros [_ Hg] Hd. unfold holders, voters.
  apply count_by_list; [apply NoDup_remove_dups |].
  intros id. specialize (Hg id). split.
  - intros (pl & Hpl & Hv). rewrite Hpl in Hg.
    destruct Hg as (Hp & _ & Ht & Hl).
    unfold votesFor in Hv. apply andb_true_iff in Hv as [Hteam Hdir].
    split; [now apply ft_present_mentioned |].
    rewrite <- (Hl d Hd), Hdir, <- Ht, Hteam. reflexivity.
  - intros [_ Hq]. apply andb_true_iff in Hq as [Hh Hteam].
    pose proof (ft_holds_present _ _ _ Hh) as Hp.
    destruct (players g !! id) as [pl |]; [| congruence].
    destruct Hg as (_ & _ & Ht & Hl).
    exists pl. split; [reflexivity |].
    unfold votesFor. rewrite (Hl d Hd), Hh, Ht, Hteam. reflexivity.
Qed.

(** *** The tick *)

Lemma ft_tick_idle g : status g <> playing -> tick g = (g, false).
Proof.
  intros H. unfold tick.
  destruct (status_eqb (status g) playing) eqn:E; [| reflexivity].
  now apply status_eqb_eq in E.
Qed.

Lemma ft_tick_playing g : status g = playing -> tick g = scoreDetection (advance g).
Proof. intros H. unfold tick. now rewrite H. Qed.

Lemma ft_advance_x g :
  Ball.x (ball (advance g)) = Ball.x (ball g) + Ball.vx (ball g).
Proof.
  unfold advance, collisions. cbn [ball set_ball].
  now rewrite paddleCollisions_x, wallCollision_x.
Qed.

(** Each paddle gets its vote displacement and is clamped. *)
Lemma ft_advance_paddle g t :
  Paddle.y (paddleOf t (advance g))
  = clamp (CANVAS_HEIGHT - PADDLE_HEIGHT)
      (Paddle.y (paddleOf t g)
       + calculatePaddleMovement PADDLE_SPEED (paddleOf t g)).
Proof. now destruct t. Qed.

Lemma ft_scoreDetection_ball g : ball (scoreDetection g).1 = ball g.
Proof.
  unfold scoreDetection. destruct (scoringSide (ball g)); [| reflexivity].
  now destruct (hasWinner _).
Qed.

Lemma ft_scoreDetection_paddles g t :
  paddleOf t (scoreDetection g).1 = paddleOf t g.
Proof.
  unfold scoreDetection. destruct (scoringSide (ball g)); [| reflexivity].
  destruct (hasWinner _); now destruct t.
Qed.

Lemma ft_scoreDetection_some g s :
  scoringSide (ball g) = Some s ->
  score (scoreDetection g).1 = addPoint s (score g) /\
  (scoreDetection g).2 = negb (hasWinner (addPoint s (score g))) /\
  status (scoreDetection g).1
  = if hasWinner (addPoint s (score g)) then finished else status g.
Proof.
  intros H. unfold scoreDetection. rewrite H.
  cbn [score set_score set_round set_ballSpeed].
  now destruct (hasWinner _).
Qed.

Lemma ft_scoreDetection_none g :
  scoringSide (ball g) = None -> scoreDetection g = (g, false).
Proof. intros H. unfold scoreDetection. now rewrite H. Qed.

(** *** The process *)

Lemma ft_step_frozen e s :
  status (game s) = finished -> pendingResets s = 0%nat -> keepsMatch e = true ->
  status (game (step e s)) = finished /\ pendingResets (step e s) = 0%nat /\
  positions (game (step e s)) = positions (game s).
Proof.
  intros Hst Hp He. unfold positions.
  destruct e; try discriminate He; simpl.
  - destruct (gameLoop s); [| auto].
    rewrite ft_tick_idle by (rewrite Hst; discriminate). simpl. auto.
  - rewrite Hp. auto.
  - auto.
  - unfold playerInput.
    destruct (players (game s) !! id) as [pl |]; [| auto].
    destruct (team pl); simpl; rewrite ?addVote_y, ?retractVote_y; auto.
  - unfold playerRelease.
    destruct (players (game s) !! id) as [pl |]; [| auto].
    destruct (truthy (lastInput pl)); simpl; [| auto].
    destruct (team pl); simpl; rewrite ?retractVote_y; auto.
  - unfold disconnect.
    destruct (players (game s) !! id) as [pl |]; [| auto].
    destruct (team pl); simpl; rewrite ?retractVote_y; auto.
  - rewrite Hst. simpl. auto.
  - rewrite Hst. simpl. auto.
  - auto.
Qed.

Lemma ft_run_frozen evs s :
  status (game s) = finished -> pendingResets s = 0%nat ->
  forallb keepsMatch evs = true ->
  status (game (run evs s)) = finished /\
  positions (game (run evs s)) = positions (game s).
Proof.
  revert s. induction evs as [| e evs IH]; intros s Hst Hp Hevs; [auto |].
  simpl in Hevs. apply andb_true_iff in Hevs as [He Hevs].
  destruct (ft_step_frozen e s Hst Hp He) as (Hst' & Hp' & Hpos).
  destruct (IH _ Hst' Hp' Hevs) as [H1 H2].
  simpl. split; [exact H1 | now rewrite H2].
Qed.

Lemma ft_pending_step e s :
  pendingResets (step e s)
  = match e with
    | IntervalTick =>
        if gameLoop s && (tick (game s)).2
        then S (pendingResets s) else pendingResets s
    | TimeoutFire _ => Nat.pred (pendingResets s)
    | _ => pendingResets s
    end.
Proof.
  destruct e; simpl; try reflexivity.
  - destruct (gameLoop s); [| reflexivity]. now destruct (tick (game s)) as [g []].
  - destruct (pendingResets s) eqn:E; simpl; congruence.
  - now destruct (_ || _).
  - now destruct (status_eqb _ _).
  - now destruct (status_eqb _ _).
Qed.

Lemma ft_tick_schedules g :
  (tick g).2 = true
  <-> status g = playing /\
      exists s, scoringSide (ball (advance g)) = Some s /\
                hasWinner (addPoint s (score g)) = false.
Proof.
  split.
  - intros H. destruct (status_eqb (status g) playing) eqn:E.
    + apply status_eqb_eq in E. split; [exact E |].
      rewrite (ft_tick_playing _ E) in H.
      destruct (scoringSide (ball (advance g))) as [s |] eqn:Es.
      * exists s. split; [reflexivity |].
        destruct (ft_scoreDetection_some _ _ Es) as (_ & H2 & _).
        rewrite H2 in H. now apply negb_true_iff in H.
      * now rewrite (ft_scoreDetection_none _ Es) in H.
    + unfold tick in H. now rewrite E in H.
  - intros [Hst (s & Es & Hw)]. rewrite (ft_tick_playing _ Hst).
    destruct (ft_scoreDetection_some _ _ Es) as (_ & H2 & _).
    rewrite H2. change (score (advance g)) with (score g). now rewrite Hw.
Qed.

(** *** Every state of a run is sound *)

Lemma ft_tick_paddle g t :
  paddleOf t (tick g).1 = paddleOf t g \/
  (Paddle.upVotes (paddleOf t (tick g).1) = Paddle.upVotes (paddleOf t g) /\
   Paddle.downVotes (paddleOf t (tick g).1) = Paddle.downVotes (paddleOf t g) /\
   exists v, Paddle.y (paddleOf t (tick g).1) = clamp (CANVAS_HEIGHT - PADDLE_HEIGHT) v).
Proof.
  unfold tick. destruct (negb _); [now left | right].
  rewrite ft_scoreDetection_paddles.
  split; [now destruct t | split; [now destruct t |]].
  eexists. apply ft_advance_paddle.
Qed.

Lemma ft_scoreDetection_speed g :
  0 < ballSpeed g -> (1 <= round g)%Z ->
  0 < ballSpeed (scoreDetection g).1 /\ (1 <= round (scoreDetection g).1)%Z.
Proof.
  intros Hs Hr. unfold scoreDetection.
  destruct (scoringSide (ball g)); [| auto].
  assert (H : 0 < INITIAL_BALL_SPEED + (inject_Z (round g + 1) - 1) * SPEED_INCREMENT).
  { rewrite inject_Z_plus. unfold INITIAL_BALL_SPEED, SPEED_INCREMENT.
    assert (1 <= inject_Z (round g))
      by (change 1 with (inject_Z 1); now rewrite <- Zle_Qle).
    change (inject_Z 1) with 1. lra. }
  destruct (hasWinner _); simpl; split; try exact H; lia.
Qed.

Lemma ft_step_sound e s : sound (game s) -> sound (game (step e s)).
Proof.
  intros (Hn & Hs & Hr). pose proof (conj Hn (conj Hs Hr)) as Hsame.
  destruct e; simpl.
  - destruct (gameLoop s); [| exact Hsame].
    destruct (tick (game s)) as [g b] eqn:E.
    assert (Eg : g = (tick (game s)).1) by now rewrite E.
    simpl. subst g. split.
    + intros t. destruct (ft_tick_paddle (game s) t) as [-> | (Eu & Ed & Ey)];
        [apply Hn |].
      apply (clamped_paddle_sound (paddleOf t (game s))); auto. apply Hn.
    + unfold tick. destruct (negb _); [now split |].
      now apply ft_scoreDetection_speed.
  - destruct (pendingResets s); [exact Hsame |].
    simpl. split; [intros []; now apply centred_paddle_sound | now split].
  - split; [intros t; apply (Hn t) | now split].
  - unfold playerInput. destruct (players (game s) !! id) as [pl |]; [| exact Hsame].
    split; [| now destruct (team pl)].
    intros t. pose proof (Hn t) as Ht.
    destruct (team pl), t; simpl in *; auto with paddles.
  - unfold playerRelease. destruct (players (game s) !! id) as [pl |]; [| exact Hsame].
    destruct (negb _); [exact Hsame |].
    split; [| now destruct (team pl)].
    intros t. pose proof (Hn t) as Ht.
    destruct (team pl), t; simpl in *; auto with paddles.
  - unfold disconnect. destruct (players (game s) !! id) as [pl |]; [| exact Hsame].
    split; [| now destruct (team pl)].
    intros t. pose proof (Hn t) as Ht.
    destruct (team pl), t; simpl in *; auto with paddles.
  - destruct (_ || _); [| exact Hsame].
    split; [intros []; now apply centred_paddle_sound
           | split; [reflexivity | simpl; lia]].
  - destruct (status_eqb _ _); exact Hsame.
  - destruct (status_eqb _ _); exact Hsame.
  - split; [intros []; now apply centred_paddle_sound
           | split; [reflexivity | simpl; lia]].
  - split; [| now split].
    intros t. destruct (Hn t) as [_ Hy]. split; [| now destruct t].
    destruct t; split; simpl; lia.
Qed.

(** Every state of every run of the process is sound. *)
Lemma ft_reachable_sound evs rnd : sound (game (run evs (boot rnd))).
Proof.
  assert (H : forall s, sound (game s) -> sound (game (run evs s))).
  { induction evs as [| e evs IH]; intros s Hs; [exact Hs |].
    simpl. apply IH. now apply ft_step_sound. }
  apply H. split; [intros []; now apply centred_paddle_sound
                  | split; [reflexivity | simpl; lia]].
Qed.
End FixedTeamFacts.

(** ** Facts about the ball-tracking server *)

Section BallTrackingFacts.
Import BallTracking.

(** *** The handlers, field by field *)

Lemma bt_playerInput_absent id direction t1 t2 g :
  players g !! id = None -> playerInput id direction t1 t2 g = g.
Proof. intros H. unfold playerInput. now rewrite H. Qed.

Lemma bt_playerInput_players id direction t1 t2 g pl :
  players g !! id = Some pl ->
  players (playerInput id direction t1 t2 g)
  = <[id := mkPlayer (number pl) direction (Some t1)]> (players g).
Proof. intros H. unfold playerInput. now rewrite H. Qed.

Lemma bt_playerInput_paddle id direction t1 t2 g pl t :
  players g !! id = Some pl ->
  paddleOf t (playerInput id direction t1 t2 g)
  = addVote direction (retractVote (lastInput pl) (paddleOf t g)).
Proof. intros H. unfold playerInput. rewrite H. now destruct t. Qed.

Lemma bt_playerInput_log id direction t1 t2 g pl :
  players g !! id = Some pl ->
  recentInputs (playerInput id direction t1 t2 g)
  = logInput (maxRecentInputs g)
      (mkEntry (number pl) direction t2) (recentInputs g).
Proof. intros H. unfold playerInput. now rewrite H. Qed.

Lemma bt_playerRelease_idle id g pl :
  players g !! id = Some pl -> truthy (lastInput pl) = false ->
  playerRelease id g = g.
Proof. intros H Ht. unfold playerRelease. now rewrite H, Ht. Qed.

Lemma bt_playerRelease_players id g pl :
  players g !! id = Some pl -> truthy (lastInput pl) = true ->
  players (playerRelease id g)
  = <[id := mkPlayer (number pl) JNull (inputTime pl)]> (players g).
Proof. intros H Ht. unfold playerRelease. now rewrite H, Ht. Qed.

Lemma bt_playerRelease_paddle id g pl t :
  players g !! id = Some pl -> truthy (lastInput pl) = true ->
  paddleOf t (playerRelease id g) = retractVote (lastInput pl) (paddleOf t g).
Proof. intros H Ht. unfold playerRelease. rewrite H, Ht. now destruct t. Qed.

Lemma bt_disconnect_players id g pl :
  players g !! id = Some pl ->
  players (disconnect id g) = delete id (players g).
Proof. intros H. unfold disconnect. now rewrite H. Qed.

Lemma bt_disconnect_paddle id g pl t :
  players g !! id = Some pl ->
  paddleOf t (disconnect id g) = retractVote (lastInput pl) (paddleOf t g).
Proof. intros H. unfold disconnect. rewrite H. now destruct t. Qed.

(** *** The ledger invariant *)

Lemma bt_holders_replace ps id pl pl' d :
  ps !! id = Some pl ->
  (holders d (<[id:=pl']> ps) + b2n (votesFor d pl)
   = holders d ps + b2n (votesFor d pl'))%nat
  /\ (b2n (votesFor d pl) <= holders d ps)%nat.
Proof.
  intros Hid. unfold holders. split; [now apply count_insert |].
  rewrite <- (count_delete _ _ _ _ Hid). lia.
Qed.

Lemma bt_holders_remove ps id pl d :
  ps !! id = Some pl ->
  (holders d (delete id ps) + b2n (votesFor d pl))%nat = holders d ps.
Proof. intros Hid. unfold holders. now apply count_delete. Qed.

Lemma bt_initial_consistent rnd : ledgerConsistent (initialState rnd).
Proof. intros []; simpl; unfold holders; now rewrite count_empty. Qed.

Lemma bt_playerJoin_consistent id g :
  players g !! id = None -> ledgerConsistent g -> ledgerConsistent (playerJoin id g).
Proof.
  intros Hid Hg t. destruct (Hg t) as [Hu Hd].
  unfold playerJoin, holders in *. simpl.
  rewrite !count_insert_fresh by exact Hid.
  unfold votesFor; simpl. rewrite !Nat.add_0_r.
  destruct t; simpl in *; auto.
Qed.

Lemma bt_playerInput_consistent id direction t1 t2 g :
  ledgerConsistent g -> ledgerConsistent (playerInput id direction t1 t2 g).
Proof.
  intros Hg t.
  destruct (players g !! id) as [pl |] eqn:Hid;
    [| rewrite bt_playerInput_absent by exact Hid; apply Hg].
  destruct (Hg t) as [Hu Hd].
  rewrite (bt_playerInput_players _ _ _ _ _ _ Hid),
    (bt_playerInput_paddle _ _ _ _ _ _ t Hid).
  set (pl' := mkPlayer _ _ _).
  destruct (bt_holders_replace _ _ _ pl' "up" Hid) as [Cu Bu].
  destruct (bt_holders_replace _ _ _ pl' "down" Hid) as [Cd Bd].
  unfold votesFor in Cu, Bu, Cd, Bd; simpl in Cu, Cd.
  rewrite addVote_up, addVote_down, retractVote_up, retractVote_down.
  split; eapply tally_replace; eassumption.
Qed.

Lemma bt_playerRelease_consistent id g :
  ledgerConsistent g -> ledgerConsistent (playerRelease id g).
Proof.
  intros Hg t.
  destruct (players g !! id) as [pl |] eqn:Hid;
    [| unfold playerRelease; rewrite Hid; apply Hg].
  destruct (truthy (lastInput pl)) eqn:Ht;
    [| rewrite (bt_playerRelease_idle _ _ _ Hid Ht); apply Hg].
  destruct (Hg t) as [Hu Hd].
  rewrite (bt_playerRelease_players _ _ _ Hid Ht),
    (bt_playerRelease_paddle _ _ _ t Hid Ht).
  set (pl' := mkPlayer _ _ _).
  destruct (bt_holders_replace _ _ _ pl' "up" Hid) as [Cu _].
  destruct (bt_holders_replace _ _ _ pl' "down" Hid) as [Cd _].
  unfold votesFor in Cu, Cd; simpl in Cu, Cd.
  rewrite retractVote_up, retractVote_down.
  split; eapply tally_retract; try eassumption; lia.
Qed.

Lemma bt_disconnect_consistent id g :
  ledgerConsistent g -> ledgerConsistent (disconnect id g).
Proof.
  intros Hg t.
  destruct (players g !! id) as [pl |] eqn:Hid;
    [| unfold disconnect; rewrite Hid; apply Hg].
  destruct (Hg t) as [Hu Hd].
  rewrite (bt_disconnect_players _ _ _ Hid), (bt_disconnect_paddle _ _ _ t Hid).
  pose proof (bt_holders_remove _ _ _ "up" Hid) as Du.
  pose proof (bt_holders_remove _ _ _ "down" Hid) as Dd.
  unfold votesFor in Du, Dd.
  rewrite retractVote_up, retractVote_down.
  split; eapply tally_retract; eassumption.
Qed.

(** *** The history and the state *)

Lemma bt_present_mentioned id past :
  present id past = true -> id ∈ sockets past.
Proof.
  intros H. apply elem_of_remove_dups, list_elem_of_omap.
  induction past as [| e past IH]; [discriminate |].
  destruct e; cbn [present] in H;
    try (destruct (IH H) as (e' & He' & Hs); exists e'; split; [now right | exact Hs]).
  - destruct (String.eqb id0 id) eqn:E.
    + apply String.eqb_eq in E. subst id0.
      exists (PlayerJoin id). split; [left | reflexivity].
    + destruct (IH H) as (e' & He' & Hs). exists e'. split; [now right | exact Hs].
  - destruct (String.eqb id0 id) eqn:E; [discriminate |].
    destruct (IH H) as (e' & He' & Hs). exists e'. split; [now right | exact Hs].
Qed.

Lemma bt_holds_present id d past :
  holds id d past = true -> present id past = true.
Proof.
  induction past as [| e past IH]; [discriminate |].
  destruct e; cbn [holds present]; try exact IH;
    destruct (String.eqb id0 id); try discriminate; try exact IH.
  intros H. now apply andb_true_iff in H as [_ H].
Qed.

Lemma bt_initial_tracks rnd : tracks [] (initialState rnd).
Proof. intros id. cbn [players initialState]. now rewrite lookup_empty. Qed.

(** One ledger event keeps the state in step with the history. *)
Lemma bt_step_tracks e past s :
  ledgerHistory (e :: past) = true -> tracks past (game s) ->
  tracks (e :: past) (game (step e s)).
Proof.
  intros Hh Hg. cbn [ledgerHistory] in Hh.
  apply andb_true_iff in Hh as [He _].
  destruct e as [| | i | i v t1 t2 | i | i | | | | |]; try discriminate;
    cbn [step game set_game]; intros id; cbn [present holds].
  - (* join *)
    cbn [playerJoin players set_players set_nextPlayerNumber].
    destruct (decide (i = id)) as [-> | Hne].
    + rewrite lookup_insert_eq, String.eqb_refl. cbn [lastInput].
      split; reflexivity.
    + rewrite lookup_insert_ne by exact Hne.
      assert (E : String.eqb i id = false) by (now apply String.eqb_neq).
      rewrite E. exact (Hg id).
  - (* input *)
    destruct (players (game s) !! i) as [pl |] eqn:Hi.
    + rewrite (bt_playerInput_players _ _ _ _ _ _ Hi).
      destruct (decide (i = id)) as [-> | Hne].
      * rewrite lookup_insert_eq, String.eqb_refl. cbn [lastInput].
        specialize (Hg id). rewrite Hi in Hg. destruct Hg as (Hp & _).
        split; [exact Hp |].
        intros d _. rewrite Hp. now rewrite andb_true_r.
      * rewrite lookup_insert_ne by exact Hne.
        assert (E : String.eqb i id = false) by (now apply String.eqb_neq).
        rewrite E. exact (Hg id).
    + rewrite (bt_playerInput_absent _ _ _ _ _ Hi).
      destruct (decide (i = id)) as [-> | Hne].
      * rewrite Hi. specialize (Hg id). now rewrite Hi in Hg.
      * assert (E : String.eqb i id = false) by (now apply String.eqb_neq).
        rewrite E. exact (Hg id).
  - (* release *)
    destruct (decide (i = id)) as [-> | Hne].
    + rewrite String.eqb_refl. specialize (Hg id).
      destruct (players (game s) !! id) as [pl |] eqn:Hi.
      * destruct Hg as (Hp & Hd).
        destruct (truthy (lastInput pl)) eqn:Etr.
        -- rewrite (bt_playerRelease_players _ _ _ Hi Etr), lookup_insert_eq.
           cbn [lastInput]. now split.
        -- rewrite (bt_playerRelease_idle _ _ _ Hi Etr), Hi.
           split; [exact Hp |].
           intros d Hne. now apply falsy_no_direction.
      * unfold playerRelease. now rewrite Hi, Hi.
    + assert (E : String.eqb i id = false) by (now apply String.eqb_neq).
      rewrite E.
      assert (Hsame : players (playerRelease i (game s)) !! id = players (game s) !! id).
      { destruct (players (game s) !! i) as [pl |] eqn:Hi.
        - destruct (truthy (lastInput pl)) eqn:Etr.
          + rewrite (bt_playerRelease_players _ _ _ Hi Etr).
            now apply lookup_insert_ne.
          + now rewrite (bt_playerRelease_idle _ _ _ Hi Etr).
        - unfold playerRelease. now rewrite Hi. }
      rewrite Hsame. exact (Hg id).
  - (* disconnect *)
    destruct (decide (i = id)) as [-> | Hne].
    + rewrite String.eqb_refl.
      destruct (players (game s) !! id) as [pl |] eqn:Hi.
      * now rewrite (bt_disconnect_players _ _ _ Hi), lookup_delete_eq.
      * unfold disconnect. now rewrite Hi, Hi.
    + assert (E : String.eqb i id = false) by (now apply String.eqb_neq).
      rewrite E.
      assert (Hsame : players (disconnect i (game s)) !! id = players (game s) !! id).
      { destruct (players (game s) !! i) as [pl |] eqn:Hi.
        - rewrite (bt_disconnect_players _ _ _ Hi). now apply lookup_delete_ne.
        - unfold disconnect. now rewrite Hi. }
      rewrite Hsame. exact (Hg id).
Qed.

Lemma bt_step_ledger e past s :
  ledgerHistory (e :: past) = true -> tracks past (game s) ->
  ledgerConsistent (game s) -> ledgerConsistent (game (step e s)).
Proof.
  intros Hh Hg Hc. cbn [ledgerHistory] in Hh.
  apply andb_true_iff in Hh as [He _].
  destruct e as [| | i | i v t1 t2 | i | i | | | | |]; try discriminate;
    cbn [step game set_game].
  - apply bt_playerJoin_consistent; [| exact Hc].
    apply negb_true_iff in He. specialize (Hg i).
    destruct (players (game s) !! i); [| reflexivity].
    destruct Hg as [Hp _]. congruence.
  - now apply bt_playerInput_consistent.
  - now apply bt_playerRelease_consistent.
  - now apply bt_disconnect_consistent.
Qed.

(** Along a ledger history the state stays in step with the history and
    the tallies with the players. *)
Lemma bt_history_tracks rnd evs :
  ledgerHistory (rev evs) = true ->
  tracks (rev evs) (game (run evs (boot rnd))) /\
  ledgerConsistent (game (run evs (boot rnd))).
Proof.
  induction evs as [| e evs IH] using rev_ind; intros Hh.
  - split; [apply bt_initial_tracks | apply bt_initial_consistent].
  - rewrite rev_app_distr in Hh |- *. cbn [rev app] in Hh |- *.
    unfold run. rewrite fold_left_app. cbn [fold_left]. fold (run evs (boot rnd)).
    assert (Hpast : ledgerHistory (rev evs) = true).
    { cbn [ledgerHistory] in Hh. now apply andb_true_iff in Hh as [_ Hh]. }
    destruct (IH Hpast) as [Ht Hc].
    split; [now apply bt_step_tracks | now apply (bt_step_ledger e (rev evs))].
Qed.

(** The holders of a vote in the players map are the voters of the
    history. *)
Lemma bt_holders_voters past g d :
  tracks past g -> d <> EmptyString ->
  holders d (players g) = voters d past.
Proof.
  intros Hg Hd. unfold holders, voters.
  apply count_by_list; [apply NoDup_remove_dups |].
  intros id. specialize (Hg id). split.
  - intros (pl & Hpl & Hv). rewrite Hpl in Hg.
    destruct Hg as (Hp & Hl).
    unfold votesFor in Hv.
    split; [now apply bt_present_mentioned |].
    now rewrite <- (Hl d Hd).
  - intros [_ Hh].
    pose proof (bt_holds_present _ _ _ Hh) as Hp.
    destruct (players g !! id) as [pl |]; [| congruence].
    destruct Hg as (_ & Hl).
    exists pl. split; [reflexivity |].
    unfold votesFor. now rewrite (Hl d Hd).
Qed.

(** *** The tick *)

Lemma bt_tick_idle g : status g <> playing -> tick g = (g, false).
Proof.
  intros H. unfold tick.
  destruct (status_eqb (status g) playing) eqn:E; [| reflexivity].
  now apply status_eqb_eq in E.
Qed.

Lemma bt_tick_playing g : status g = playing -> tick g = scoreDetection (advance g).
Proof. intros H. unfold tick. now rewrite H. Qed.

Lemma bt_movePaddles_frame g :
  ball (movePaddles g) = ball g /\ score (movePaddles g) = score g /\
  ballSpeed (movePaddles g) = ballSpeed g /\
  activePaddle (movePaddles g) = activePaddle g /\
  (forall t, Paddle.upVotes (paddleOf t (movePaddles g)) = Paddle.upVotes (paddleOf t g) /\
             Paddle.downVotes (paddleOf t (movePaddles g))
             = Paddle.downVotes (paddleOf t g)).
Proof.
  unfold movePaddles.
  destruct (activePaddle g) eqn:E; (split; [| split; [| split; [| split]]]);
    try reflexivity; try exact E; intros []; split; reflexivity.
Qed.

Lemma bt_advance_x g :
  Ball.x (ball (advance g)) = Ball.x (ball g) + Ball.vx (ball g).
Proof.
  unfold advance, collisions. cbn [ball set_ball].
  rewrite paddleCollisions_x, wallCollision_x.
  change (Ball.x (ball (moveBall ?h))) with (Ball.x (ball h) + Ball.vx (ball h)).
  change (ball (clampPaddles ?h)) with (ball h).
  now destruct (bt_movePaddles_frame (trackBall g)) as (-> & _).
Qed.

Lemma bt_scoreDetection_ball g : ball (scoreDetection g).1 = ball g.
Proof.
  unfold scoreDetection. destruct (scoringSide (ball g)); [| reflexivity].
  now destruct (hasWinner _).
Qed.

Lemma bt_scoreDetection_paddles g t :
  paddleOf t (scoreDetection g).1 = paddleOf t g.
Proof.
  unfold scoreDetection. destruct (scoringSide (ball g)); [| reflexivity].
  destruct (hasWinner _); now destruct t.
Qed.

Lemma bt_scoreDetection_active g :
  activePaddle (scoreDetection g).1 = activePaddle g.
Proof.
  unfold scoreDetection. destruct (scoringSide (ball g)); [| reflexivity].
  now destruct (hasWinner _).
Qed.

Lemma bt_scoreDetection_some g s :
  scoringSide (ball g) = Some s ->
  score (scoreDetection g).1 = addPoint s (score g) /\
  (scoreDetection g).2 = negb (hasWinner (addPoint s (score g))) /\
  status (scoreDetection g).1
  = if hasWinner (addPoint s (score g)) then finished else status g.
Proof.
  intros H. unfold scoreDetection. rewrite H. cbn [score set_score].
  now destruct (hasWinner _).
Qed.

Lemma bt_scoreDetection_none g :
  scoringSide (ball g) = None -> scoreDetection g = (g, false).
Proof. intros H. unfold scoreDetection. now rewrite H. Qed.

Lemma bt_advance_score g : score (advance g) = score g.
Proof.
  change (score (advance g)) with (score (movePaddles (trackBall g))).
  now destruct (bt_movePaddles_frame (trackBall g)) as (_ & -> & _).
Qed.

Lemma bt_advance_speed g : ballSpeed (advance g) = ballSpeed g.
Proof.
  change (ballSpeed (advance g)) with (ballSpeed (movePaddles (trackBall g))).
  now destruct (bt_movePaddles_frame (trackBall g)) as (_ & _ & -> & _).
Qed.

Lemma bt_advance_active g :
  activePaddle (advance g)
  = if Qlt_bool (Ball.x (ball g)) (CANVAS_WIDTH / 2) then sideLeft else sideRight.
Proof.
  change (activePaddle (advance g)) with (activePaddle (movePaddles (trackBall g))).
  now destruct (bt_movePaddles_frame (trackBall g)) as (_ & _ & _ & -> & _).
Qed.

Lemma bt_advance_tallies g t :
  Paddle.upVotes (paddleOf t (advance g)) = Paddle.upVotes (paddleOf t g) /\
  Paddle.downVotes (paddleOf t (advance g)) = Paddle.downVotes (paddleOf t g).
Proof.
  destruct (bt_movePaddles_frame (trackBall g)) as (_ & _ & _ & _ & H).
  destruct (H t) as [Hu Hd].
  split; [transitivity (Paddle.upVotes (paddleOf t (movePaddles (trackBall g))))
         | transitivity (Paddle.downVotes (paddleOf t (movePaddles (trackBall g))))];
    now destruct t.
Qed.

(** The paddle on the ball's side gets its vote displacement, the other
    one is eased; both are clamped. *)
Lemma bt_advance_paddle g t :
  Paddle.y (paddleOf t (advance g))
  = clamp (CANVAS_HEIGHT - PADDLE_HEIGHT)
      (if side_eqb (activePaddle (advance g)) t
       then Paddle.y (paddleOf t g)
            + calculatePaddleMovement PADDLE_SPEED (paddleOf t g)
       else Paddle.y (paddleOf t g)
            + (centerY - Paddle.y (paddleOf t g)) * 0.02).
Proof.
  rewrite bt_advance_active.
  assert (H : Paddle.y (paddleOf t (advance g))
              = clamp (CANVAS_HEIGHT - PADDLE_HEIGHT)
                  (Paddle.y (paddleOf t (movePaddles (trackBall g)))))
    by now destruct t.
  rewrite H. unfold movePaddles, trackBall. cbn [activePaddle set_activePaddle].
  destruct (Qlt_bool _ _); now destruct t.
Qed.

(** *** The process *)

Lemma bt_step_frozen e s :
  status (game s) = finished -> pendingResets s = 0%nat -> keepsMatch e = true ->
  status (game (step e s)) = finished /\ pendingResets (step e s) = 0%nat /\
  positions (game (step e s)) = positions (game s).
Proof.
  intros Hst Hp He. unfold positions.
  destruct e; try discriminate He; simpl.
  - destruct (gameLoop s); [| auto].
    rewrite bt_tick_idle by (rewrite Hst; discriminate). simpl. auto.
  - rewrite Hp. auto.
  - auto.
  - unfold playerInput.
    destruct (players (game s) !! id) as [pl |]; [| auto].
    simpl; rewrite ?addVote_y, ?retractVote_y; auto.
  - unfold playerRelease.
    destruct (players (game s) !! id) as [pl |]; [| auto].
    destruct (truthy (lastInput pl)); simpl; [| auto].
    rewrite ?retractVote_y; auto.
  - unfold disconnect.
    destruct (players (game s) !! id) as [pl |]; [| auto].
    simpl; rewrite ?retractVote_y; auto.
  - rewrite Hst. simpl. auto.
  - rewrite Hst. simpl. auto.
  - auto.
Qed.

Lemma bt_run_frozen evs s :
  status (game s) = finished -> pendingResets s = 0%nat ->
  forallb keepsMatch evs = true ->
  status (game (run evs s)) = finished /\
  positions (game (run evs s)) = positions (game s).
Proof.
  revert s. induction evs as [| e evs IH]; intros s Hst Hp Hevs; [auto |].
  simpl in Hevs. apply andb_true_iff in Hevs as [He Hevs].
  destruct (bt_step_frozen e s Hst Hp He) as (Hst' & Hp' & Hpos).
  destruct (IH _ Hst' Hp' Hevs) as [H1 H2].
  simpl. split; [exact H1 | now rewrite H2].
Qed.

Lemma bt_pending_step e s :
  pendingResets (step e s)
  = match e with
    | IntervalTick =>
        if gameLoop s && (tick (game s)).2
        then S (pendingResets s) else pendingResets s
    | TimeoutFire _ => Nat.pred (pendingResets s)
    | _ => pendingResets s
    end.
Proof.
  destruct e; simpl; try reflexivity.
  - destruct (gameLoop s); [| reflexivity]. now destruct (tick (game s)) as [g []].
  - destruct (pendingResets s) eqn:E; simpl; congruence.
  - now destruct (_ || _).
  - now destruct (status_eqb _ _).
  - now destruct (status_eqb _ _).
Qed.

Lemma bt_tick_schedules g :
  (tick g).2 = true
  <-> status g = playing /\
      exists s, scoringSide (ball (advance g)) = Some s /\
                hasWinner (addPoint s (score g)) = false.
Proof.
  split.
  - intros H. destruct (status_eqb (status g) playing) eqn:E.
    + apply status_eqb_eq in E. split; [exact E |].
      rewrite (bt_tick_playing _ E) in H.
      destruct (scoringSide (ball (advance g))) as [s |] eqn:Es.
      * exists s. split; [reflexivity |].
        destruct (bt_scoreDetection_some _ _ Es) as (_ & H2 & _).
        rewrite H2, bt_advance_score in H. now apply negb_true_iff in H.
      * rewrite (bt_scoreDetection_none _ Es) in H. discriminate H.
    + unfold tick in H. rewrite E in H. discriminate H.
  - intros [Hst (s & Es & Hw)]. rewrite (bt_tick_playing _ Hst).
    destruct (bt_scoreDetection_some _ _ Es) as (_ & H2 & _).
    rewrite H2, bt_advance_score. now rewrite Hw.
Qed.

(** *** Every state of a run is sound *)

Lemma bt_tick_paddle g t :
  paddleOf t (tick g).1 = paddleOf t g \/
  (Paddle.upVotes (paddleOf t (tick g).1) = Paddle.upVotes (paddleOf t g) /\
   Paddle.downVotes (paddleOf t (tick g).1) = Paddle.downVotes (paddleOf t g) /\
   exists v, Paddle.y (paddleOf t (tick g).1) = clamp (CANVAS_HEIGHT - PADDLE_HEIGHT) v).
Proof.
  unfold tick. destruct (negb _); [now left | right].
  rewrite bt_scoreDetection_paddles.
  destruct (bt_advance_tallies g t) as [Hu Hd].
  split; [exact Hu | split; [exact Hd |]].
  eexists. apply bt_advance_paddle.
Qed.

Lemma bt_tick_speed g : ballSpeed (tick g).1 = ballSpeed g.
Proof.
  unfold tick. destruct (negb _); [reflexivity |].
  rewrite <- (bt_advance_speed g). unfold scoreDetection.
  destruct (scoringSide _); [| reflexivity].
  destruct (hasWinner _); reflexivity.
Qed.

Lemma bt_step_sound e s : sound (game s) -> sound (game (step e s)).
Proof.
  intros (Hn & Hs). pose proof (conj Hn Hs) as Hsame.
  destruct e; simpl.
  - destruct (gameLoop s); [| exact Hsame].
    destruct (tick (game s)) as [g b] eqn:E.
    assert (Eg : g = (tick (game s)).1) by now rewrite E.
    simpl. subst g. split.
    + intros t. destruct (bt_tick_paddle (game s) t) as [-> | (Eu & Ed & Ey)];
        [apply Hn |].
      apply (clamped_paddle_sound (paddleOf t (game s))); auto. apply Hn.
    + now rewrite bt_tick_speed.
  - destruct (pendingResets s); [exact Hsame |].
    simpl. split; [intros []; now apply centred_paddle_sound | exact Hs].
  - split; [intros t; apply (Hn t) | exact Hs].
  - unfold playerInput. destruct (players (game s) !! id) as [pl |]; [| exact Hsame].
    split; [| exact Hs].
    intros t. pose proof (Hn t) as Ht.
    destruct t; cbn in *; auto with paddles.
  - unfold playerRelease. destruct (players (game s) !! id) as [pl |]; [| exact Hsame].
    destruct (negb _); [exact Hsame |].
    split; [| exact Hs].
    intros t. pose proof (Hn t) as Ht.
    destruct t; cbn in *; auto with paddles.
  - unfold disconnect. destruct (players (game s) !! id) as [pl |]; [| exact Hsame].
    split; [| exact Hs].
    intros t. pose proof (Hn t) as Ht.
    destruct t; cbn in *; auto with paddles.
  - destruct (_ || _); [| exact Hsame].
    split; [intros []; now apply centred_paddle_sound | reflexivity].
  - destruct (status_eqb _ _); exact Hsame.
  - destruct (status_eqb _ _); exact Hsame.
  - split; [intros []; now apply centred_paddle_sound | reflexivity].
  - split; [| exact Hs].
    intros t. destruct (Hn t) as [_ Hy]. split; [| now destruct t].
    destruct t; split; simpl; lia.
Qed.

(** Every state of every run of the process is sound. *)
Lemma bt_reachable_sound evs rnd : sound (game (run evs (boot rnd))).
Proof.
  assert (H : forall s, sound (game s) -> sound (game (run evs s))).
  { induction evs as [| e evs IH]; intros s Hs; [exact Hs |].
    simpl. apply IH. now apply bt_step_sound. }
  apply H. split; [intros []; now apply centred_paddle_sound | reflexivity].
Qed.
End BallTrackingFacts.

(** * The claims *)

(** ** C1: the side of the serve after a goal *)

(** C1, as amended. The round reset serves the ball toward the side that
    leads: to the left when the left score is the greater one, to the right
    when the right score is the greater one, and to the right when the
    scores are level.  This holds in both servers, for every score pair.
    (The ball speed is positive in every state of a run:
    [ft_reachable_sound], [bt_reachable_sound].) *)
Theorem serve_goes_toward_the_leader
    (rnd : Q) (g : FixedTeam.gameState) (g' : BallTracking.gameState) :
  0 < FixedTeam.ballSpeed g ->
  0 < BallTracking.ballSpeed g' ->
  let served := FixedTeam.ball (FixedTeam.resetRound rnd g) in
  let served' := BallTracking.ball (BallTracking.resetRound rnd g') in
  (((Score.right (FixedTeam.score g) < Score.left (FixedTeam.score g))%Z ->
    movesLeft served) /\
   ((Score.left (FixedTeam.score g) < Score.right (FixedTeam.score g))%Z ->
    movesRight served) /\
   (Score.left (FixedTeam.score g) = Score.right (FixedTeam.score g) ->
    movesRight served)) /\
  (((Score.right (BallTracking.score g') < Score.left (BallTracking.score g'))%Z ->
    movesLeft served') /\
   ((Score.left (BallTracking.score g') < Score.right (BallTracking.score g'))%Z ->
    movesRight served') /\
   (Score.left (BallTracking.score g') = Score.right (BallTracking.score g') ->
    movesRight served')).
Proof.
  intros Hs Hs' served served'.
  assert (Hl : forall speed sc, 0 < speed -> (Score.right sc < Score.left sc)%Z ->
                 movesLeft (servedBall speed (lastScorer sc) rnd)).
  { intros speed sc Hp H. unfold movesLeft. rewrite servedBall_vx.
    rewrite lastScorer_left_leads by exact H. lra. }
  assert (Hr : forall speed sc, 0 < speed -> (Score.left sc <= Score.right sc)%Z ->
                 movesRight (servedBall speed (lastScorer sc) rnd)).
  { intros speed sc Hp H. unfold movesRight. rewrite servedBall_vx.
    rewrite lastScorer_otherwise by exact H. lra. }
  split; (split; [| split]); intros H.
  - apply (Hl _ (FixedTeam.score g) Hs H).
  - apply (Hr _ (FixedTeam.score g) Hs). lia.
  - apply (Hr _ (FixedTeam.score g) Hs). lia.
  - apply (Hl _ (BallTracking.score g') Hs' H).
  - apply (Hr _ (BallTracking.score g') Hs'). lia.
  - apply (Hr _ (BallTracking.score g') Hs'). lia.
Qed.

(** The leader gets the serve in matches of both servers.  In [server.js]
    the match of [firstGoalRun] stands 1-0 after its 120th tick and the
    round reset serves to the left; in the mirrored match (the ball served
    to the left, player ["b"] of the left team holding up) it stands 0-1
    after 120 ticks and the round reset serves to the right.  The same in
    the ball-tracking server, one tick after [beforeFirstGoal] (1-0) and
    one tick after the same state with the ball put at the left goal line
    (0-1).  At 0-0, where both servers start, the serve goes to the right. *)
Lemma serve_goes_toward_the_leader_witness :
  let g := FixedTeam.game
             (FixedTeam.step FixedTeam.IntervalTick FixedTeam.beforeFirstGoal) in
  let h := FixedTeam.game
             (FixedTeam.run
                ([FixedTeam.AdminStart 0 0 0; FixedTeam.PlayerJoin "a";
                  FixedTeam.PlayerJoin "b"; FixedTeam.PlayerInput "b" up 0 0]
                 ++ repeat FixedTeam.IntervalTick 120)
                (FixedTeam.boot 0)) in
  let g' := BallTracking.game
              (BallTracking.step BallTracking.IntervalTick
                 BallTracking.beforeFirstGoal) in
  let h' := BallTracking.game
              (BallTracking.step BallTracking.IntervalTick
                 (BallTracking.set_game
                    (BallTracking.set_ball
                       {| Ball.x := 2; Ball.y := 100; Ball.vx := -3; Ball.vy := 0 |}
                       (BallTracking.game BallTracking.beforeFirstGoal))
                    BallTracking.beforeFirstGoal)) in
  (FixedTeam.score g = {| Score.left := 1; Score.right := 0 |} /\
   movesLeft (FixedTeam.ball (FixedTeam.resetRound 0 g))) /\
  (FixedTeam.score h = {| Score.left := 0; Score.right := 1 |} /\
   movesRight (FixedTeam.ball (FixedTeam.resetRound 0 h))) /\
  (BallTracking.score g' = {| Score.left := 1; Score.right := 0 |} /\
   movesLeft (BallTracking.ball (BallTracking.resetRound 0 g'))) /\
  (BallTracking.score h' = {| Score.left := 0; Score.right := 1 |} /\
   movesRight (BallTracking.ball (BallTracking.resetRound 0 h'))) /\
  movesRight (FixedTeam.ball (FixedTeam.resetRound 0 (FixedTeam.initialState 0))) /\
  movesRight
    (BallTracking.ball (BallTracking.resetRound 0 (BallTracking.initialState 0))).
Proof.
  intros g h g' h'.
  assert (Hg : 0 < FixedTeam.ballSpeed g) by (vm_compute; reflexivity).
  assert (Hh : 0 < FixedTeam.ballSpeed h) by (vm_compute; reflexivity).
  assert (Hg' : 0 < BallTracking.ballSpeed g') by (vm_compute; reflexivity).
  assert (Hh' : 0 < BallTracking.ballSpeed h') by (vm_compute; reflexivity).
  assert (H0 : 0 < FixedTeam.ballSpeed (FixedTeam.initialState 0)) by reflexivity.
  assert (H0' : 0 < BallTracking.ballSpeed (BallTracking.initialState 0))
    by reflexivity.
  destruct (serve_goes_toward_the_leader 0 g g' Hg Hg') as [(A & _ & _) (A' & _ & _)].
  destruct (serve_goes_toward_the_leader 0 h h' Hh Hh') as [(_ & B & _) (_ & B' & _)].
  destruct (serve_goes_toward_the_leader 0 _ _ H0 H0') as [(_ & _ & C) (_ & _ & C')].
  split; [split; [vm_compute; reflexivity | apply A; vm_compute; reflexivity] |].
  split; [split; [vm_compute; reflexivity | apply B; vm_compute; reflexivity] |].
  split; [split; [vm_compute; reflexivity | apply A'; vm_compute; reflexivity] |].
  split; [split; [vm_compute; reflexivity | apply B'; vm_compute; reflexivity] |].
  split; [apply C | apply C']; reflexivity.
Defined.

(** C1, as stated, fails: with the left side leading 1-0, both below 7, the
    claim sends the serve to the right (the trailing side); the round reset
    of [server.js] sends it to the left. *)
Lemma serve_away_from_the_leader_counterexample :
  let g := FixedTeam.set_score {| Score.left := 1; Score.right := 0 |}
             (FixedTeam.initialState 0) in
  let served := FixedTeam.ball (FixedTeam.resetRound 0 g) in
  (Score.left (FixedTeam.score g) < WINNING_SCORE)%Z /\
  (Score.right (FixedTeam.score g) < WINNING_SCORE)%Z /\
  (Score.right (FixedTeam.score g) < Score.left (FixedTeam.score g))%Z /\
  movesLeft served /\ ~ movesRight served.
Proof.
  cbv zeta. repeat split; try reflexivity.
  unfold movesRight. vm_compute. discriminate.
Qed.

(** ** C2: deferred round resets that overlap *)

(** C2, as amended. No deferred round reset is ever cancelled or replaced.
    In both servers the number of outstanding callbacks changes only in two
    ways: a tick that scores without ending the match adds one to those
    already outstanding, and a callback that runs removes itself.  Every
    other event, the admin's start and reset included, leaves them all in
    place, and each of them, when it runs, performs [resetRound] on whatever
    the game state is by then. *)
Theorem deferred_resets_are_never_cancelled :
  (forall e s,
     FixedTeam.pendingResets (FixedTeam.step e s) = FixedTeam.pendingAfter e s) /\
  (forall g,
     (FixedTeam.tick g).2 = true <->
     FixedTeam.status g = playing /\
     exists sd, scoringSide (FixedTeam.ball (FixedTeam.advance g)) = Some sd /\
                hasWinner (addPoint sd (FixedTeam.score g)) = false) /\
  (forall r1 r2 r3 s,
     FixedTeam.pendingResets (FixedTeam.step (FixedTeam.AdminStart r1 r2 r3) s)
     = FixedTeam.pendingResets s /\
     FixedTeam.pendingResets (FixedTeam.step (FixedTeam.AdminReset r1 r2 r3) s)
     = FixedTeam.pendingResets s) /\
  (forall rnd s,
     FixedTeam.game (FixedTeam.step (FixedTeam.TimeoutFire rnd) s)
     = match FixedTeam.pendingResets s with
       | O => FixedTeam.game s
       | S _ => FixedTeam.resetRound rnd (FixedTeam.game s)
       end) /\
  (forall e s,
     BallTracking.pendingResets (BallTracking.step e s)
     = BallTracking.pendingAfter e s) /\
  (forall g,
     (BallTracking.tick g).2 = true <->
     BallTracking.status g = playing /\
     exists sd, scoringSide (BallTracking.ball (BallTracking.advance g)) = Some sd /\
                hasWinner (addPoint sd (BallTracking.score g)) = false) /\
  (forall r1 r2 r3 s,
     BallTracking.pendingResets
       (BallTracking.step (BallTracking.AdminStart r1 r2 r3) s)
     = BallTracking.pendingResets s /\
     BallTracking.pendingResets
       (BallTracking.step (BallTracking.AdminReset r1 r2 r3) s)
     = BallTracking.pendingResets s) /\
  (forall rnd s,
     BallTracking.game (BallTracking.step (BallTracking.TimeoutFire rnd) s)
     = match BallTracking.pendingResets s with
       | O => BallTracking.game s
       | S _ => BallTracking.resetRound rnd (BallTracking.game s)
       end).
Proof.
  split; [exact ft_pending_step |].
  split; [exact ft_tick_schedules |].
  split; [intros r1 r2 r3 s; now rewrite !ft_pending_step |].
  split; [intros rnd s; simpl; now destruct (FixedTeam.pendingResets s) |].
  split; [exact bt_pending_step |].
  split; [exact bt_tick_schedules |].
  split; [intros r1 r2 r3 s; now rewrite !bt_pending_step |].
  intros rnd s; simpl; now destruct (BallTracking.pendingResets s).
Qed.

(** C2, as stated, fails on [server.js].  In the match of [firstGoalRun] the
    120th and the 121st tick both find the ball beyond the goal line, and two
    round resets are outstanding after them.  And when the admin resets the
    game right after the first goal, the round reset of that goal is still
    outstanding; when it runs it serves the ball again, to the other side
    than the admin's reset had chosen. *)
Lemma deferred_resets_stack_counterexample :
  let s := FixedTeam.beforeFirstGoal in
  FixedTeam.pendingResets s = 0%nat /\
  FixedTeam.pendingResets
    (FixedTeam.run [FixedTeam.IntervalTick; FixedTeam.IntervalTick] s) = 2%nat /\
  let s' := FixedTeam.run [FixedTeam.IntervalTick; FixedTeam.AdminReset 0 0 0] s in
  FixedTeam.status (FixedTeam.game s') = waiting /\
  FixedTeam.pendingResets s' = 1%nat /\
  movesLeft (FixedTeam.ball (FixedTeam.game s')) /\
  movesRight
    (FixedTeam.ball (FixedTeam.game (FixedTeam.step (FixedTeam.TimeoutFire 0) s'))).
Proof. vm_compute. repeat split. Qed.

(** ** C3: an input whose direction is neither up nor down *)

(** C3, as amended. An input whose direction is neither ['up'] nor ['down']
    adds no vote to any tally, but it is not ignored: for a player of the
    ledger, the direction is recorded as the player's current input, the
    vote the player held is taken back from the tallies, and the input is
    logged in [recentInputs]. *)
Theorem malformed_input_is_recorded
    (id : string) (direction : jsval) (t1 t2 : Z)
    (g : FixedTeam.gameState) (pl : FixedTeam.player)
    (g' : BallTracking.gameState) (pl' : BallTracking.player) :
  strictEqStr direction "up" = false ->
  strictEqStr direction "down" = false ->
  FixedTeam.players g !! id = Some pl ->
  BallTracking.players g' !! id = Some pl' ->
  (let h := FixedTeam.playerInput id direction t1 t2 g in
   FixedTeam.players h !! id
   = Some (FixedTeam.mkPlayer (FixedTeam.number pl) (FixedTeam.team pl)
             direction (Some t1)) /\
   (forall t,
      FixedTeam.paddleOf t h
      = if side_eqb (FixedTeam.team pl) t
        then retractVote (FixedTeam.lastInput pl) (FixedTeam.paddleOf t g)
        else FixedTeam.paddleOf t g) /\
   FixedTeam.recentInputs h
   = logInput (FixedTeam.maxRecentInputs g)
       (FixedTeam.mkEntry (FixedTeam.number pl) direction (FixedTeam.team pl) t2)
       (FixedTeam.recentInputs g)) /\
  (let h' := BallTracking.playerInput id direction t1 t2 g' in
   BallTracking.players h' !! id
   = Some (BallTracking.mkPlayer (BallTracking.number pl') direction (Some t1)) /\
   (forall t,
      BallTracking.paddleOf t h'
      = retractVote (BallTracking.lastInput pl') (BallTracking.paddleOf t g')) /\
   BallTracking.recentInputs h'
   = logInput (BallTracking.maxRecentInputs g')
       (BallTracking.mkEntry (BallTracking.number pl') direction t2)
       (BallTracking.recentInputs g')).
Proof.
  intros Hu Hd Hid Hid'. split; cbv zeta.
  - rewrite (ft_playerInput_players _ _ _ _ _ _ Hid), lookup_insert_eq.
    split; [reflexivity | split].
    + intros t. rewrite (ft_playerInput_paddle _ _ _ _ _ _ t Hid).
      now rewrite (addVote_malformed _ _ Hu Hd).
    + apply (ft_playerInput_log _ _ _ _ _ _ Hid).
  - rewrite (bt_playerInput_players _ _ _ _ _ _ Hid'), lookup_insert_eq.
    split; [reflexivity | split].
    + intros t. rewrite (bt_playerInput_paddle _ _ _ _ _ _ t Hid').
      now rewrite (addVote_malformed _ _ Hu Hd).
    + apply (bt_playerInput_log _ _ _ _ _ _ Hid').
Qed.

(** Player ["a"] has joined either server and holds up, then sends the
    direction ['left']: the up tally of the paddle goes from 1 to 0. *)
Lemma malformed_input_is_recorded_witness :
  let g := FixedTeam.game
             (FixedTeam.run [FixedTeam.PlayerJoin "a"; FixedTeam.PlayerInput "a" up 0 0]
                (FixedTeam.boot 0)) in
  let g' := BallTracking.game
              (BallTracking.run
                 [BallTracking.PlayerJoin "a"; BallTracking.PlayerInput "a" up 0 0]
                 (BallTracking.boot 0)) in
  Paddle.upVotes (FixedTeam.rightPaddle g) = 1%Z /\
  Paddle.upVotes (FixedTeam.rightPaddle (FixedTeam.playerInput "a" (JStr "left") 1 1 g))
  = 0%Z /\
  Paddle.upVotes (BallTracking.rightPaddle g') = 1%Z /\
  Paddle.upVotes
    (BallTracking.rightPaddle (BallTracking.playerInput "a" (JStr "left") 1 1 g'))
  = 0%Z.
Proof.
  intros g g'.
  assert (Hid : FixedTeam.players g !! "a"
                = Some (FixedTeam.mkPlayer 1 sideRight up (Some 0%Z)))
    by (vm_compute; reflexivity).
  assert (Hid' : BallTracking.players g' !! "a"
                 = Some (BallTracking.mkPlayer 1 up (Some 0%Z)))
    by (vm_compute; reflexivity).
  destruct (malformed_input_is_recorded "a" (JStr "left") 1 1 g _ g' _
              eq_refl eq_refl Hid Hid') as [(_ & A & _) (_ & B & _)].
  split; [reflexivity | split; [| split; [reflexivity |]]].
  - change (FixedTeam.rightPaddle ?h) with (FixedTeam.paddleOf sideRight h).
    rewrite A. reflexivity.
  - change (BallTracking.rightPaddle ?h) with (BallTracking.paddleOf sideRight h).
    rewrite B. reflexivity.
Defined.

(** C3, as stated, fails on [server.js]: player ["a"] holds up and sends the
    direction ['left'].  The recorded direction, the up tally of the player's
    paddle and the log all change. *)
Lemma malformed_input_not_ignored_counterexample :
  let g := FixedTeam.game
             (FixedTeam.run [FixedTeam.PlayerJoin "a"; FixedTeam.PlayerInput "a" up 0 0]
                (FixedTeam.boot 0)) in
  let h := FixedTeam.playerInput "a" (JStr "left") 1 1 g in
  strictEqStr (JStr "left") "up" = false /\
  strictEqStr (JStr "left") "down" = false /\
  FixedTeam.lastInput <$> (FixedTeam.players g !! "a") = Some up /\
  FixedTeam.lastInput <$> (FixedTeam.players h !! "a") = Some (JStr "left") /\
  Paddle.upVotes (FixedTeam.rightPaddle g) = 1%Z /\
  Paddle.upVotes (FixedTeam.rightPaddle h) = 0%Z /\
  length (FixedTeam.recentInputs g) = 1%nat /\
  length (FixedTeam.recentInputs h) = 2%nat.
Proof. vm_compute. repeat split. Qed.

(** ** C4: the tallies count the players that hold a vote *)

(** C4. From the start of the process, after any sequence of joins (on
    sockets that have no player), inputs with any direction value, releases
    and disconnects, each tally of each paddle is the number of players the
    sequence itself says hold that direction on the paddle: the sockets
    whose latest callback is an input of the direction, sent while the
    socket had a player, counted on the paddle of the player's team in
    [server.js] and on both paddles in the ball-tracking server.  So
    [upVotes + downVotes] is the number of present players with a vote on
    the paddle, and no tally is negative.  The players that hold a
    direction in the players map are these same players. *)
Theorem tallies_count_the_holders
    (rnd : Q) (evs : list FixedTeam.event) (evs' : list BallTracking.event)
    (t : side) :
  FixedTeam.ledgerHistory (rev evs) = true ->
  BallTracking.ledgerHistory (rev evs') = true ->
  (let g := FixedTeam.game (FixedTeam.run evs (FixedTeam.boot rnd)) in
   let paddle := FixedTeam.paddleOf t g in
   let ups := FixedTeam.voters t "up" (rev evs) in
   let downs := FixedTeam.voters t "down" (rev evs) in
   Paddle.upVotes paddle = Z.of_nat ups /\
   Paddle.downVotes paddle = Z.of_nat downs /\
   (Paddle.upVotes paddle + Paddle.downVotes paddle)%Z = Z.of_nat (ups + downs) /\
   (0 <= Paddle.upVotes paddle)%Z /\ (0 <= Paddle.downVotes paddle)%Z /\
   ups = FixedTeam.holders t "up" (FixedTeam.players g) /\
   downs = FixedTeam.holders t "down" (FixedTeam.players g)) /\
  (let g := BallTracking.game (BallTracking.run evs' (BallTracking.boot rnd)) in
   let paddle := BallTracking.paddleOf t g in
   let ups := BallTracking.voters "up" (rev evs') in
   let downs := BallTracking.voters "down" (rev evs') in
   Paddle.upVotes paddle = Z.of_nat ups /\
   Paddle.downVotes paddle = Z.of_nat downs /\
   (Paddle.upVotes paddle + Paddle.downVotes paddle)%Z = Z.of_nat (ups + downs) /\
   (0 <= Paddle.upVotes paddle)%Z /\ (0 <= Paddle.downVotes paddle)%Z /\
   ups = BallTracking.holders "up" (BallTracking.players g) /\
   downs = BallTracking.holders "down" (BallTracking.players g)).
Proof.
  intros Hh Hh'. split; cbv zeta.
  - destruct (ft_history_tracks rnd evs Hh) as [Ht Hc].
    destruct (Hc t) as [Hu Hd].
    rewrite <- (ft_holders_voters _ _ t "up" Ht) by discriminate.
    rewrite <- (ft_holders_voters _ _ t "down" Ht) by discriminate.
    rewrite Hu, Hd. repeat split; lia.
  - destruct (bt_history_tracks rnd evs' Hh') as [Ht Hc].
    destruct (Hc t) as [Hu Hd].
    rewrite <- (bt_holders_voters _ _ "up" Ht) by discriminate.
    rewrite <- (bt_holders_voters _ _ "down" Ht) by discriminate.
    rewrite Hu, Hd. repeat split; lia.
Qed.

(** Four players join; ["a"], ["c"] and ["d"] vote up, ["a"] changes to down
    and releases, ["d"] disconnects and ["b"] votes down.  That leaves
    ["c"] (number 3, right team) on up and ["b"] (number 2, left team) on
    down: in [server.js] the right paddle has one up vote and the left
    paddle one down vote, in the ball-tracking server each paddle has
    both. *)
Lemma tallies_count_the_holders_witness :
  let evs := [FixedTeam.PlayerJoin "a"; FixedTeam.PlayerJoin "b";
              FixedTeam.PlayerJoin "c"; FixedTeam.PlayerJoin "d";
              FixedTeam.PlayerInput "a" up 1 1; FixedTeam.PlayerInput "c" up 2 2;
              FixedTeam.PlayerInput "d" up 3 3; FixedTeam.PlayerInput "a" down 4 4;
              FixedTeam.PlayerRelease "a"; FixedTeam.Disconnect "d";
              FixedTeam.PlayerInput "b" down 5 5] in
  let evs' := [BallTracking.PlayerJoin "a"; BallTracking.PlayerJoin "b";
               BallTracking.PlayerJoin "c"; BallTracking.PlayerJoin "d";
               BallTracking.PlayerInput "a" up 1 1; BallTracking.PlayerInput "c" up 2 2;
               BallTracking.PlayerInput "d" up 3 3; BallTracking.PlayerInput "a" down 4 4;
               BallTracking.PlayerRelease "a"; BallTracking.Disconnect "d";
               BallTracking.PlayerInput "b" down 5 5] in
  let g := FixedTeam.game (FixedTeam.run evs (FixedTeam.boot 0)) in
  let g' := BallTracking.game (BallTracking.run evs' (BallTracking.boot 0)) in
  FixedTeam.ledgerHistory (rev evs) = true /\
  BallTracking.ledgerHistory (rev evs') = true /\
  (Paddle.upVotes (FixedTeam.paddleOf sideRight g) = 1%Z /\
   Paddle.downVotes (FixedTeam.paddleOf sideRight g) = 0%Z) /\
  (Paddle.upVotes (FixedTeam.paddleOf sideLeft g) = 0%Z /\
   Paddle.downVotes (FixedTeam.paddleOf sideLeft g) = 1%Z) /\
  (Paddle.upVotes (BallTracking.paddleOf sideLeft g') = 1%Z /\
   Paddle.downVotes (BallTracking.paddleOf sideLeft g') = 1%Z) /\
  (Paddle.upVotes (BallTracking.paddleOf sideRight g') = 1%Z /\
   Paddle.downVotes (BallTracking.paddleOf sideRight g') = 1%Z).
Proof.
  intros evs evs' g g'. subst g g'.
  assert (H : FixedTeam.ledgerHistory (rev evs) = true) by (vm_compute; reflexivity).
  assert (H' : BallTracking.ledgerHistory (rev evs') = true)
    by (vm_compute; reflexivity).
  split; [exact H | split; [exact H' |]].
  destruct (tallies_count_the_holders 0 evs evs' sideRight H H')
    as [(A & B & _) (A' & B' & _)].
  destruct (tallies_count_the_holders 0 evs evs' sideLeft H H')
    as [(C & D & _) (C' & D' & _)].
  split; [split; [rewrite A | rewrite B]; vm_compute; reflexivity |].
  split; [split; [rewrite C | rewrite D]; vm_compute; reflexivity |].
  split; [split; [rewrite C' | rewrite D']; vm_compute; reflexivity |].
  split; [rewrite A' | rewrite B']; vm_compute; reflexivity.
Defined.

(** ** C5: the same vote twice *)

(** C5. In both servers, when a player sends the same direction (up or
    down) twice in a row, the second input leaves both paddles as the first
    one left them: the vote is counted once.  (The tallies are non-negative,
    as they are in every state of a run: [ft_reachable_sound],
    [bt_reachable_sound].) *)
Theorem second_same_vote_changes_no_tally
    (id : string) (d : jsval) (t1 t2 t3 t4 : Z)
    (g : FixedTeam.gameState) (g' : BallTracking.gameState) (t : side) :
  d = up \/ d = down ->
  (forall t, (0 <= Paddle.upVotes (FixedTeam.paddleOf t g))%Z /\
             (0 <= Paddle.downVotes (FixedTeam.paddleOf t g))%Z) ->
  (forall t, (0 <= Paddle.upVotes (BallTracking.paddleOf t g'))%Z /\
             (0 <= Paddle.downVotes (BallTracking.paddleOf t g'))%Z) ->
  FixedTeam.paddleOf t
    (FixedTeam.playerInput id d t3 t4 (FixedTeam.playerInput id d t1 t2 g))
  = FixedTeam.paddleOf t (FixedTeam.playerInput id d t1 t2 g) /\
  BallTracking.paddleOf t
    (BallTracking.playerInput id d t3 t4 (BallTracking.playerInput id d t1 t2 g'))
  = BallTracking.paddleOf t (BallTracking.playerInput id d t1 t2 g').
Proof.
  intros Hd Hg Hg'. split.
  - destruct (FixedTeam.players g !! id) as [pl |] eqn:Hid.
    + assert (Hid1 : FixedTeam.players (FixedTeam.playerInput id d t1 t2 g) !! id
                     = Some (FixedTeam.mkPlayer (FixedTeam.number pl)
                               (FixedTeam.team pl) d (Some t1))).
      { rewrite (ft_playerInput_players _ _ _ _ _ _ Hid). apply lookup_insert_eq. }
      rewrite (ft_playerInput_paddle _ _ _ _ _ _ t Hid1). simpl.
      rewrite (ft_playerInput_paddle _ _ _ _ _ _ t Hid).
      destruct (side_eqb (FixedTeam.team pl) t); [| reflexivity].
      destruct (Hg t) as [Hu Hdn].
      destruct (retractVote_nonneg (FixedTeam.lastInput pl) _ Hu Hdn) as [Hu' Hdn'].
      now apply revote_same.
    + now rewrite !(ft_playerInput_absent _ _ _ _ _ Hid).
  - destruct (BallTracking.players g' !! id) as [pl |] eqn:Hid.
    + assert (Hid1 : BallTracking.players (BallTracking.playerInput id d t1 t2 g') !! id
                     = Some (BallTracking.mkPlayer (BallTracking.number pl) d (Some t1))).
      { rewrite (bt_playerInput_players _ _ _ _ _ _ Hid). apply lookup_insert_eq. }
      rewrite (bt_playerInput_paddle _ _ _ _ _ _ t Hid1). simpl.
      rewrite (bt_playerInput_paddle _ _ _ _ _ _ t Hid).
      destruct (Hg' t) as [Hu Hdn].
      destruct (retractVote_nonneg (BallTracking.lastInput pl) _ Hu Hdn) as [Hu' Hdn'].
      now apply revote_same.
    + now rewrite !(bt_playerInput_absent _ _ _ _ _ Hid).
Qed.

(** Player ["a"] joins either server and sends up twice: the up tally of
    the right paddle is 1 after the second input. *)
Lemma second_same_vote_changes_no_tally_witness :
  let g := FixedTeam.playerJoin "a" (FixedTeam.initialState 0) in
  let g' := BallTracking.playerJoin "a" (BallTracking.initialState 0) in
  Paddle.upVotes
    (FixedTeam.paddleOf sideRight
       (FixedTeam.playerInput "a" up 2 2 (FixedTeam.playerInput "a" up 1 1 g)))
  = 1%Z /\
  Paddle.upVotes
    (BallTracking.paddleOf sideRight
       (BallTracking.playerInput "a" up 2 2 (BallTracking.playerInput "a" up 1 1 g')))
  = 1%Z.
Proof.
  intros g g'.
  assert (Hg : forall t, (0 <= Paddle.upVotes (FixedTeam.paddleOf t g))%Z /\
                         (0 <= Paddle.downVotes (FixedTeam.paddleOf t g))%Z)
    by (intros []; split; vm_compute; discriminate).
  assert (Hg' : forall t, (0 <= Paddle.upVotes (BallTracking.paddleOf t g'))%Z /\
                          (0 <= Paddle.downVotes (BallTracking.paddleOf t g'))%Z)
    by (intros []; split; vm_compute; discriminate).
  destruct (second_same_vote_changes_no_tally "a" up 1 1 2 2 g g' sideRight
              (or_introl eq_refl) Hg Hg') as [A B].
  rewrite A, B. split; vm_compute; reflexivity.
Defined.

(** ** C6: the displacement formula *)

(** C6. For non-negative tallies, [calculatePaddleMovement] follows the
    stated formula: no votes or a tie give 0; otherwise, with
    [u = upVotes / total] and [d = downVotes / total], the displacement is
    [speed * (max u d - 0.5) * 2], taken negative (up) when [u > d] and
    positive (down) when [d > u]; a lone up vote gives exactly [- speed].
    [speed] is the server's [PADDLE_SPEED] (8 in one server, 6 in the
    other). *)
Theorem paddle_displacement_formula (speed : Q) (paddle : Paddle.t) :
  let upVotes := Paddle.upVotes paddle in
  let downVotes := Paddle.downVotes paddle in
  let u := inject_Z upVotes / inject_Z (upVotes + downVotes) in
  let d := inject_Z downVotes / inject_Z (upVotes + downVotes) in
  let move := calculatePaddleMovement speed paddle in
  (0 <= upVotes)%Z -> (0 <= downVotes)%Z ->
  (upVotes = 0%Z /\ downVotes = 0%Z -> move == 0) /\
  (upVotes = downVotes -> move == 0) /\
  ((downVotes < upVotes)%Z ->
     d < u /\ move == - (speed * (Qmax u d - 0.5) * 2) /\ (0 < speed -> move < 0)) /\
  ((upVotes < downVotes)%Z ->
     u < d /\ move == speed * (Qmax u d - 0.5) * 2 /\ (0 < speed -> 0 < move)) /\
  (upVotes = 1%Z /\ downVotes = 0%Z -> move == - speed).
Proof.
  intros upVotes downVotes u d move Hu Hd.
  split; [| split; [| split; [| split]]].
  - intros [E1 E2]. subst move. rewrite move_tie; [reflexivity |].
    fold upVotes downVotes. lia.
  - intros E. subst move. now rewrite move_tie.
  - intros Hlt. assert (Hpos : (0 < upVotes + downVotes)%Z) by lia.
    assert (Hr : d < u) by (apply ratio_lt_iff; assumption).
    assert (Hm : move == - (speed * (Qmax u d - 0.5) * 2)).
    { apply move_up; [fold upVotes downVotes; lia | exact Hr]. }
    split; [exact Hr | split; [exact Hm |]].
    intros Hs. rewrite Hm.
    rewrite (Q.max_l u d) by (apply Qlt_le_weak, Hr).
    pose proof (ratios_sum upVotes downVotes Hpos) as Hsum. fold u d in Hsum.
    assert (0.5 < u) by lra. nra.
  - intros Hlt. assert (Hpos : (0 < upVotes + downVotes)%Z) by lia.
    assert (Hr : u < d) by (apply ratio_lt_iff; assumption).
    assert (Hm : move == speed * (Qmax u d - 0.5) * 2).
    { apply move_down; [fold upVotes downVotes; lia | exact Hr]. }
    split; [exact Hr | split; [exact Hm |]].
    intros Hs. rewrite Hm.
    rewrite (Q.max_r u d) by (apply Qlt_le_weak, Hr).
    pose proof (ratios_sum upVotes downVotes Hpos) as Hsum. fold u d in Hsum.
    assert (0.5 < d) by lra. nra.
  - intros [E1 E2]. subst move. unfold calculatePaddleMovement.
    fold upVotes downVotes. rewrite E1, E2. simpl.
    unfold Qlt_bool, Qle_bool; simpl.
    assert (E : inject_Z 1 / inject_Z (1 + 0) == 1) by reflexivity.
    rewrite E. ring.
Qed.

(** Three players hold up and one holds down on a paddle of [server.js]:
    the paddle moves up by [8 * (3/4 - 1/2) * 2 = 4]. *)
Lemma paddle_displacement_formula_witness :
  let paddle := {| Paddle.y := 240; Paddle.upVotes := 3; Paddle.downVotes := 1 |} in
  (0 <= Paddle.upVotes paddle)%Z /\ (0 <= Paddle.downVotes paddle)%Z /\
  calculatePaddleMovement FixedTeam.PADDLE_SPEED paddle == - 4.
Proof.
  intros paddle.
  assert (Hu : (0 <= Paddle.upVotes paddle)%Z) by (simpl; lia).
  assert (Hd : (0 <= Paddle.downVotes paddle)%Z) by (simpl; lia).
  split; [exact Hu | split; [exact Hd |]].
  destruct (paddle_displacement_formula FixedTeam.PADDLE_SPEED paddle Hu Hd)
    as (_ & _ & H & _).
  destruct H as (_ & H & _); [simpl; lia |].
  rewrite H. reflexivity.
Defined.

(** ** C7: which paddle eases toward the centre *)

(** C7, as amended. In a tick of a match that is being played, with the
    paddle inside the canvas (as it is in every state of a run:
    [ft_reachable_sound], [bt_reachable_sound]):
    - in [server.js] no paddle eases: a paddle whose votes give no
      displacement stays where it is;
    - in the ball-tracking server the paddle of the half the ball is not in
      moves toward the centre by exactly 2% of its distance to the centre,
      whatever its tallies, and the paddle of the ball's half, when its votes
      give no displacement, stays where it is. *)
Theorem only_the_paddle_away_from_the_ball_eases
    (g : FixedTeam.gameState) (g' : BallTracking.gameState) (t : side) :
  FixedTeam.status g = playing ->
  BallTracking.status g' = playing ->
  0 <= Paddle.y (FixedTeam.paddleOf t g) <= CANVAS_HEIGHT - PADDLE_HEIGHT ->
  0 <= Paddle.y (BallTracking.paddleOf t g') <= CANVAS_HEIGHT - PADDLE_HEIGHT ->
  let h := (FixedTeam.tick g).1 in
  let h' := (BallTracking.tick g').1 in
  let y := Paddle.y (FixedTeam.paddleOf t g) in
  let y' := Paddle.y (BallTracking.paddleOf t g') in
  (calculatePaddleMovement FixedTeam.PADDLE_SPEED (FixedTeam.paddleOf t g) == 0 ->
   Paddle.y (FixedTeam.paddleOf t h) == y) /\
  BallTracking.activePaddle h'
  = (if Qlt_bool (Ball.x (BallTracking.ball g')) (CANVAS_WIDTH / 2)
     then sideLeft else sideRight) /\
  (BallTracking.activePaddle h' <> t ->
   Paddle.y (BallTracking.paddleOf t h') == y' + (centerY - y') * 0.02 /\
   centerY - Paddle.y (BallTracking.paddleOf t h') == (centerY - y') * 0.98) /\
  (BallTracking.activePaddle h' = t ->
   calculatePaddleMovement BallTracking.PADDLE_SPEED (BallTracking.paddleOf t g') == 0 ->
   Paddle.y (BallTracking.paddleOf t h') == y').
Proof.
  intros Hst Hst' [Hlo Hhi] [Hlo' Hhi'] h h' y y'.
  unfold CANVAS_HEIGHT, PADDLE_HEIGHT in Hhi, Hhi'.
  assert (Hh : Paddle.y (FixedTeam.paddleOf t h)
               = clamp (CANVAS_HEIGHT - PADDLE_HEIGHT)
                   (y + calculatePaddleMovement FixedTeam.PADDLE_SPEED
                          (FixedTeam.paddleOf t g))).
  { subst h. rewrite (ft_tick_playing _ Hst), ft_scoreDetection_paddles.
    apply ft_advance_paddle. }
  assert (Ha : BallTracking.activePaddle h' = BallTracking.activePaddle (BallTracking.advance g')).
  { subst h'. rewrite (bt_tick_playing _ Hst'). apply bt_scoreDetection_active. }
  assert (Hh' : Paddle.y (BallTracking.paddleOf t h')
                = clamp (CANVAS_HEIGHT - PADDLE_HEIGHT)
                    (if side_eqb (BallTracking.activePaddle h') t
                     then y' + calculatePaddleMovement BallTracking.PADDLE_SPEED
                                 (BallTracking.paddleOf t g')
                     else y' + (centerY - y') * 0.02)).
  { rewrite Ha. subst h'.
    rewrite (bt_tick_playing _ Hst'), bt_scoreDetection_paddles.
    apply bt_advance_paddle. }
  fold y in Hlo, Hhi. fold y' in Hlo', Hhi'. clearbody y y'.
  split; [| split; [| split]].
  - intros Hm. rewrite Hh. revert Hm.
    generalize (calculatePaddleMovement FixedTeam.PADDLE_SPEED (FixedTeam.paddleOf t g)).
    intros m Hm.
    rewrite clamp_inside; unfold CANVAS_HEIGHT, PADDLE_HEIGHT; lra.
  - rewrite Ha. apply bt_advance_active.
  - intros Hne. rewrite Hh'.
    assert (E : side_eqb (BallTracking.activePaddle h') t = false)
      by (destruct (BallTracking.activePaddle h'), t; simpl; congruence).
    rewrite E.
    assert (Hin : clamp (CANVAS_HEIGHT - PADDLE_HEIGHT) (y' + (centerY - y') * 0.02)
                  == y' + (centerY - y') * 0.02).
    { assert (Hc : centerY == 240) by reflexivity. revert Hc.
      generalize centerY. intros c Hc.
      apply clamp_inside; unfold CANVAS_HEIGHT, PADDLE_HEIGHT; lra. }
    split; [exact Hin | rewrite Hin; ring].
  - intros He Hm. rewrite Hh'.
    assert (E : side_eqb (BallTracking.activePaddle h') t = true)
      by (rewrite He; now destruct t).
    rewrite E. revert Hm.
    generalize (calculatePaddleMovement BallTracking.PADDLE_SPEED
                  (BallTracking.paddleOf t g')).
    intros m Hm.
    rewrite clamp_inside; unfold CANVAS_HEIGHT, PADDLE_HEIGHT; lra.
Qed.

(** In [server.js], player ["b"] of the left team has held up for ten
    ticks and let go: the left paddle is at 160 with no vote on it, and a
    tick leaves it at 160.  In the ball-tracking server the match has
    started and player ["a"] holds up; the ball is put at 592, five pixels
    a tick to the right.  For two ticks the ball is in the left half and
    the vote moves the left paddle from 240 to 228.  The third tick finds
    the ball at 602, in the right half: the left paddle, still with its up
    vote, is eased from 228 to 228.24, that is by 2% of the 12 it is away
    from the centre. *)
Lemma only_the_paddle_away_from_the_ball_eases_witness :
  let s := FixedTeam.run
             ([FixedTeam.AdminStart 0 1 0; FixedTeam.PlayerJoin "a";
               FixedTeam.PlayerJoin "b"; FixedTeam.PlayerInput "b" up 0 0]
              ++ repeat FixedTeam.IntervalTick 10 ++ [FixedTeam.PlayerRelease "b"])
             (FixedTeam.boot 0) in
  let g := FixedTeam.game s in
  let s' := BallTracking.run
              [BallTracking.AdminStart 0 1 0; BallTracking.PlayerJoin "a";
               BallTracking.PlayerInput "a" up 0 0]
              (BallTracking.boot 0) in
  let placed := BallTracking.set_game
                  (BallTracking.set_ball
                     {| Ball.x := 592; Ball.y := 300; Ball.vx := 5; Ball.vy := 0 |}
                     (BallTracking.game s')) s' in
  let g' := BallTracking.game
              (BallTracking.run (repeat BallTracking.IntervalTick 2) placed) in
  (Paddle.y (FixedTeam.paddleOf sideLeft g) == 160 /\
   Paddle.y (FixedTeam.paddleOf sideLeft (FixedTeam.tick g).1) == 160) /\
  Paddle.y (BallTracking.paddleOf sideLeft (BallTracking.game placed)) == 240 /\
  Paddle.y (BallTracking.paddleOf sideLeft g') == 228 /\
  Paddle.upVotes (BallTracking.paddleOf sideLeft g') = 1%Z /\
  Ball.x (BallTracking.ball g') == 602 /\
  BallTracking.activePaddle (BallTracking.tick g').1 = sideRight /\
  Paddle.y (BallTracking.paddleOf sideLeft (BallTracking.tick g').1) == 228.24 /\
  centerY - Paddle.y (BallTracking.paddleOf sideLeft (BallTracking.tick g').1)
  == 12 * 0.98.
Proof.
  intros s g s' placed g'.
  assert (P : FixedTeam.status g = playing) by (vm_compute; reflexivity).
  assert (P' : BallTracking.status g' = playing) by (vm_compute; reflexivity).
  assert (B : 0 <= Paddle.y (FixedTeam.paddleOf sideLeft g)
              <= CANVAS_HEIGHT - PADDLE_HEIGHT)
    by (split; vm_compute; discriminate).
  assert (B' : 0 <= Paddle.y (BallTracking.paddleOf sideLeft g')
               <= CANVAS_HEIGHT - PADDLE_HEIGHT)
    by (split; vm_compute; discriminate).
  destruct (only_the_paddle_away_from_the_ball_eases g g' sideLeft P P' B B')
    as (H1 & H2 & H3 & _).
  assert (Ha : BallTracking.activePaddle (BallTracking.tick g').1 = sideRight)
    by (rewrite H2; vm_compute; reflexivity).
  destruct H3 as [H3 H4]; [rewrite Ha; discriminate |].
  split; [split; [vm_compute; reflexivity |] |].
  - rewrite H1; vm_compute; reflexivity.
  - split; [vm_compute; reflexivity |].
    split; [vm_compute; reflexivity |].
    split; [vm_compute; reflexivity |].
    split; [vm_compute; reflexivity |].
    split; [exact Ha |].
    split; [rewrite H3 | rewrite H4]; vm_compute; reflexivity.
Defined.

(** C7, as stated, fails on [server.js].  The admin starts the match,
    player ["b"] of the left team holds up for ten ticks and lets go: the
    left paddle is at 160, 80 above the centre, with no vote on it.  During
    the next tick it does not move from votes, and it does not ease either:
    it stays at 160 instead of closing 2% of the 80. *)
Lemma idle_paddle_does_not_ease_counterexample :
  let s := FixedTeam.run
             ([FixedTeam.AdminStart 0 1 0; FixedTeam.PlayerJoin "a";
               FixedTeam.PlayerJoin "b"; FixedTeam.PlayerInput "b" up 0 0]
              ++ repeat FixedTeam.IntervalTick 10 ++ [FixedTeam.PlayerRelease "b"])
             (FixedTeam.boot 0) in
  let before := FixedTeam.leftPaddle (FixedTeam.game s) in
  let after := FixedTeam.leftPaddle (FixedTeam.game (FixedTeam.step FixedTeam.IntervalTick s)) in
  FixedTeam.status (FixedTeam.game s) = playing /\
  FixedTeam.gameLoop s = true /\
  Paddle.y before == 160 /\
  calculatePaddleMovement FixedTeam.PADDLE_SPEED before == 0 /\
  Paddle.y after == 160 /\
  ~ centerY - Paddle.y after == (centerY - Paddle.y before) * 0.98.
Proof. vm_compute. repeat split. discriminate. Qed.

(** ** C8: the end of the match *)

(** C8, as amended. In both servers a tick that scores and brings a side to
    7 sets the status to [finished] and schedules no round reset.  From then
    on no tick changes anything, and the ball and the two paddles stay where
    they were through any events other than the admin's start and reset,
    provided no round reset of an earlier goal is still outstanding. *)
Theorem finished_match_stays_frozen
    (g : FixedTeam.gameState) (s : FixedTeam.server) (evs : list FixedTeam.event)
    (g' : BallTracking.gameState) (s' : BallTracking.server)
    (evs' : list BallTracking.event) :
  FixedTeam.status g = playing ->
  FixedTeam.status (FixedTeam.game s) = finished ->
  FixedTeam.pendingResets s = 0%nat ->
  forallb FixedTeam.keepsMatch evs = true ->
  BallTracking.status g' = playing ->
  BallTracking.status (BallTracking.game s') = finished ->
  BallTracking.pendingResets s' = 0%nat ->
  forallb BallTracking.keepsMatch evs' = true ->
  (let h := (FixedTeam.tick g).1 in
   FixedTeam.score h <> FixedTeam.score g ->
   (WINNING_SCORE <= Score.left (FixedTeam.score h) \/
    WINNING_SCORE <= Score.right (FixedTeam.score h))%Z ->
   FixedTeam.status h = finished /\ (FixedTeam.tick g).2 = false) /\
  (FixedTeam.tick (FixedTeam.game s) = (FixedTeam.game s, false) /\
   FixedTeam.status (FixedTeam.game (FixedTeam.run evs s)) = finished /\
   FixedTeam.positions (FixedTeam.game (FixedTeam.run evs s))
   = FixedTeam.positions (FixedTeam.game s)) /\
  (let h' := (BallTracking.tick g').1 in
   BallTracking.score h' <> BallTracking.score g' ->
   (WINNING_SCORE <= Score.left (BallTracking.score h') \/
    WINNING_SCORE <= Score.right (BallTracking.score h'))%Z ->
   BallTracking.status h' = finished /\ (BallTracking.tick g').2 = false) /\
  (BallTracking.tick (BallTracking.game s') = (BallTracking.game s', false) /\
   BallTracking.status (BallTracking.game (BallTracking.run evs' s')) = finished /\
   BallTracking.positions (BallTracking.game (BallTracking.run evs' s'))
   = BallTracking.positions (BallTracking.game s')).
Proof.
  intros Hg Hs Hp Hevs Hg' Hs' Hp' Hevs'.
  split; [| split; [| split]].
  - cbv zeta. rewrite (ft_tick_playing _ Hg).
    destruct (scoringSide (FixedTeam.ball (FixedTeam.advance g))) as [sd |] eqn:E.
    + destruct (ft_scoreDetection_some _ _ E) as (H1 & H2 & H3).
      intros _ Hw. rewrite H1 in Hw. apply hasWinner_iff in Hw.
      rewrite H2, H3, Hw. now split.
    + rewrite (ft_scoreDetection_none _ E). intros Hne. now destruct Hne.
  - split; [apply ft_tick_idle; rewrite Hs; discriminate |].
    now apply ft_run_frozen.
  - cbv zeta. rewrite (bt_tick_playing _ Hg').
    destruct (scoringSide (BallTracking.ball (BallTracking.advance g'))) as [sd |] eqn:E.
    + destruct (bt_scoreDetection_some _ _ E) as (H1 & H2 & H3).
      intros _ Hw. rewrite H1 in Hw. apply hasWinner_iff in Hw.
      rewrite H2, H3, Hw. now split.
    + rewrite (bt_scoreDetection_none _ E). cbn [fst]. rewrite bt_advance_score.
      intros Hne. now destruct Hne.
  - split; [apply bt_tick_idle; rewrite Hs'; discriminate |].
    now apply bt_run_frozen.
Qed.

(** Either server at 6-0 with the ball about to cross the right goal line;
    and either server at the end of a match, with ticks, a pause, a vote and
    a players reset arriving afterwards. *)
Lemma finished_match_stays_frozen_witness :
  let serve := {| Ball.x := 1198; Ball.y := 100; Ball.vx := 5; Ball.vy := 0 |} in
  let six := {| Score.left := 6; Score.right := 0 |} in
  let g := FixedTeam.set_ball serve (FixedTeam.set_score six
             (FixedTeam.set_status playing (FixedTeam.initialState 0))) in
  let g' := BallTracking.set_ball serve (BallTracking.set_score six
              (BallTracking.set_status playing (BallTracking.initialState 0))) in
  let s := FixedTeam.mkServer (FixedTeam.tick g).1 true 0 in
  let s' := BallTracking.mkServer (BallTracking.tick g').1 true 0 in
  let evs := [FixedTeam.IntervalTick; FixedTeam.AdminPause; FixedTeam.PlayerJoin "z";
              FixedTeam.PlayerInput "z" up 0 0; FixedTeam.TimeoutFire 0;
              FixedTeam.AdminResetPlayers; FixedTeam.IntervalTick] in
  let evs' := [BallTracking.IntervalTick; BallTracking.AdminPause;
               BallTracking.PlayerJoin "z"; BallTracking.PlayerInput "z" up 0 0;
               BallTracking.TimeoutFire 0; BallTracking.AdminResetPlayers;
               BallTracking.IntervalTick] in
  FixedTeam.status (FixedTeam.tick g).1 = finished /\
  BallTracking.status (BallTracking.tick g').1 = finished /\
  FixedTeam.positions (FixedTeam.game (FixedTeam.run evs s))
  = FixedTeam.positions (FixedTeam.game s) /\
  BallTracking.positions (BallTracking.game (BallTracking.run evs' s'))
  = BallTracking.positions (BallTracking.game s').
Proof.
  intros serve six g g' s s' evs evs'.
  assert (F : FixedTeam.status (FixedTeam.game s) = finished)
    by (vm_compute; reflexivity).
  assert (F' : BallTracking.status (BallTracking.game s') = finished)
    by (vm_compute; reflexivity).
  destruct (finished_match_stays_frozen g s evs g' s' evs'
              eq_refl F eq_refl eq_refl eq_refl F' eq_refl eq_refl)
    as (A & (_ & _ & B) & A' & (_ & _ & B')).
  split; [| split; [| split]].
  - apply A; [vm_compute; discriminate | left; vm_compute; discriminate].
  - apply A'; [vm_compute; discriminate | left; vm_compute; discriminate].
  - exact B.
  - exact B'.
Defined.

(** C8, as stated, fails on [server.js].  In the match of [firstGoalRun] the
    ball crosses the right goal line at the 120th tick and the 126th tick
    ends the match at 7-0, the ball at x = 1230 and the right paddle at the
    top.  The round resets of the earlier goals are still outstanding: when
    the first of them runs, the ball is back at the centre and the right
    paddle too, and that is where the next tick finds them.  No start or
    reset command was given. *)
Lemma finished_positions_move_counterexample :
  let s := FixedTeam.run (repeat FixedTeam.IntervalTick 7) FixedTeam.beforeFirstGoal in
  let late := [FixedTeam.TimeoutFire 0; FixedTeam.IntervalTick] in
  let s' := FixedTeam.run late s in
  FixedTeam.scoreboard s = (finished, 7%Z, 0%Z) /\
  forallb FixedTeam.keepsMatch late = true /\
  FixedTeam.scoreboard s' = (finished, 7%Z, 0%Z) /\
  Ball.x (FixedTeam.ball (FixedTeam.game s)) == 1230 /\
  Ball.x (FixedTeam.ball (FixedTeam.game s')) == 600 /\
  Paddle.y (FixedTeam.rightPaddle (FixedTeam.game s)) == 0 /\
  Paddle.y (FixedTeam.rightPaddle (FixedTeam.game s')) == 240 /\
  FixedTeam.positions (FixedTeam.game s') <> FixedTeam.positions (FixedTeam.game s).
Proof.
  vm_compute. repeat split. discriminate.
Qed.

(** ** C9: a ball that stays beyond the goal line *)

(** C9. In both servers a tick of a match that is being played moves the
    ball by its velocity and then looks only at where the ball is: whenever
    the ball is at or beyond a goal line after the move, the other side gets
    a point, whether or not the ball was already beyond the line at the tick
    before.  Nothing takes the ball back before the round reset, so in the
    match of [firstGoalRun] the single crossing of the right goal line at the
    120th tick is counted on that tick and on each of the six that follow,
    and ends the match at 7-0; the same happens in the ball-tracking server
    from [beforeFirstGoal]. *)
Theorem goal_is_counted_on_every_tick_beyond_the_line
    (g : FixedTeam.gameState) (g' : BallTracking.gameState) :
  FixedTeam.status g = playing ->
  BallTracking.status g' = playing ->
  (let h := (FixedTeam.tick g).1 in
   Ball.x (FixedTeam.ball h)
   = Ball.x (FixedTeam.ball g) + Ball.vx (FixedTeam.ball g) /\
   (Ball.x (FixedTeam.ball h) <= 0 ->
    FixedTeam.score h = addPoint sideRight (FixedTeam.score g)) /\
   (CANVAS_WIDTH <= Ball.x (FixedTeam.ball h) ->
    FixedTeam.score h = addPoint sideLeft (FixedTeam.score g))) /\
  (let h' := (BallTracking.tick g').1 in
   Ball.x (BallTracking.ball h')
   = Ball.x (BallTracking.ball g') + Ball.vx (BallTracking.ball g') /\
   (Ball.x (BallTracking.ball h') <= 0 ->
    BallTracking.score h' = addPoint sideRight (BallTracking.score g')) /\
   (CANVAS_WIDTH <= Ball.x (BallTracking.ball h') ->
    BallTracking.score h' = addPoint sideLeft (BallTracking.score g'))) /\
  (let after k := FixedTeam.run (repeat FixedTeam.IntervalTick k)
                    FixedTeam.beforeFirstGoal in
   Ball.x (FixedTeam.ball (FixedTeam.game (after 0%nat))) < CANVAS_WIDTH /\
   Forall (fun k => CANVAS_WIDTH <= Ball.x (FixedTeam.ball (FixedTeam.game (after k))))
     (seq 1 7) /\
   map (fun k => FixedTeam.scoreboard (after k)) (seq 0 8)
   = [(playing, 0, 0); (playing, 1, 0); (playing, 2, 0); (playing, 3, 0);
      (playing, 4, 0); (playing, 5, 0); (playing, 6, 0); (finished, 7, 0)]%Z) /\
  (let after k := BallTracking.run (repeat BallTracking.IntervalTick k)
                    BallTracking.beforeFirstGoal in
   Ball.x (BallTracking.ball (BallTracking.game (after 0%nat))) < CANVAS_WIDTH /\
   Forall (fun k => CANVAS_WIDTH
                    <= Ball.x (BallTracking.ball (BallTracking.game (after k))))
     (seq 1 7) /\
   map (fun k => BallTracking.scoreboard (after k)) (seq 0 8)
   = [(playing, 0, 0); (playing, 1, 0); (playing, 2, 0); (playing, 3, 0);
      (playing, 4, 0); (playing, 5, 0); (playing, 6, 0); (finished, 7, 0)]%Z).
Proof.
  intros Hg Hg'. split; [| split; [| split]].
  - cbv zeta. rewrite (ft_tick_playing _ Hg), ft_scoreDetection_ball.
    split; [apply ft_advance_x | split]; intros H.
    + apply scoringSide_right in H.
      now destruct (ft_scoreDetection_some _ _ H) as (-> & _).
    + apply scoringSide_left in H.
      now destruct (ft_scoreDetection_some _ _ H) as (-> & _).
  - cbv zeta. rewrite (bt_tick_playing _ Hg'), bt_scoreDetection_ball.
    split; [apply bt_advance_x | split]; intros H.
    + apply scoringSide_right in H.
      destruct (bt_scoreDetection_some _ _ H) as (-> & _).
      now rewrite bt_advance_score.
    + apply scoringSide_left in H.
      destruct (bt_scoreDetection_some _ _ H) as (-> & _).
      now rewrite bt_advance_score.
  - cbv zeta. split; [vm_compute; reflexivity | split].
    + repeat constructor; vm_compute; discriminate.
    + vm_compute; reflexivity.
  - cbv zeta. split; [vm_compute; reflexivity | split].
    + repeat constructor; vm_compute; discriminate.
    + vm_compute; reflexivity.
Qed.

(** The 121st tick of the match of [firstGoalRun] finds the ball beyond the
    right goal line, where the 120th had left it, and makes it 2-0; so does
    the second tick after [beforeFirstGoal] in the ball-tracking server. *)
Lemma goal_is_counted_on_every_tick_beyond_the_line_witness :
  let g := FixedTeam.game (FixedTeam.step FixedTeam.IntervalTick FixedTeam.beforeFirstGoal) in
  let g' := BallTracking.game
              (BallTracking.step BallTracking.IntervalTick BallTracking.beforeFirstGoal) in
  CANVAS_WIDTH <= Ball.x (FixedTeam.ball g) /\
  FixedTeam.score g = {| Score.left := 1; Score.right := 0 |} /\
  FixedTeam.score (FixedTeam.tick g).1 = {| Score.left := 2; Score.right := 0 |} /\
  CANVAS_WIDTH <= Ball.x (BallTracking.ball g') /\
  BallTracking.score g' = {| Score.left := 1; Score.right := 0 |} /\
  BallTracking.score (BallTracking.tick g').1 = {| Score.left := 2; Score.right := 0 |}.
Proof.
  intros g g'.
  assert (P : FixedTeam.status g = playing) by (vm_compute; reflexivity).
  assert (P' : BallTracking.status g' = playing) by (vm_compute; reflexivity).
  destruct (goal_is_counted_on_every_tick_beyond_the_line g g' P P')
    as ((_ & _ & A) & (_ & _ & A') & _).
  split; [vm_compute; discriminate | split; [vm_compute; reflexivity | split]].
  - rewrite A; [vm_compute; reflexivity | vm_compute; discriminate].
  - split; [vm_compute; discriminate | split; [vm_compute; reflexivity |]].
    rewrite A'; [vm_compute; reflexivity | vm_compute; discriminate].
Defined.

(** ** C10: votes held across a round reset *)

(** C10. In both servers the round reset zeroes the four tallies and leaves
    the players, and so the directions they hold, as they are.  So the
    tallies stop counting the holders: in the match of [firstGoalRun] player
    ["a"] holds up when a round reset runs; then ["c"], of the same team,
    votes up, and ["a"] lets go.  The release takes back the vote that ["c"]
    had added: the up tally of their paddle is 0 while ["c"] holds up.  The
    same happens in the ball-tracking server, on both paddles. *)
Theorem round_reset_forgets_held_votes :
  (forall rnd g t,
     FixedTeam.players (FixedTeam.resetRound rnd g) = FixedTeam.players g /\
     Paddle.upVotes (FixedTeam.paddleOf t (FixedTeam.resetRound rnd g)) = 0%Z /\
     Paddle.downVotes (FixedTeam.paddleOf t (FixedTeam.resetRound rnd g)) = 0%Z) /\
  (forall rnd g t,
     BallTracking.players (BallTracking.resetRound rnd g) = BallTracking.players g /\
     Paddle.upVotes (BallTracking.paddleOf t (BallTracking.resetRound rnd g)) = 0%Z /\
     Paddle.downVotes (BallTracking.paddleOf t (BallTracking.resetRound rnd g)) = 0%Z) /\
  (let s := FixedTeam.run (repeat FixedTeam.IntervalTick 7) FixedTeam.beforeFirstGoal in
   let later := [FixedTeam.TimeoutFire 0; FixedTeam.PlayerInput "c" up 1 1;
                 FixedTeam.PlayerRelease "a"] in
   map (fun k => FixedTeam.upLedger (FixedTeam.run (take k later) s)) (seq 0 4)
   = [(1%Z, 1%nat); (0%Z, 1%nat); (1%Z, 2%nat); (0%Z, 1%nat)] /\
   FixedTeam.lastInput <$> (FixedTeam.players (FixedTeam.game (FixedTeam.run later s)) !! "c")
   = Some up) /\
  (let s := BallTracking.run (repeat BallTracking.IntervalTick 7)
              BallTracking.beforeFirstGoal in
   let later := [BallTracking.TimeoutFire 0; BallTracking.PlayerInput "c" up 1 1;
                 BallTracking.PlayerRelease "a"] in
   map (fun k => BallTracking.upLedger (BallTracking.run (take k later) s)) (seq 0 4)
   = [(1%Z, 1%Z, 1%nat); (0%Z, 0%Z, 1%nat); (1%Z, 1%Z, 2%nat); (0%Z, 0%Z, 1%nat)] /\
   BallTracking.lastInput
     <$> (BallTracking.players (BallTracking.game (BallTracking.run later s)) !! "c")
   = Some up).
Proof.
  split; [| split; [| split]].
  - intros rnd g []; repeat split.
  - intros rnd g []; repeat split.
  - vm_compute. split; reflexivity.
  - vm_compute. split; reflexivity.
Qed.

(** ** The states of a run *)

(** X1. In every state of every run of either server, from the start of the
    process and whatever the events (ticks, round resets, joins, inputs with
    any direction value, releases, disconnects, admin commands), no vote
    tally is negative, both paddles are inside
    [0, CANVAS_HEIGHT - PADDLE_HEIGHT] and the ball speed is positive. *)
Theorem every_state_of_a_run_is_sound
    (rnd : Q) (evs : list FixedTeam.event) (evs' : list BallTracking.event) :
  FixedTeam.sound (FixedTeam.game (FixedTeam.run evs (FixedTeam.boot rnd))) /\
  BallTracking.sound
    (BallTracking.game (BallTracking.run evs' (BallTracking.boot rnd))).
Proof. split; [apply ft_reachable_sound | apply bt_reachable_sound]. Qed.

(** * More of the two servers

    The rest of this file is about the code the claims above leave out: the
    ball against the walls and the paddles, what the tick broadcasts, the
    numbering of the players, the status of the match and the address the
    server is reached at. *)

(** ** The ball against the walls and the paddles *)

Lemma wallCollision_inside b : ballInside (wallCollision b).
Proof.
  unfold ballInside, wallCollision.
  destruct (Qle_bool (Ball.y b) 0) eqn:E1; simpl.
  - apply clamp_bounds. vm_compute. discriminate.
  - destruct (Qle_bool (CANVAS_HEIGHT - BALL_SIZE) (Ball.y b)) eqn:E2; simpl.
    + apply clamp_bounds. vm_compute. discriminate.
    + apply Qle_bool_false_iff in E1, E2. split; apply Qlt_le_weak; assumption.
Qed.

Lemma wallCollision_vx b : Ball.vx (wallCollision b) = Ball.vx b.
Proof. unfold wallCollision. now destruct (_ || _). Qed.

Lemma wallCollision_vy b :
  Ball.vy (wallCollision b) = Ball.vy b \/ Ball.vy (wallCollision b) = Ball.vy b * -1.
Proof. unfold wallCollision. destruct (_ || _); [now right | now left]. Qed.

Lemma bounce_x speed p b : Ball.x (bounce speed p b) = Ball.x b.
Proof. reflexivity. Qed.

Lemma bounce_y speed p b : Ball.y (bounce speed p b) = Ball.y b.
Proof. reflexivity. Qed.

Lemma bounce_vx speed p b : Ball.vx (bounce speed p b) = Ball.vx b * -1.
Proof. reflexivity. Qed.

Lemma bounce_vy speed p b :
  Ball.vy (bounce speed p b)
  = ((Ball.y b - Paddle.y p) / PADDLE_HEIGHT - 0.5) * speed * 2.
Proof. reflexivity. Qed.

(** The ball that one paddle returns cannot meet the other one in the same
    tick: the two paddles are more than a thousand pixels apart. *)
Lemma collisions_exclusive speed lp rp b :
  leftPaddleCollision lp b = true ->
  rightPaddleCollision rp (bounce speed lp b) = false.
Proof.
  unfold leftPaddleCollision, rightPaddleCollision.
  rewrite !andb_true_iff. intros [[[Hx _] _] _].
  apply Qle_bool_iff in Hx.
  rewrite bounce_x.
  assert (E : Qle_bool (CANVAS_WIDTH - PADDLE_WIDTH - 20 - BALL_SIZE) (Ball.x b) = false).
  { apply Qle_bool_false_iff.
    unfold CANVAS_WIDTH, PADDLE_WIDTH, BALL_SIZE in *. lra. }
  now rewrite E.
Qed.

Lemma paddleCollisions_cases speed lp rp b :
  (leftPaddleCollision lp b = false /\ rightPaddleCollision rp b = false /\
   paddleCollisions speed lp rp b = b /\ paddleHits speed lp rp b = []) \/
  (leftPaddleCollision lp b = true /\
   paddleCollisions speed lp rp b = bounce speed lp b /\
   paddleHits speed lp rp b = [sideLeft]) \/
  (leftPaddleCollision lp b = false /\ rightPaddleCollision rp b = true /\
   paddleCollisions speed lp rp b = bounce speed rp b /\
   paddleHits speed lp rp b = [sideRight]).
Proof.
  unfold paddleCollisions, paddleHits.
  destruct (leftPaddleCollision lp b) eqn:El.
  - right; left. rewrite (collisions_exclusive speed lp rp b El). auto.
  - destruct (rightPaddleCollision rp b) eqn:Er; [right; right | left]; auto.
Qed.

Lemma paddleCollisions_y speed lp rp b :
  Ball.y (paddleCollisions speed lp rp b) = Ball.y b.
Proof.
  destruct (paddleCollisions_cases speed lp rp b)
    as [(_ & _ & -> & _) | [(_ & -> & _) | (_ & _ & -> & _)]]; reflexivity.
Qed.

Lemma paddleCollisions_vx speed lp rp b :
  Ball.vx (paddleCollisions speed lp rp b) = Ball.vx b \/
  Ball.vx (paddleCollisions speed lp rp b) = Ball.vx b * -1.
Proof.
  destruct (paddleCollisions_cases speed lp rp b)
    as [(_ & _ & -> & _) | [(_ & -> & _) | (_ & _ & -> & _)]]; auto.
Qed.

(** Where the ball meets a paddle it is at most [BALL_SIZE] above the
    paddle's top and not below its bottom, so the hit position is between
    -1/8 and 1. *)
Lemma bounce_vy_range speed p b :
  0 <= speed ->
  Qle_bool (Paddle.y p) (Ball.y b + BALL_SIZE) = true ->
  Qle_bool (Ball.y b) (Paddle.y p + PADDLE_HEIGHT) = true ->
  - (1.25 * speed) <= Ball.vy (bounce speed p b) <= speed.
Proof.
  intros Hs H1 H2. apply Qle_bool_iff in H1, H2.
  rewrite bounce_vy. unfold BALL_SIZE, PADDLE_HEIGHT in *.
  set (d := Ball.y b - Paddle.y p).
  assert (Hd : -15 <= d <= 120) by (subst d; split; lra).
  clearbody d.
  assert (E : (d / 120 - 0.5) * speed * 2 == (d - 60) * speed * (1 # 60)) by field.
  rewrite E. split; nra.
Qed.

Lemma paddleCollisions_vy speed lp rp b :
  0 <= speed ->
  Ball.vy (paddleCollisions speed lp rp b) = Ball.vy b \/
  - (1.25 * speed) <= Ball.vy (paddleCollisions speed lp rp b) <= speed.
Proof.
  intros Hs.
  destruct (paddleCollisions_cases speed lp rp b)
    as [(_ & _ & -> & _) | [(Hc & -> & _) | (_ & Hc & -> & _)]]; [now left | |];
    right; apply bounce_vy_range; try exact Hs;
    unfold leftPaddleCollision, rightPaddleCollision in Hc;
    rewrite !andb_true_iff in Hc; tauto.
Qed.

Lemma addPoint_points s sc :
  Score.left (addPoint s sc)
  = (Score.left sc + if side_eqb s sideLeft then 1 else 0)%Z /\
  Score.right (addPoint s sc)
  = (Score.right sc + if side_eqb s sideRight then 1 else 0)%Z.
Proof. destruct s; simpl; lia. Qed.

Lemma coin_cases rnd : coin rnd = 1 \/ coin rnd = -1.
Proof. unfold coin. destruct (Qlt_bool _ _); auto. Qed.

Lemma lastScorer_cases sc : lastScorer sc = 1 \/ lastScorer sc = -1.
Proof. unfold lastScorer. destruct (_ <? _)%Z; auto. Qed.

Lemma servedBall_inside speed direction rnd :
  ballInside (servedBall speed direction rnd).
Proof. split; vm_compute; discriminate. Qed.

Lemma servedBall_vy_range speed direction rnd :
  0 <= speed -> inUnitInterval rnd = true ->
  - speed <= Ball.vy (servedBall speed direction rnd) <= speed.
Proof.
  intros Hs Hr. unfold inUnitInterval in Hr. apply andb_true_iff in Hr as [H0 H1].
  apply Qle_bool_iff in H0. apply Qlt_bool_iff in H1. simpl. split; nra.
Qed.

(** ** Parity, the log and the tallies *)

Lemma logInput_firstn {A : Type} (max : nat) (entry : A) (log : list A) :
  (length log <= max)%nat -> logInput max entry log = firstn max (entry :: log).
Proof.
  intros H. unfold logInput.
  destruct (max <? length (entry :: log))%nat eqn:E.
  - apply Nat.ltb_lt in E. simpl in E.
    assert (Hm : max = length log) by lia.
    rewrite removelast_firstn_len. simpl length. simpl Nat.pred. now rewrite Hm.
  - apply Nat.ltb_ge in E. symmetry. now apply firstn_all2.
Qed.

Lemma logInput_length {A : Type} (max : nat) (entry : A) (log : list A) :
  (length log <= max)%nat -> (length (logInput max entry log) <= max)%nat.
Proof.
  intros H. rewrite logInput_firstn by exact H. apply firstn_le_length.
Qed.

Lemma tally_bound_replace (tally : Z) (n n' : nat) (bprev bnew : bool) :
  (0 <= tally <= Z.of_nat n)%Z ->
  (n' + b2n bprev = n + b2n bnew)%nat ->
  (b2n bprev <= n)%nat ->
  (0 <= (if bprev then retract tally else tally) + (if bnew then 1 else 0)
   <= Z.of_nat n')%Z.
Proof. destruct bprev, bnew; unfold retract; simpl; lia. Qed.

Lemma tally_bound_retract (tally : Z) (n n' : nat) (bprev : bool) :
  (0 <= tally <= Z.of_nat n)%Z ->
  (n' + b2n bprev = n)%nat ->
  (0 <= (if bprev then retract tally else tally) <= Z.of_nat n')%Z.
Proof. destruct bprev; unfold retract; simpl; lia. Qed.

Lemma firstn_cons_firstn {A : Type} (n : nat) (x : A) (l : list A) :
  firstn n (x :: firstn n l) = firstn n (x :: l).
Proof.
  destruct n as [| n]; [reflexivity |].
  cbn [firstn]. f_equal. rewrite firstn_firstn. f_equal. lia.
Qed.

Lemma logInput_latest {A : Type} (n : nat) (x : A) (l : list A) :
  logInput n x (firstn n l) = firstn n (x :: l).
Proof.
  rewrite logInput_firstn by apply firstn_le_length. apply firstn_cons_firstn.
Qed.

(** Taking back the vote just cast gives back the paddle it was cast on. *)
Lemma retractVote_addVote d p :
  paddleNonneg p -> retractVote d (addVote d p) = p.
Proof.
  intros [Hu Hd]. apply paddle_eq.
  - now rewrite retractVote_y, addVote_y.
  - rewrite retractVote_up, addVote_up.
    destruct (strictEqStr d "up"); unfold retract; lia.
  - rewrite retractVote_down, addVote_down.
    destruct (strictEqStr d "down"); unfold retract; lia.
Qed.

Lemma retractVote_keeps_nonneg v p : paddleNonneg p -> paddleNonneg (retractVote v p).
Proof. intros [Hu Hd]. now apply retractVote_nonneg. Qed.

(** A value that is not truthy is neither ['up'] nor ['down']. *)
Lemma falsy_is_no_vote d p : truthy d = false -> addVote d p = p.
Proof.
  intros H. apply addVote_malformed; destruct d; try reflexivity; simpl in *;
    apply negb_false_iff, String.eqb_eq in H; now subst.
Qed.

Lemma retractVote_null p : retractVote JNull p = p.
Proof. reflexivity. Qed.

(** ** How far a paddle goes in one tick *)

Lemma ratio_bounds (a t : Z) :
  (0 <= a <= t)%Z -> (0 < t)%Z -> 0 <= inject_Z a / inject_Z t <= 1.
Proof.
  intros [H0 H1] Ht.
  assert (Hq : 0 < inject_Z t)
    by (change 0 with (inject_Z 0); now rewrite <- Zlt_Qlt).
  split.
  - apply Qle_shift_div_l; [exact Hq |].
    rewrite Qmult_0_l. change 0 with (inject_Z 0). now rewrite <- Zle_Qle.
  - apply Qle_shift_div_r; [exact Hq |].
    rewrite Qmult_1_l. now rewrite <- Zle_Qle.
Qed.

Lemma voteShare_no_votes p :
  (Paddle.upVotes p + Paddle.downVotes p = 0)%Z -> paddleNonneg p ->
  voteShare (Paddle.upVotes p) p == 0 /\ voteShare (Paddle.downVotes p) p == 0.
Proof.
  intros H [Hu Hd].
  assert (Eu : Paddle.upVotes p = 0%Z) by lia.
  assert (Ed : Paddle.downVotes p = 0%Z) by lia.
  unfold voteShare. rewrite Eu, Ed. split; reflexivity.
Qed.

Lemma voteShare_votes v p :
  (0 < Paddle.upVotes p + Paddle.downVotes p)%Z ->
  voteShare v p = inject_Z v / inject_Z (Paddle.upVotes p + Paddle.downVotes p).
Proof. intros H. unfold voteShare. now rewrite Z.max_r by lia. Qed.

(** The displacement is the paddle speed times the difference of the two
    shares the tick broadcasts. *)
Lemma move_as_shares speed p :
  paddleNonneg p ->
  calculatePaddleMovement speed p
  == speed * (voteShare (Paddle.downVotes p) p - voteShare (Paddle.upVotes p) p).
Proof.
  intros Hn. pose proof Hn as [Hu Hd].
  destruct (Z.eq_dec (Paddle.upVotes p + Paddle.downVotes p)%Z 0%Z) as [H0 | H0].
  - rewrite (move_no_votes speed p H0).
    destruct (voteShare_no_votes p H0 Hn) as [-> ->]. ring.
  - assert (Ht : (0 < Paddle.upVotes p + Paddle.downVotes p)%Z) by lia.
    rewrite (move_unfold speed p H0), !voteShare_votes by exact Ht.
    pose proof (ratios_sum _ _ Ht) as Hsum.
    set (u := inject_Z (Paddle.upVotes p) / _) in *.
    set (d := inject_Z (Paddle.downVotes p) / _) in *.
    clearbody u d.
    assert (Ed : d == 1 - u) by lra.
    destruct (Qlt_bool d u) eqn:E1; [rewrite Ed; ring |].
    destruct (Qlt_bool u d) eqn:E2; [rewrite Ed; ring |].
    apply Qlt_bool_false_iff in E1, E2.
    assert (Eu : d == u) by lra. rewrite Eu. ring.
Qed.

Lemma voteShare_bounds p :
  paddleNonneg p ->
  0 <= voteShare (Paddle.upVotes p) p <= 1 /\
  0 <= voteShare (Paddle.downVotes p) p <= 1.
Proof.
  intros Hn. pose proof Hn as [Hu Hd].
  destruct (Z.eq_dec (Paddle.upVotes p + Paddle.downVotes p)%Z 0%Z) as [H0 | H0].
  - destruct (voteShare_no_votes p H0 Hn) as [-> ->]. split; split; lra.
  - assert (Ht : (0 < Paddle.upVotes p + Paddle.downVotes p)%Z) by lia.
    rewrite !voteShare_votes by exact Ht.
    split; apply ratio_bounds; lia.
Qed.

Lemma move_bounds speed p :
  0 <= speed -> paddleNonneg p ->
  - speed <= calculatePaddleMovement speed p <= speed.
Proof.
  intros Hs Hn. rewrite (move_as_shares speed p Hn).
  destruct (voteShare_bounds p Hn) as [Hu Hd].
  set (u := voteShare (Paddle.upVotes p) p) in *.
  set (d := voteShare (Paddle.downVotes p) p) in *.
  split; nra.
Qed.

(** Clamping a step taken from inside the range never lengthens it. *)
Lemma clamp_step (hi y m k : Q) :
  0 <= y <= hi -> - k <= m <= k ->
  - k <= clamp hi (y + m) - y <= k.
Proof.
  intros Hy Hm. unfold clamp.
  destruct (Q.min_spec hi (y + m)) as [[A E] | [A E]]; rewrite E;
    [destruct (Q.max_spec 0 hi) as [[B E'] | [B E']]
    | destruct (Q.max_spec 0 (y + m)) as [[B E'] | [B E']]];
    rewrite E'; split; lra.
Qed.

(** What ['game:state'] tells about a paddle whose tallies are not
    negative. *)
Lemma paddleView_shares speed p :
  paddleNonneg p ->
  let v := paddleView p in
  0 <= PaddleView.upRatio v <= 1 /\
  0 <= PaddleView.downRatio v <= 1 /\
  ((PaddleView.totalVotes v = 0%Z /\
    PaddleView.upRatio v == 0 /\ PaddleView.downRatio v == 0) \/
   ((0 < PaddleView.totalVotes v)%Z /\
    PaddleView.upRatio v + PaddleView.downRatio v == 1)) /\
  calculatePaddleMovement speed p
  == speed * (PaddleView.downRatio v - PaddleView.upRatio v).
Proof.
  intros Hn. cbv zeta. unfold paddleView. cbn [PaddleView.upRatio
    PaddleView.downRatio PaddleView.totalVotes].
  destruct (voteShare_bounds p Hn) as [Hu Hd].
  split; [exact Hu | split; [exact Hd | split; [| now apply move_as_shares]]].
  pose proof Hn as [Hup Hdn].
  destruct (Z.eq_dec (Paddle.upVotes p + Paddle.downVotes p)%Z 0%Z) as [H0 | H0].
  - left. split; [exact H0 | now apply voteShare_no_votes].
  - right. assert (Ht : (0 < Paddle.upVotes p + Paddle.downVotes p)%Z) by lia.
    split; [exact Ht |]. rewrite !voteShare_votes by exact Ht.
    now apply ratios_sum.
Qed.

Lemma addPoint_changes s sc : addPoint s sc <> sc.
Proof. destruct s, sc; simpl; intros E; injection E; lia. Qed.

Lemma addPoint_side s s' sc : addPoint s sc = addPoint s' sc -> s = s'.
Proof. destruct s, s', sc; simpl; intros E; try reflexivity; injection E; lia. Qed.

(** ** More facts about [server.js] *)

Section FixedTeamLaws.
Import FixedTeam.

Ltac ft_held Et :=
  repeat match goal with
  | H : context [votesFor _ _ _] |- _ =>
      unfold votesFor in H; simpl in H; rewrite Et in H; simpl in H
  end.

(** *** What the player events and the tick leave alone *)

Lemma ft_player_frame e s :
  playerEvent e = true -> matchPart (step e s) = matchPart s.
Proof.
  intros He. unfold matchPart. destruct e; try discriminate He; simpl.
  - reflexivity.
  - unfold playerInput. destruct (players (game s) !! id) as [pl |]; [| reflexivity].
    destruct (team pl); simpl; now rewrite ?addVote_y, ?retractVote_y.
  - unfold playerRelease. destruct (players (game s) !! id) as [pl |]; [| reflexivity].
    destruct (truthy (lastInput pl)); simpl; [| reflexivity].
    destruct (team pl); simpl; now rewrite ?retractVote_y.
  - unfold disconnect. destruct (players (game s) !! id) as [pl |]; [| reflexivity].
    destruct (team pl); simpl; now rewrite ?retractVote_y.
Qed.

Lemma ft_tick_ledger g : ledgerPart (tick g).1 = ledgerPart g.
Proof.
  unfold tick. destruct (negb _); [reflexivity |].
  unfold scoreDetection.
  destruct (scoringSide (ball (advance g))); [| reflexivity].
  now destruct (hasWinner _).
Qed.

(** *** The scoreboard, the ball speed and the ball, event by event *)

Lemma ft_tick_match g :
  status g = playing ->
  ball (tick g).1 = ball (advance g) /\
  match scoringSide (ball (advance g)) with
  | None =>
      status (tick g).1 = playing /\ score (tick g).1 = score g /\
      round (tick g).1 = round g /\ ballSpeed (tick g).1 = ballSpeed g
  | Some s =>
      status (tick g).1
      = (if hasWinner (addPoint s (score g)) then finished else playing) /\
      score (tick g).1 = addPoint s (score g) /\
      round (tick g).1 = (round g + 1)%Z /\
      ballSpeed (tick g).1
      = INITIAL_BALL_SPEED + (inject_Z (round g + 1) - 1) * SPEED_INCREMENT
  end.
Proof.
  intros Hst. rewrite (ft_tick_playing _ Hst).
  split; [apply ft_scoreDetection_ball |].
  unfold scoreDetection.
  destruct (scoringSide (ball (advance g))) as [s |].
  - change (score (advance g)) with (score g).
    change (round (advance g)) with (round g).
    cbn [score set_score set_round set_ballSpeed].
    destruct (hasWinner (addPoint s (score g))); simpl; repeat split.
    exact Hst.
  - simpl. repeat split. exact Hst.
Qed.

Lemma ft_step_scoreLaw e s : scoreLaw (game s) -> scoreLaw (game (step e s)).
Proof.
  intros H. pose proof H as (Hl & Hr & Hboth & Hfin).
  assert (Hplay : forall st, st <> finished -> status (game s) <> finished ->
            forall g', status g' = st -> score g' = score (game s) -> scoreLaw g').
  { intros st Hne Hnf g' E1 E2. unfold scoreLaw. rewrite E1, E2.
    split; [exact Hl | split; [exact Hr | split; [exact Hboth |]]].
    split; [congruence | intros Hw; now apply Hfin in Hw]. }
  assert (Hzero : forall st g', st <> finished -> status g' = st ->
            score g' = {| Score.left := 0; Score.right := 0 |} -> scoreLaw g').
  { intros st g' Hne E1 E2. unfold scoreLaw, WINNING_SCORE. rewrite E1, E2. simpl.
    split; [lia | split; [lia | split; [lia |]]].
    split; [congruence | intros [A | A]; discriminate A]. }
  destruct (playerEvent e) eqn:Hpe.
  { pose proof (ft_player_frame e s Hpe) as Hf. unfold matchPart in Hf.
    injection Hf as E1 _ E2 _ _ _ _ _ _.
    unfold scoreLaw. now rewrite E1, E2. }
  destruct e; try discriminate Hpe; simpl.
  - destruct (gameLoop s); [| exact H].
    destruct (tick (game s)) as [g b] eqn:E.
    assert (Eg : g = (tick (game s)).1) by now rewrite E.
    simpl. subst g. clear E b.
    destruct (status_eqb (status (game s)) playing) eqn:Hst.
    + apply status_eqb_eq in Hst.
      destruct (ft_tick_match _ Hst) as [_ Hm].
      assert (Hnf : status (game s) <> finished) by (rewrite Hst; discriminate).
      destruct (scoringSide _) as [sd |].
      * destruct Hm as (E1 & E2 & _).
        assert (Hlt : (Score.left (score (game s)) < 7)%Z
                      /\ (Score.right (score (game s)) < 7)%Z).
        { unfold WINNING_SCORE in *. split.
          - destruct (Z.eq_dec (Score.left (score (game s))) 7%Z) as [A |]; [| lia].
            exfalso. apply Hnf, Hfin. now left.
          - destruct (Z.eq_dec (Score.right (score (game s))) 7%Z) as [A |]; [| lia].
            exfalso. apply Hnf, Hfin. now right. }
        unfold scoreLaw. rewrite E1, E2.
        destruct (addPoint_points sd (score (game s))) as [Al Ar].
        rewrite Al, Ar. unfold WINNING_SCORE in *.
        destruct (hasWinner (addPoint sd (score (game s)))) eqn:Hw.
        -- apply hasWinner_iff in Hw. rewrite Al, Ar in Hw. unfold WINNING_SCORE in Hw.
           destruct sd; simpl in *; repeat split; try lia; intros _; lia.
        -- assert (Hn : ~ ((7 <= Score.left (addPoint sd (score (game s))))%Z
                          \/ (7 <= Score.right (addPoint sd (score (game s))))%Z)).
           { intros A. apply hasWinner_iff in A. congruence. }
           rewrite Al, Ar in Hn.
           destruct sd; simpl in *; repeat split; try lia; try discriminate;
             intros; lia.
      * destruct Hm as (E1 & E2 & _). now apply (Hplay playing).
    + rewrite ft_tick_idle; [exact H |].
      intros A. apply status_eqb_eq in A. congruence.
  - destruct (pendingResets s); [exact H |]. exact H.
  - destruct (_ || _); [| exact H]. now apply (Hzero playing).
  - destruct (status_eqb _ _) eqn:E; [| exact H].
    apply status_eqb_eq in E.
    apply (Hplay paused); [discriminate | rewrite E; discriminate | reflexivity ..].
  - destruct (status_eqb _ _) eqn:E; [| exact H].
    apply status_eqb_eq in E.
    apply (Hplay playing); [discriminate | rewrite E; discriminate | reflexivity ..].
  - now apply (Hzero waiting).
  - exact H.
Qed.

Lemma ft_advance_ball g :
  ball (advance g)
  = paddleCollisions (ballSpeed g)
      (leftPaddle (clampPaddles (movePaddles g)))
      (rightPaddle (clampPaddles (movePaddles g)))
      (wallCollision (ball (moveBall (clampPaddles (movePaddles g))))).
Proof. reflexivity. Qed.

Lemma ft_step_speedLaw e s : speedLaw (game s) -> speedLaw (game (step e s)).
Proof.
  intros H. pose proof H as [Hr Hs].
  assert (Hzero : forall g',
            score g' = {| Score.left := 0; Score.right := 0 |} ->
            round g' = 1%Z -> ballSpeed g' = INITIAL_BALL_SPEED -> speedLaw g').
  { intros g' E1 E2 E3. unfold speedLaw. rewrite E1, E2, E3. simpl.
    split; [reflexivity | vm_compute; reflexivity]. }
  destruct (playerEvent e) eqn:Hpe.
  { pose proof (ft_player_frame e s Hpe) as Hf. unfold matchPart in Hf.
    injection Hf as _ _ E2 E3 E4 _ _ _ _.
    unfold speedLaw. now rewrite E2, E3, E4. }
  destruct e; try discriminate Hpe; simpl.
  - destruct (gameLoop s); [| exact H].
    destruct (tick (game s)) as [g b] eqn:E.
    assert (Eg : g = (tick (game s)).1) by now rewrite E.
    simpl. subst g. clear E b.
    destruct (status_eqb (status (game s)) playing) eqn:Hst.
    + apply status_eqb_eq in Hst.
      destruct (ft_tick_match _ Hst) as [_ Hm].
      destruct (scoringSide _) as [sd |].
      * destruct Hm as (_ & E2 & E3 & E4). unfold speedLaw.
        rewrite E2, E3, E4.
        destruct (addPoint_points sd (score (game s))) as [Al Ar].
        rewrite Al, Ar.
        assert (Ec : ((Score.left (score (game s)) + (if side_eqb sd sideLeft then 1 else 0)
                      + (Score.right (score (game s))
                         + (if side_eqb sd sideRight then 1 else 0)))
                     = round (game s))%Z) by (destruct sd; simpl; lia).
        split; [destruct sd; simpl; lia |].
        rewrite Ec, inject_Z_plus. change (inject_Z 1) with 1. ring.
      * destruct Hm as (_ & E2 & E3 & E4). unfold speedLaw. now rewrite E2, E3, E4.
    + rewrite ft_tick_idle; [exact H |].
      intros A. apply status_eqb_eq in A. congruence.
  - destruct (pendingResets s); exact H.
  - destruct (_ || _); [| exact H]. now apply Hzero.
  - destruct (status_eqb _ _) eqn:E; exact H.
  - destruct (status_eqb _ _) eqn:E; exact H.
  - now apply Hzero.
  - exact H.
Qed.

(** The ball speed of a state that obeys the laws is at least the initial
    one. *)
Lemma ft_speed_floor g :
  scoreLaw g -> speedLaw g -> INITIAL_BALL_SPEED <= ballSpeed g.
Proof.
  intros (Hl & Hr & _) [_ Hs]. rewrite Hs. unfold SPEED_INCREMENT.
  assert (0 <= inject_Z (Score.left (score g) + Score.right (score g))).
  { change 0 with (inject_Z 0). rewrite <- Zle_Qle. lia. }
  lra.
Qed.

(** A tick never slows the ball speed down. *)
Lemma ft_tick_speed_grows g :
  speedLaw g -> ballSpeed g <= ballSpeed (tick g).1.
Proof.
  intros [Hr Hs].
  destruct (status_eqb (status g) playing) eqn:Hst.
  - apply status_eqb_eq in Hst.
    destruct (ft_tick_match _ Hst) as [_ Hm].
    destruct (scoringSide _) as [sd |].
    + destruct Hm as (_ & _ & _ & ->). rewrite Hs, Hr.
      rewrite !inject_Z_plus. unfold SPEED_INCREMENT.
      change (inject_Z 1) with 1. lra.
    + destruct Hm as (_ & _ & _ & ->). lra.
  - rewrite ft_tick_idle; [simpl; lra |].
    intros A. apply status_eqb_eq in A. congruence.
Qed.

Lemma ft_step_ballLaw e s :
  scoreLaw (game s) -> speedLaw (game s) -> ballLaw (game s) ->
  ballLaw (game (step e s)).
Proof.
  intros Hsc Hsp H. pose proof H as [Hy Hvx].
  pose proof (ft_speed_floor _ Hsc Hsp) as Hfloor.
  assert (Hserve : forall g' speed direction rnd,
            ball g' = servedBall speed direction rnd -> ballSpeed g' = speed ->
            INITIAL_BALL_SPEED <= speed -> direction = 1 \/ direction = -1 ->
            ballLaw g').
  { intros g' speed direction rnd E1 E2 Hf Hd. unfold ballLaw. rewrite E1, E2.
    split; [apply servedBall_inside |]. rewrite servedBall_vx.
    destruct Hd as [-> | ->]; [left | right]; split; lra. }
  destruct (playerEvent e) eqn:Hpe.
  { pose proof (ft_player_frame e s Hpe) as Hf. unfold matchPart in Hf.
    injection Hf as _ E1 _ _ E4 _ _ _ _.
    unfold ballLaw. now rewrite E1, E4. }
  destruct e; try discriminate Hpe; simpl.
  - destruct (gameLoop s); [| exact H].
    destruct (tick (game s)) as [g b] eqn:E.
    assert (Eg : g = (tick (game s)).1) by now rewrite E.
    simpl. subst g. clear E b.
    pose proof (ft_tick_speed_grows _ Hsp) as Hgrow.
    destruct (status_eqb (status (game s)) playing) eqn:Hst.
    + apply status_eqb_eq in Hst.
      destruct (ft_tick_match _ Hst) as [Eb _].
      unfold ballLaw. rewrite Eb, ft_advance_ball. split.
      * unfold ballInside. rewrite paddleCollisions_y. apply wallCollision_inside.
      * set (b := wallCollision _).
        assert (Ev : Ball.vx b = Ball.vx (ball (game s)))
          by (subst b; now rewrite wallCollision_vx).
        destruct (paddleCollisions_vx (ballSpeed (game s))
                    (leftPaddle (clampPaddles (movePaddles (game s))))
                    (rightPaddle (clampPaddles (movePaddles (game s)))) b)
          as [-> | ->]; rewrite Ev; destruct Hvx as [Hv | Hv];
          [left | right | right | left]; split; lra.
    + rewrite ft_tick_idle; [exact H |].
      intros A. apply status_eqb_eq in A. congruence.
  - destruct (pendingResets s); [exact H |].
    apply (Hserve _ (ballSpeed (game s)) (lastScorer (score (game s))) rnd);
      [reflexivity | reflexivity | exact Hfloor | apply lastScorer_cases].
  - destruct (_ || _); [| exact H].
    apply (Hserve _ INITIAL_BALL_SPEED (coin r2) r3);
      [reflexivity | reflexivity | apply Qle_refl | apply coin_cases].
  - destruct (status_eqb _ _) eqn:E; exact H.
  - destruct (status_eqb _ _) eqn:E; exact H.
  - apply (Hserve _ INITIAL_BALL_SPEED (coin r2) r3);
      [reflexivity | reflexivity | apply Qle_refl | apply coin_cases].
  - exact H.
Qed.

Lemma ft_step_steepness e s :
  fairEvent e = true ->
  scoreLaw (game s) -> speedLaw (game s) -> steepness (game s) ->
  steepness (game (step e s)).
Proof.
  intros Hfair Hsc Hsp H.
  pose proof (ft_speed_floor _ Hsc Hsp) as Hfloor. unfold INITIAL_BALL_SPEED in Hfloor.
  assert (Hserve : forall g' speed direction rnd,
            ball g' = servedBall speed direction rnd -> ballSpeed g' = speed ->
            0 <= speed -> inUnitInterval rnd = true -> steepness g').
  { intros g' speed direction rnd E1 E2 Hf Hr. unfold steepness. rewrite E1, E2.
    pose proof (servedBall_vy_range speed direction rnd Hf Hr). split; lra. }
  destruct (playerEvent e) eqn:Hpe.
  { pose proof (ft_player_frame e s Hpe) as Hf. unfold matchPart in Hf.
    injection Hf as _ E1 _ _ E4 _ _ _ _.
    unfold steepness. now rewrite E1, E4. }
  destruct e; try discriminate Hpe; simpl; simpl in Hfair.
  - destruct (gameLoop s); [| exact H].
    destruct (tick (game s)) as [g b] eqn:E.
    assert (Eg : g = (tick (game s)).1) by now rewrite E.
    simpl. subst g. clear E b.
    pose proof (ft_tick_speed_grows _ Hsp) as Hgrow.
    destruct (status_eqb (status (game s)) playing) eqn:Hst.
    + apply status_eqb_eq in Hst.
      destruct (ft_tick_match _ Hst) as [Eb _].
      unfold steepness in *. rewrite Eb, ft_advance_ball.
      set (b := wallCollision _).
      assert (Ev : - (1.25 * ballSpeed (game s)) <= Ball.vy b
                   <= 1.25 * ballSpeed (game s)).
      { subst b. destruct (wallCollision_vy
          (ball (moveBall (clampPaddles (movePaddles (game s)))))) as [-> | ->];
          simpl; lra. }
      destruct (paddleCollisions_vy (ballSpeed (game s))
                  (leftPaddle (clampPaddles (movePaddles (game s))))
                  (rightPaddle (clampPaddles (movePaddles (game s)))) b)
        as [-> | Hb]; [lra | lra | lra].
    + rewrite ft_tick_idle; [exact H |].
      intros A. apply status_eqb_eq in A. congruence.
  - destruct (pendingResets s); [exact H |].
    apply (Hserve _ (ballSpeed (game s)) (lastScorer (score (game s))) rnd);
      [reflexivity | reflexivity | lra | exact Hfair].
  - destruct (_ || _); [| exact H].
    apply andb_true_iff in Hfair as [_ Hr3].
    apply (Hserve _ INITIAL_BALL_SPEED (coin r2) r3);
      [reflexivity | reflexivity | vm_compute; discriminate | exact Hr3].
  - destruct (status_eqb _ _) eqn:E; exact H.
  - destruct (status_eqb _ _) eqn:E; exact H.
  - apply andb_true_iff in Hfair as [_ Hr3].
    apply (Hserve _ INITIAL_BALL_SPEED (coin r2) r3);
      [reflexivity | reflexivity | vm_compute; discriminate | exact Hr3].
  - exact H.
Qed.

(** *** The numbering of the players *)

Lemma ft_handlers_next e s :
  playerEvent e = true ->
  nextPlayerNumber (game (step e s))
  = match e with
    | PlayerJoin _ => (nextPlayerNumber (game s) + 1)%Z
    | _ => nextPlayerNumber (game s)
    end
  /\ maxRecentInputs (game (step e s)) = maxRecentInputs (game s).
Proof.
  intros He. destruct e; try discriminate He; simpl.
  - split; reflexivity.
  - unfold playerInput. destruct (players (game s) !! id) as [pl |]; [| now split].
    now destruct (team pl).
  - unfold playerRelease. destruct (players (game s) !! id) as [pl |]; [| now split].
    destruct (truthy (lastInput pl)); [| now split]. now destruct (team pl).
  - unfold disconnect. destruct (players (game s) !! id) as [pl |]; [| now split].
    now destruct (team pl).
Qed.

(** An event that is not a player's leaves the players and their numbering
    alone, but for [admin:resetPlayers]. *)
Lemma ft_others_ledger e s :
  playerEvent e = false -> e <> AdminResetPlayers ->
  players (game (step e s)) = players (game s) /\
  nextPlayerNumber (game (step e s)) = nextPlayerNumber (game s) /\
  maxRecentInputs (game (step e s)) = maxRecentInputs (game s).
Proof.
  intros He Hne. destruct e; try discriminate He; simpl.
  - destruct (gameLoop s); [| auto].
    destruct (tick (game s)) as [g b] eqn:E.
    assert (Eg : g = (tick (game s)).1) by now rewrite E.
    simpl. subst g.
    pose proof (ft_tick_ledger (game s)) as Hl. unfold ledgerPart in Hl.
    injection Hl as E1 E2 _ E4 _ _ _ _. auto.
  - destruct (pendingResets s); auto.
  - destruct (_ || _); auto.
  - destruct (status_eqb _ _); auto.
  - destruct (status_eqb _ _); auto.
  - auto.
  - congruence.
Qed.

(** The players of [g'] are players of [g], with their numbers and teams. *)
Lemma ft_roster_inherit g g' :
  rosterLaw g ->
  nextPlayerNumber g' = nextPlayerNumber g ->
  (forall id p', players g' !! id = Some p' ->
     exists p, players g !! id = Some p /\ number p' = number p /\ team p' = team p) ->
  rosterLaw g'.
Proof.
  intros (H1 & H2 & H3) En Hsub. unfold rosterLaw. rewrite En.
  split; [exact H1 | split].
  - intros id p' Hp'. destruct (Hsub _ _ Hp') as (p & Hp & -> & ->). now apply (H2 id).
  - intros i j p' q' Hp' Hq' E.
    destruct (Hsub _ _ Hp') as (p & Hp & Ep & _).
    destruct (Hsub _ _ Hq') as (q & Hq & Eq & _).
    apply (H3 i j p q Hp Hq). congruence.
Qed.

Lemma ft_step_rosterLaw e s : rosterLaw (game s) -> rosterLaw (game (step e s)).
Proof.
  intros H. pose proof H as (H1 & H2 & H3).
  destruct (playerEvent e) eqn:Hpe.
  - destruct e; try discriminate Hpe; simpl.
    + (* join *)
      unfold playerJoin, rosterLaw. simpl.
      set (n := nextPlayerNumber (game s)) in *.
      split; [lia | split].
      * intros i p Hp. apply lookup_insert_Some in Hp as [[_ <-] | [_ Hp]]; simpl.
        -- split; [lia |]. now rewrite rem2_even by lia.
        -- destruct (H2 _ _ Hp) as [Hr Ht]. split; [lia | exact Ht].
      * intros i j p q Hp Hq E.
        apply lookup_insert_Some in Hp as [[Ei <-] | [Ni Hp]];
          apply lookup_insert_Some in Hq as [[Ej <-] | [Nj Hq]].
        -- congruence.
        -- simpl in E. destruct (H2 _ _ Hq) as [Hr _]. lia.
        -- simpl in E. destruct (H2 _ _ Hp) as [Hr _]. lia.
        -- now apply (H3 i j p q).
    + (* input *)
      destruct (players (game s) !! id) as [pl |] eqn:Hid;
        [| now rewrite ft_playerInput_absent].
      apply (ft_roster_inherit (game s)); [exact H | |].
      * unfold playerInput. rewrite Hid. now destruct (team pl).
      * intros i p'. rewrite (ft_playerInput_players _ _ _ _ _ _ Hid).
        intros Hp. apply lookup_insert_Some in Hp as [[<- <-] | [_ Hp]]; eauto.
    + (* release *)
      destruct (players (game s) !! id) as [pl |] eqn:Hid;
        [| unfold playerRelease; now rewrite Hid].
      destruct (truthy (lastInput pl)) eqn:Ht;
        [| now rewrite (ft_playerRelease_idle _ _ _ Hid Ht)].
      apply (ft_roster_inherit (game s)); [exact H | |].
      * unfold playerRelease. rewrite Hid, Ht. now destruct (team pl).
      * intros i p'. rewrite (ft_playerRelease_players _ _ _ Hid Ht).
        intros Hp. apply lookup_insert_Some in Hp as [[<- <-] | [_ Hp]]; eauto.
    + (* disconnect *)
      destruct (players (game s) !! id) as [pl |] eqn:Hid;
        [| unfold disconnect; now rewrite Hid].
      apply (ft_roster_inherit (game s)); [exact H | |].
      * unfold disconnect. rewrite Hid. now destruct (team pl).
      * intros i p'. rewrite (ft_disconnect_players _ _ _ Hid).
        intros Hp. apply lookup_delete_Some in Hp as [_ Hp]. eauto.
  - assert (Hcase : e = AdminResetPlayers \/ e <> AdminResetPlayers)
      by (destruct e; (now left) || (right; discriminate)).
    destruct Hcase as [-> | Hne].
    + unfold rosterLaw. simpl. split; [lia | split].
      * intros i p Hp. now rewrite lookup_empty in Hp.
      * intros i j p q Hp. now rewrite lookup_empty in Hp.
    + destruct (ft_others_ledger e s Hpe Hne) as (E1 & E2 & _).
      apply (ft_roster_inherit (game s)); [exact H | exact E2 |].
      intros i p'. rewrite E1. eauto.
Qed.

(** *** The log and the tallies *)

Lemma ft_step_log e s :
  maxRecentInputs (game s) = 20%nat /\
  (length (recentInputs (game s)) <= 20)%nat ->
  maxRecentInputs (game (step e s)) = 20%nat /\
  (length (recentInputs (game (step e s))) <= 20)%nat.
Proof.
  intros [Hm Hl]. pose proof (conj Hm Hl) as H.
  destruct e; simpl.
  - destruct (gameLoop s); [| exact H].
    destruct (tick (game s)) as [g b] eqn:E.
    assert (Eg : g = (tick (game s)).1) by now rewrite E.
    simpl. subst g.
    pose proof (ft_tick_ledger (game s)) as Hf. unfold ledgerPart in Hf.
    injection Hf as _ _ E3 E4 _ _ _ _. now rewrite E3, E4.
  - destruct (pendingResets s); exact H.
  - exact H.
  - destruct (players (game s) !! id) as [pl |] eqn:Hid;
      [| now rewrite ft_playerInput_absent].
    rewrite (ft_playerInput_log _ _ _ _ _ _ Hid).
    split.
    + unfold playerInput. rewrite Hid. now destruct (team pl).
    + rewrite Hm. apply logInput_length. exact Hl.
  - unfold playerRelease. destruct (players (game s) !! id) as [pl |]; [| exact H].
    destruct (truthy (lastInput pl)); [| exact H]. now destruct (team pl).
  - unfold disconnect. destruct (players (game s) !! id) as [pl |]; [| exact H].
    now destruct (team pl).
  - destruct (_ || _); [| exact H]. split; [exact Hm | simpl; lia].
  - destruct (status_eqb _ _); exact H.
  - destruct (status_eqb _ _); exact H.
  - split; [exact Hm | simpl; lia].
  - split; [exact Hm | simpl; lia].
Qed.

Lemma ft_step_backed e s :
  freshJoin e s = true -> backed (game s) -> backed (game (step e s)).
Proof.
  intros Hfresh Hg.
  assert (Hzero : forall g',
            (forall t, Paddle.upVotes (paddleOf t g') = 0%Z /\
                       Paddle.downVotes (paddleOf t g') = 0%Z) -> backed g').
  { intros g' Hz t. destruct (Hz t) as [-> ->]. lia. }
  destruct e; simpl; simpl in Hfresh.
  - destruct (gameLoop s); [| exact Hg].
    destruct (tick (game s)) as [g b] eqn:E.
    assert (Eg : g = (tick (game s)).1) by now rewrite E.
    simpl. subst g.
    pose proof (ft_tick_ledger (game s)) as Hf. unfold ledgerPart in Hf.
    injection Hf as E1 _ _ _ E5 E6 E7 E8.
    intros t. unfold backed in Hg. specialize (Hg t). rewrite E1.
    destruct t; simpl in *; [rewrite E5, E6 | rewrite E7, E8]; exact Hg.
  - destruct (pendingResets s); [exact Hg |]. apply Hzero. now intros [].
  - apply bool_decide_eq_true in Hfresh.
    intros t. destruct (Hg t) as [Hu Hd].
    unfold playerJoin, holders in *. simpl.
    rewrite !count_insert_fresh by exact Hfresh.
    unfold votesFor; simpl. rewrite !andb_false_r. simpl. rewrite !Nat.add_0_r.
    destruct t; simpl in *; auto.
  - intros t.
    destruct (players (game s) !! id) as [pl |] eqn:Hid;
      [| rewrite ft_playerInput_absent by exact Hid; apply Hg].
    destruct (Hg t) as [Hu Hd].
    rewrite (ft_playerInput_players _ _ _ _ _ _ Hid),
      (ft_playerInput_paddle _ _ _ _ _ _ t Hid).
    set (pl' := mkPlayer _ _ _ _).
    destruct (ft_holders_replace _ _ _ pl' t "up" Hid) as [Cu Bu].
    destruct (ft_holders_replace _ _ _ pl' t "down" Hid) as [Cd Bd].
    destruct (side_eqb (team pl) t) eqn:Et; ft_held Et.
    + rewrite addVote_up, addVote_down, retractVote_up, retractVote_down.
      split; eapply tally_bound_replace; eassumption.
    + split; lia.
  - intros t.
    destruct (players (game s) !! id) as [pl |] eqn:Hid;
      [| unfold playerRelease; rewrite Hid; apply Hg].
    destruct (truthy (lastInput pl)) eqn:Ht;
      [| rewrite (ft_playerRelease_idle _ _ _ Hid Ht); apply Hg].
    destruct (Hg t) as [Hu Hd].
    rewrite (ft_playerRelease_players _ _ _ Hid Ht),
      (ft_playerRelease_paddle _ _ _ t Hid Ht).
    set (pl' := mkPlayer _ _ _ _).
    destruct (ft_holders_replace _ _ _ pl' t "up" Hid) as [Cu _].
    destruct (ft_holders_replace _ _ _ pl' t "down" Hid) as [Cd _].
    destruct (side_eqb (team pl) t) eqn:Et; ft_held Et.
    + rewrite retractVote_up, retractVote_down.
      split; eapply tally_bound_retract; try eassumption; lia.
    + split; lia.
  - intros t.
    destruct (players (game s) !! id) as [pl |] eqn:Hid;
      [| unfold disconnect; rewrite Hid; apply Hg].
    destruct (Hg t) as [Hu Hd].
    rewrite (ft_disconnect_players _ _ _ Hid), (ft_disconnect_paddle _ _ _ t Hid).
    pose proof (ft_holders_remove _ _ _ t "up" Hid) as Du.
    pose proof (ft_holders_remove _ _ _ t "down" Hid) as Dd.
    destruct (side_eqb (team pl) t) eqn:Et; ft_held Et.
    + rewrite retractVote_up, retractVote_down.
      split; eapply tally_bound_retract; eassumption.
    + split; lia.
  - destruct (_ || _); [| exact Hg]. apply Hzero. now intros [].
  - destruct (status_eqb _ _); exact Hg.
  - destruct (status_eqb _ _); exact Hg.
  - apply Hzero. now intros [].
  - intros t. simpl. unfold holders. rewrite !count_empty. destruct t; simpl; lia.
Qed.

(** *** The teams *)

Lemma ft_teamCount_replace ps id pl pl' t g g' :
  players g = ps -> players g' = <[id := pl']> ps ->
  ps !! id = Some pl -> team pl' = team pl ->
  teamCount t g' = teamCount t g /\ size (players g') = size (players g).
Proof.
  intros E E' Hid Ht. unfold teamCount. rewrite E, E'. split.
  - pose proof (count_insert (fun p => side_eqb (team p) t) ps id pl pl' Hid) as C.
    cbv beta in C. rewrite Ht in C. lia.
  - now rewrite map_size_insert_Some.
Qed.

Lemma ft_step_teams e s :
  freshJoin e s = true -> staysConnected e = true ->
  (1 <= nextPlayerNumber (game s))%Z ->
  (Z.of_nat (size (players (game s))) = nextPlayerNumber (game s) - 1 /\
   Z.of_nat (teamCount sideLeft (game s)) = (nextPlayerNumber (game s) - 1) / 2 /\
   Z.of_nat (teamCount sideRight (game s)) = nextPlayerNumber (game s) / 2)%Z ->
  (Z.of_nat (size (players (game (step e s)))) = nextPlayerNumber (game (step e s)) - 1 /\
   Z.of_nat (teamCount sideLeft (game (step e s)))
   = (nextPlayerNumber (game (step e s)) - 1) / 2 /\
   Z.of_nat (teamCount sideRight (game (step e s)))
   = nextPlayerNumber (game (step e s)) / 2)%Z.
Proof.
  intros Hfresh Hconn Hn H.
  assert (Hsame : forall g', players g' = players (game s) ->
            nextPlayerNumber g' = nextPlayerNumber (game s) ->
            (Z.of_nat (size (players g')) = nextPlayerNumber g' - 1 /\
             Z.of_nat (teamCount sideLeft g') = (nextPlayerNumber g' - 1) / 2 /\
             Z.of_nat (teamCount sideRight g') = nextPlayerNumber g' / 2)%Z).
  { intros g' E1 E2. unfold teamCount in *. now rewrite E1, E2. }
  destruct (playerEvent e) eqn:Hpe.
  - destruct e; try discriminate Hpe; try discriminate Hconn; simpl; simpl in Hfresh.
    + apply bool_decide_eq_true in Hfresh.
      destruct H as (Hs & Hl & Hr).
      unfold playerJoin, teamCount in *. simpl.
      rewrite map_size_insert_None by exact Hfresh.
      rewrite !count_insert_fresh by exact Hfresh. simpl.
      set (n := nextPlayerNumber (game s)) in *.
      rewrite rem2_even by lia. rewrite Zeven_mod.
      destruct (n mod 2 =? 0)%Z eqn:E; simpl;
        [apply Z.eqb_eq in E | apply Z.eqb_neq in E];
        rewrite !Nat2Z.inj_add; clear Hsame; clearbody n; simpl;
        Z.to_euclidean_division_equations; lia.
    + destruct (players (game s) !! id) as [pl |] eqn:Hid;
        [| rewrite ft_playerInput_absent by exact Hid; exact H].
      assert (En : nextPlayerNumber (playerInput id direction t1 t2 (game s))
                   = nextPlayerNumber (game s)).
      { unfold playerInput. rewrite Hid. now destruct (team pl). }
      rewrite En.
      destruct (ft_teamCount_replace _ id pl _ sideLeft (game s)
                  (playerInput id direction t1 t2 (game s)) eq_refl
                  (ft_playerInput_players _ _ _ _ _ _ Hid) Hid eq_refl) as [-> ->].
      destruct (ft_teamCount_replace _ id pl _ sideRight (game s)
                  (playerInput id direction t1 t2 (game s)) eq_refl
                  (ft_playerInput_players _ _ _ _ _ _ Hid) Hid eq_refl) as [-> _].
      exact H.
    + destruct (players (game s) !! id) as [pl |] eqn:Hid;
        [| unfold playerRelease; rewrite Hid; exact H].
      destruct (truthy (lastInput pl)) eqn:Ht;
        [| rewrite (ft_playerRelease_idle _ _ _ Hid Ht); exact H].
      assert (En : nextPlayerNumber (playerRelease id (game s))
                   = nextPlayerNumber (game s)).
      { unfold playerRelease. rewrite Hid, Ht. now destruct (team pl). }
      rewrite En.
      destruct (ft_teamCount_replace _ id pl _ sideLeft (game s)
                  (playerRelease id (game s)) eq_refl
                  (ft_playerRelease_players _ _ _ Hid Ht) Hid eq_refl) as [-> ->].
      destruct (ft_teamCount_replace _ id pl _ sideRight (game s)
                  (playerRelease id (game s)) eq_refl
                  (ft_playerRelease_players _ _ _ Hid Ht) Hid eq_refl) as [-> _].
      exact H.
  - assert (Hcase : e = AdminResetPlayers \/ e <> AdminResetPlayers)
      by (destruct e; (now left) || (right; discriminate)).
    destruct Hcase as [-> | Hne].
    + unfold teamCount. simpl. rewrite !count_empty, map_size_empty. simpl.
      repeat split.
    + destruct (ft_others_ledger e s Hpe Hne) as (E1 & E2 & _).
      now apply Hsame.
Qed.

(** *** Runs *)

Lemma ft_run_app evs evs' s : run (evs ++ evs') s = run evs' (run evs s).
Proof. unfold run. apply fold_left_app. Qed.

Lemma ft_run_invariant (P : server -> Prop) :
  (forall e s, P s -> P (step e s)) ->
  forall evs s, P s -> P (run evs s).
Proof.
  intros Hstep evs. induction evs as [| e evs IH]; intros s Hs; [exact Hs |].
  simpl. apply IH, Hstep, Hs.
Qed.

Lemma ft_run_invariant_fair (P : server -> Prop) :
  (forall e s, fairEvent e = true -> P s -> P (step e s)) ->
  forall evs s, forallb fairEvent evs = true -> P s -> P (run evs s).
Proof.
  intros Hstep evs. induction evs as [| e evs IH]; intros s Hf Hs; [exact Hs |].
  simpl in Hf. apply andb_true_iff in Hf as [He Hf].
  simpl. apply IH; [exact Hf |]. now apply Hstep.
Qed.

Lemma ft_run_invariant_fresh (P : server -> Prop) :
  (forall e s, freshJoin e s = true -> P s -> P (step e s)) ->
  forall evs s, freshJoins evs s = true -> P s -> P (run evs s).
Proof.
  intros Hstep evs. induction evs as [| e evs IH]; intros s Hf Hs; [exact Hs |].
  simpl in Hf. apply andb_true_iff in Hf as [He Hf].
  simpl. apply IH; [exact Hf |]. now apply Hstep.
Qed.

Lemma ft_initial_laws rnd :
  scoreLaw (initialState rnd) /\ speedLaw (initialState rnd) /\
  ballLaw (initialState rnd) /\ steepness (initialState rnd).
Proof.
  split; [| split; [| split]].
  - unfold scoreLaw, WINNING_SCORE. simpl.
    split; [lia | split; [lia | split; [lia |]]].
    split; [discriminate | intros [A | A]; discriminate A].
  - split; [reflexivity | vm_compute; reflexivity].
  - split; [split; vm_compute; discriminate |].
    left. split; vm_compute; discriminate.
  - unfold steepness. simpl. unfold INITIAL_BALL_SPEED.
    destruct (coin_cases rnd) as [-> | ->]; split; lra.
Qed.

Lemma ft_reachable_laws evs rnd :
  scoreLaw (game (run evs (boot rnd))) /\ speedLaw (game (run evs (boot rnd))) /\
  ballLaw (game (run evs (boot rnd))).
Proof.
  apply (ft_run_invariant
           (fun s => scoreLaw (game s) /\ speedLaw (game s) /\ ballLaw (game s))).
  - intros e s (H1 & H2 & H3).
    split; [now apply ft_step_scoreLaw | split; [now apply ft_step_speedLaw |]].
    now apply ft_step_ballLaw.
  - destruct (ft_initial_laws rnd) as (H1 & H2 & H3 & _). auto.
Qed.

Lemma ft_reachable_steepness evs rnd :
  forallb fairEvent evs = true -> steepness (game (run evs (boot rnd))).
Proof.
  intros Hf.
  apply (ft_run_invariant_fair
           (fun s => scoreLaw (game s) /\ speedLaw (game s) /\ steepness (game s)));
    [| exact Hf |].
  - intros e s He (H1 & H2 & H3).
    split; [now apply ft_step_scoreLaw | split; [now apply ft_step_speedLaw |]].
    now apply ft_step_steepness.
  - destruct (ft_initial_laws rnd) as (H1 & H2 & _ & H4). auto.
Qed.

Lemma ft_initial_roster rnd : rosterLaw (initialState rnd).
Proof.
  unfold rosterLaw. simpl. split; [lia | split].
  - intros i p Hp. now rewrite lookup_empty in Hp.
  - intros i j p q Hp. now rewrite lookup_empty in Hp.
Qed.

Lemma ft_reachable_roster evs rnd : rosterLaw (game (run evs (boot rnd))).
Proof.
  apply (ft_run_invariant (fun s => rosterLaw (game s)));
    [apply ft_step_rosterLaw | apply ft_initial_roster].
Qed.

Lemma ft_reachable_log evs rnd :
  maxRecentInputs (game (run evs (boot rnd))) = 20%nat /\
  (length (recentInputs (game (run evs (boot rnd)))) <= 20)%nat.
Proof.
  apply (ft_run_invariant
           (fun s => maxRecentInputs (game s) = 20%nat /\
                     (length (recentInputs (game s)) <= 20)%nat));
    [apply ft_step_log | simpl; split; [reflexivity | lia]].
Qed.

Lemma ft_reachable_backed evs rnd :
  freshJoins evs (boot rnd) = true -> backed (game (run evs (boot rnd))).
Proof.
  intros Hf.
  apply (ft_run_invariant_fresh (fun s => backed (game s)));
    [apply ft_step_backed | exact Hf |].
  intros t. simpl. unfold holders. rewrite !count_empty. destruct t; simpl; lia.
Qed.

(** *** Paddles, pause, status and reset *)

Lemma ft_tick_paddle_step g t :
  sound g ->
  - PADDLE_SPEED <= Paddle.y (paddleOf t (tick g).1) - Paddle.y (paddleOf t g)
  <= PADDLE_SPEED.
Proof.
  intros (Hp & _). destruct (Hp t) as [Hn Hi].
  unfold tick. destruct (negb _).
  - simpl. unfold PADDLE_SPEED. split; lra.
  - rewrite ft_scoreDetection_paddles, ft_advance_paddle.
    apply clamp_step; [exact Hi |].
    apply move_bounds; [vm_compute; discriminate | exact Hn].
Qed.

Lemma ft_reachable_teams evs rnd :
  freshJoins evs (boot rnd) = true -> forallb staysConnected evs = true ->
  let g := game (run evs (boot rnd)) in
  (Z.of_nat (size (players g)) = nextPlayerNumber g - 1 /\
   Z.of_nat (teamCount sideLeft g) = (nextPlayerNumber g - 1) / 2 /\
   Z.of_nat (teamCount sideRight g) = nextPlayerNumber g / 2)%Z.
Proof.
  intros Hf Hc. cbv zeta.
  assert (H : forall evs s,
            freshJoins evs s = true -> forallb staysConnected evs = true ->
            rosterLaw (game s) ->
            (Z.of_nat (size (players (game s))) = nextPlayerNumber (game s) - 1 /\
             Z.of_nat (teamCount sideLeft (game s)) = (nextPlayerNumber (game s) - 1) / 2 /\
             Z.of_nat (teamCount sideRight (game s)) = nextPlayerNumber (game s) / 2)%Z ->
            (Z.of_nat (size (players (game (run evs s))))
             = nextPlayerNumber (game (run evs s)) - 1 /\
             Z.of_nat (teamCount sideLeft (game (run evs s)))
             = (nextPlayerNumber (game (run evs s)) - 1) / 2 /\
             Z.of_nat (teamCount sideRight (game (run evs s)))
             = nextPlayerNumber (game (run evs s)) / 2)%Z).
  { clear. intros evs. induction evs as [| e evs IH]; intros s Hf Hc Hr H; [exact H |].
    simpl in Hf, Hc. apply andb_true_iff in Hf as [He Hf].
    apply andb_true_iff in Hc as [Hce Hc].
    simpl. apply IH; [exact Hf | exact Hc | now apply ft_step_rosterLaw |].
    apply ft_step_teams; [exact He | exact Hce | apply Hr | exact H]. }
  apply H; [exact Hf | exact Hc | apply ft_initial_roster |].
  unfold teamCount. simpl. rewrite !count_empty, map_size_empty. repeat split.
Qed.

Lemma ft_tick_noop s : status (game s) <> playing -> step IntervalTick s = s.
Proof.
  intros H. destruct s as [g l p]. simpl in *.
  destruct l; [| reflexivity]. now rewrite ft_tick_idle.
Qed.

Lemma ft_run_cons e evs s : run (e :: evs) s = run evs (step e s).
Proof. reflexivity. Qed.

Lemma ft_ticks_noop n s :
  status (game s) <> playing -> run (repeat IntervalTick n) s = s.
Proof.
  intros H. induction n as [| n IH]; [reflexivity |].
  cbn [repeat]. now rewrite ft_run_cons, ft_tick_noop.
Qed.

Lemma ft_pause_resume s n :
  status (game s) = playing ->
  run (AdminPause :: repeat IntervalTick n ++ [AdminResume]) s = s.
Proof.
  intros Hst. rewrite ft_run_cons, ft_run_app.
  assert (Ep : step AdminPause s = set_game (set_status paused (game s)) s)
    by (simpl; now rewrite Hst).
  rewrite Ep, ft_ticks_noop by discriminate.
  destruct s as [g l p]. destruct g. simpl in *. now subst.
Qed.

Lemma ft_step_status e s :
  status (game (step e s)) = status (game s) \/
  allowedMove e (status (game s)) (status (game (step e s))) = true.
Proof.
  destruct (playerEvent e) eqn:Hpe.
  { left. pose proof (ft_player_frame e s Hpe) as Hf. unfold matchPart in Hf.
    now injection Hf as E1 _ _ _ _ _ _ _ _. }
  destruct e; try discriminate Hpe; simpl.
  - destruct (gameLoop s); [| now left].
    destruct (tick (game s)) as [g b] eqn:E.
    assert (Eg : g = (tick (game s)).1) by now rewrite E.
    simpl. subst g.
    destruct (status_eqb (status (game s)) playing) eqn:Hst.
    + apply status_eqb_eq in Hst.
      destruct (ft_tick_match _ Hst) as [_ Hm]. rewrite Hst.
      destruct (scoringSide _) as [sd |].
      * destruct Hm as (-> & _). destruct (hasWinner _); [now right | now left].
      * destruct Hm as (-> & _). now left.
    + left. rewrite ft_tick_idle; [reflexivity |].
      intros A. apply status_eqb_eq in A. congruence.
  - left. now destruct (pendingResets s).
  - destruct (status (game s)) eqn:E; simpl; rewrite ?E; auto.
  - destruct (status (game s)) eqn:E; simpl; rewrite ?E; auto.
  - destruct (status (game s)) eqn:E; simpl; rewrite ?E; auto.
  - right. now destruct (status (game s)).
  - now left.
Qed.

Lemma ft_full_reset s r1 r2 r3 rnd :
  maxRecentInputs (game s) = 20%nat ->
  game (step AdminResetPlayers (step (AdminReset r1 r2 r3) s))
  = set_ball (servedBall INITIAL_BALL_SPEED (coin r2) r3) (initialState rnd).
Proof.
  intros Hm. destruct s as [g l p]. destruct g. simpl in *. now subst.
Qed.

(** The tick announces the end of the match exactly when it ends it, and
    names the side that has just reached the winning score. *)
Lemma ft_finished_emitted g w sc :
  scoreLaw g ->
  In (GameFinished w sc) (tickEmits g) <->
  status g = playing /\ status (tick g).1 = finished /\ sc = score (tick g).1 /\
  pointsOf w sc = WINNING_SCORE /\ (pointsOf (otherSide w) sc < WINNING_SCORE)%Z.
Proof.
  intros (Hl & Hr & Hboth & Hfin). unfold tickEmits.
  destruct (status_eqb (status g) playing) eqn:Hst; cbn [negb].
  2:{ split; [intros [] | intros (A & _)].
      apply status_eqb_eq in A. congruence. }
  apply status_eqb_eq in Hst.
  assert (Hlt : (Score.left (score g) < 7)%Z /\ (Score.right (score g) < 7)%Z).
  { unfold WINNING_SCORE in *. split.
    - destruct (Z.eq_dec (Score.left (score g)) 7%Z) as [A |]; [| lia].
      assert (status g = finished) by (apply Hfin; now left). congruence.
    - destruct (Z.eq_dec (Score.right (score g)) 7%Z) as [A |]; [| lia].
      assert (status g = finished) by (apply Hfin; now right). congruence. }
  destruct (ft_tick_match _ Hst) as [_ Hm].
  rewrite (ft_tick_playing _ Hst) in Hm.
  rewrite (ft_tick_playing _ Hst). cbv zeta.
  set (g2 := (scoreDetection (advance g)).1) in *.
  destruct (scoringSide (ball (advance g))) as [sd |]; clearbody g2.
  - destruct Hm as (E1 & E2 & _). unfold scoredEmits.
    rewrite E1, E2.
    destruct (addPoint_points sd (score g)) as [Al Ar].
    destruct (hasWinner (addPoint sd (score g))) eqn:Hw.
    + apply hasWinner_iff in Hw. unfold WINNING_SCORE in *.
      assert (Ew : winnerOf (addPoint sd (score g)) = sd
                   /\ pointsOf sd (addPoint sd (score g)) = 7%Z
                   /\ (pointsOf (otherSide sd) (addPoint sd (score g)) < 7)%Z).
      { unfold winnerOf, WINNING_SCORE. rewrite Al, Ar in Hw.
        destruct sd; simpl in *.
        - destruct (7 <=? Score.left (score g) + 1)%Z eqn:E;
            [| apply Z.leb_gt in E]; repeat split; lia.
        - destruct (7 <=? Score.left (score g))%Z eqn:E;
            [apply Z.leb_le in E | ]; repeat split; lia. }
      destruct Ew as (Ew & Ep & Eo). rewrite Ew. simpl. split.
      * intros [A | [A | [A | []]]]; try discriminate A.
        injection A as <- <-. auto.
      * intros (_ & _ & -> & Hp & Ho). left.
        destruct w, sd; simpl in *; try reflexivity; lia.
    + simpl. split.
      * intros [A | [A | []]]; discriminate A.
      * intros (_ & A & _). discriminate A.
  - destruct Hm as (E1 & _). simpl. split.
    + intros [A | []]. discriminate A.
    + intros (_ & A & _). congruence.
Qed.

Lemma ft_scored_emitted g sc r :
  In (FixedTeam.GameScored sc r) (FixedTeam.tickEmits g) <->
  FixedTeam.status g = playing /\
  FixedTeam.score (FixedTeam.tick g).1 <> FixedTeam.score g /\
  sc = FixedTeam.score (FixedTeam.tick g).1 /\
  r = FixedTeam.round (FixedTeam.tick g).1.
Proof.
  unfold FixedTeam.tickEmits.
  destruct (status_eqb (FixedTeam.status g) playing) eqn:Hst; cbn [negb].
  2:{ split; [intros [] | intros (A & _)].
      apply status_eqb_eq in A. congruence. }
  apply status_eqb_eq in Hst.
  destruct (ft_tick_match _ Hst) as [_ Hm].
  rewrite (ft_tick_playing _ Hst) in Hm.
  rewrite (ft_tick_playing _ Hst). cbv zeta.
  set (g2 := (FixedTeam.scoreDetection (FixedTeam.advance g)).1) in *.
  clearbody g2.
  destruct (scoringSide (FixedTeam.ball (FixedTeam.advance g))) as [sd |].
  - destruct Hm as (_ & E2 & _). unfold FixedTeam.scoredEmits.
    rewrite !in_app_iff. split.
    + intros [[A | A] | A].
      * destruct (hasWinner _); [destruct A as [A | []]; discriminate A | destruct A].
      * destruct A as [A | []]. injection A as <- <-.
        rewrite E2. split; [exact Hst | split; [apply addPoint_changes | auto]].
      * destruct A as [A | []]. discriminate A.
    + intros (_ & _ & -> & ->). left; right. now left.
  - destruct Hm as (_ & E2 & _). cbn [app In]. split.
    + intros [A | []]. discriminate A.
    + intros (_ & A & _). congruence.
Qed.

(** *** A socket without a player *)

Lemma ft_unknown_socket e s id :
  players (game s) !! id = None -> fromSocket id e = true -> joinOf id e = false ->
  step e s = s.
Proof.
  intros H Hf Hj. destruct s as [g l p]. simpl in H.
  destruct e; try discriminate Hf; simpl in Hf, Hj.
  - congruence.
  - apply String.eqb_eq in Hf. subst id0.
    unfold step, set_game, playerInput. simpl. now rewrite H.
  - apply String.eqb_eq in Hf. subst id0.
    unfold step, set_game, playerRelease. simpl. now rewrite H.
  - apply String.eqb_eq in Hf. subst id0.
    unfold step, set_game, disconnect. simpl. now rewrite H.
Qed.

Lemma ft_stays_unknown e s id :
  players (game s) !! id = None -> fromSocket id e = false ->
  players (game (step e s)) !! id = None.
Proof.
  intros H Hf.
  destruct (playerEvent e) eqn:Hpe.
  - destruct e; try discriminate Hpe; simpl in Hf; apply String.eqb_neq in Hf; simpl.
    + unfold playerJoin. simpl. now rewrite lookup_insert_ne.
    + destruct (players (game s) !! id0) as [pl |] eqn:Hid;
        [| now rewrite ft_playerInput_absent].
      rewrite (ft_playerInput_players _ _ _ _ _ _ Hid). now rewrite lookup_insert_ne.
    + destruct (players (game s) !! id0) as [pl |] eqn:Hid;
        [| unfold playerRelease; now rewrite Hid].
      destruct (truthy (lastInput pl)) eqn:Ht;
        [| now rewrite (ft_playerRelease_idle _ _ _ Hid Ht)].
      rewrite (ft_playerRelease_players _ _ _ Hid Ht). now rewrite lookup_insert_ne.
    + destruct (players (game s) !! id0) as [pl |] eqn:Hid;
        [| unfold disconnect; now rewrite Hid].
      rewrite (ft_disconnect_players _ _ _ Hid). now rewrite lookup_delete_ne.
  - assert (Hcase : e = AdminResetPlayers \/ e <> AdminResetPlayers)
      by (destruct e; (now left) || (right; discriminate)).
    destruct Hcase as [-> | Hne]; [apply lookup_empty |].
    destruct (ft_others_ledger e s Hpe Hne) as (-> & _). exact H.
Qed.

Lemma ft_socket_has_no_say id evs s :
  players (game s) !! id = None ->
  forallb (fun e => negb (joinOf id e)) evs = true ->
  run evs s = run (List.filter (fun e => negb (fromSocket id e)) evs) s.
Proof.
  revert s. induction evs as [| e evs IH]; intros s H Hj; [reflexivity |].
  simpl in Hj. apply andb_true_iff in Hj as [He Hj]. apply negb_true_iff in He.
  cbn [List.filter]. destruct (fromSocket id e) eqn:Hf; cbn [negb].
  - rewrite ft_run_cons, (ft_unknown_socket e s id H Hf He). now apply IH.
  - rewrite !ft_run_cons. apply IH; [| exact Hj]. now apply ft_stays_unknown.
Qed.

(** *** The log and the score along a run *)

Lemma ft_log_history evs s log :
  maxRecentInputs (game s) = 20%nat ->
  recentInputs (game s) = firstn 20 log ->
  recentInputs (game (run evs s)) = firstn 20 (accepted evs s log).
Proof.
  revert s log. induction evs as [| e evs IH]; intros s log Hm Hl; [exact Hl |].
  rewrite ft_run_cons. cbn [accepted]. apply IH.
  - destruct (playerEvent e) eqn:Hpe.
    + destruct (ft_handlers_next e s Hpe) as [_ ->]. exact Hm.
    + assert (Hcase : e = AdminResetPlayers \/ e <> AdminResetPlayers)
        by (destruct e; (now left) || (right; discriminate)).
      destruct Hcase as [-> | Hne]; [exact Hm |].
      destruct (ft_others_ledger e s Hpe Hne) as (_ & _ & ->). exact Hm.
  - destruct e; simpl.
    + destruct (gameLoop s); [| exact Hl].
      destruct (tick (game s)) as [g b] eqn:E.
      assert (Eg : g = (tick (game s)).1) by now rewrite E.
      simpl. subst g.
      pose proof (ft_tick_ledger (game s)) as Hf. unfold ledgerPart in Hf.
      injection Hf as _ _ E3 _ _ _ _ _. now rewrite E3.
    + destruct (pendingResets s); exact Hl.
    + exact Hl.
    + destruct (players (game s) !! id) as [pl |] eqn:Hid;
        [| now rewrite ft_playerInput_absent].
      rewrite (ft_playerInput_log _ _ _ _ _ _ Hid), Hm, Hl. apply logInput_latest.
    + unfold playerRelease. destruct (players (game s) !! id) as [pl |]; [| exact Hl].
      destruct (truthy (lastInput pl)); [| exact Hl]. now destruct (team pl).
    + unfold disconnect. destruct (players (game s) !! id) as [pl |]; [| exact Hl].
      now destruct (team pl).
    + destruct (_ || _); [reflexivity | exact Hl].
    + destruct (status_eqb _ _); exact Hl.
    + destruct (status_eqb _ _); exact Hl.
    + reflexivity.
    + reflexivity.
Qed.

(** The score changes by a tick, one point at a time, or goes back to 0-0. *)
Lemma ft_step_score e s :
  score (game (step e s)) = score (game s) \/
  (e = IntervalTick /\ status (game s) = playing /\
   exists sd, score (game (step e s)) = addPoint sd (score (game s))) \/
  ((exists r1 r2 r3, e = AdminStart r1 r2 r3 \/ e = AdminReset r1 r2 r3) /\
   score (game (step e s)) = {| Score.left := 0; Score.right := 0 |}).
Proof.
  destruct (playerEvent e) eqn:Hpe.
  { left. pose proof (ft_player_frame e s Hpe) as Hf. unfold matchPart in Hf.
    now injection Hf as _ _ E _ _ _ _ _ _. }
  destruct e; try discriminate Hpe; simpl.
  - destruct (gameLoop s); [| now left].
    destruct (tick (game s)) as [g b] eqn:E.
    assert (Eg : g = (tick (game s)).1) by now rewrite E.
    simpl. subst g.
    destruct (status_eqb (status (game s)) playing) eqn:Hst.
    + apply status_eqb_eq in Hst.
      destruct (ft_tick_match _ Hst) as [_ Hm].
      destruct (scoringSide _) as [sd |].
      * destruct Hm as (_ & -> & _). right; left. eauto.
      * destruct Hm as (_ & -> & _). now left.
    + left. rewrite ft_tick_idle; [reflexivity |].
      intros A. apply status_eqb_eq in A. congruence.
  - left. now destruct (pendingResets s).
  - destruct (_ || _); [| now left]. right; right. split; [eauto | reflexivity].
  - left. now destruct (status_eqb _ _).
  - left. now destruct (status_eqb _ _).
  - right; right. split; [eauto | reflexivity].
  - now left.
Qed.

(** *** Votes that follow one another *)

Lemma ft_last_input_wins id d d' t1 t2 t3 t4 g t :
  (forall t, paddleNonneg (paddleOf t g)) ->
  paddleOf t (playerInput id d' t3 t4 (playerInput id d t1 t2 g))
  = paddleOf t (playerInput id d' t3 t4 g) /\
  players (playerInput id d' t3 t4 (playerInput id d t1 t2 g))
  = players (playerInput id d' t3 t4 g).
Proof.
  intros Hg. destruct (players g !! id) as [pl |] eqn:Hid.
  - assert (Hid1 : players (playerInput id d t1 t2 g) !! id
                   = Some (mkPlayer (number pl) (team pl) d (Some t1))).
    { rewrite (ft_playerInput_players _ _ _ _ _ _ Hid). apply lookup_insert_eq. }
    split.
    + rewrite (ft_playerInput_paddle _ _ _ _ _ _ t Hid1). cbn [team lastInput].
      rewrite !(ft_playerInput_paddle _ _ _ _ _ _ t Hid).
      destruct (side_eqb (team pl) t); [| reflexivity].
      rewrite retractVote_addVote; [reflexivity |].
      apply retractVote_keeps_nonneg, Hg.
    + rewrite (ft_playerInput_players _ _ _ _ _ _ Hid1). cbn [number team].
      rewrite !(ft_playerInput_players _ _ _ _ _ _ Hid).
      apply insert_insert_eq.
  - now rewrite !(ft_playerInput_absent _ _ _ _ _ Hid).
Qed.

Lemma ft_press_and_release id d t1 t2 g pl t :
  players g !! id = Some pl -> lastInput pl = JNull ->
  (forall t, paddleNonneg (paddleOf t g)) ->
  paddleOf t (playerRelease id (playerInput id d t1 t2 g)) = paddleOf t g.
Proof.
  intros Hid Hnull Hg.
  assert (Hid1 : players (playerInput id d t1 t2 g) !! id
                 = Some (mkPlayer (number pl) (team pl) d (Some t1))).
  { rewrite (ft_playerInput_players _ _ _ _ _ _ Hid). apply lookup_insert_eq. }
  assert (Hp : paddleOf t (playerInput id d t1 t2 g)
               = if side_eqb (team pl) t then addVote d (paddleOf t g)
                 else paddleOf t g).
  { rewrite (ft_playerInput_paddle _ _ _ _ _ _ t Hid), Hnull.
    now rewrite retractVote_null. }
  destruct (truthy d) eqn:Ht.
  - rewrite (ft_playerRelease_paddle _ _ _ t Hid1 Ht). cbn [team lastInput].
    rewrite Hp. destruct (side_eqb (team pl) t); [| reflexivity].
    apply retractVote_addVote, Hg.
  - rewrite (ft_playerRelease_idle _ _ _ Hid1 Ht), Hp.
    destruct (side_eqb (team pl) t); [| reflexivity].
    now apply falsy_is_no_vote.
Qed.
End FixedTeamLaws.

(** ** More facts about the ball-tracking server *)

Section BallTrackingLaws.
Import BallTracking.

(** *** What the player events and the tick leave alone *)

Lemma bt_player_frame e s :
  playerEvent e = true -> matchPart (step e s) = matchPart s.
Proof.
  intros He. unfold matchPart. destruct e; try discriminate He; simpl.
  - reflexivity.
  - unfold playerInput. destruct (players (game s) !! id) as [pl |]; [| reflexivity].
    simpl; now rewrite ?addVote_y, ?retractVote_y.
  - unfold playerRelease. destruct (players (game s) !! id) as [pl |]; [| reflexivity].
    destruct (truthy (lastInput pl)); simpl; [| reflexivity].
    now rewrite ?retractVote_y.
  - unfold disconnect. destruct (players (game s) !! id) as [pl |]; [| reflexivity].
    simpl; now rewrite ?retractVote_y.
Qed.

Lemma bt_movePaddles_ledger g : ledgerPart (movePaddles g) = ledgerPart g.
Proof. unfold movePaddles. now destruct (activePaddle g). Qed.

Lemma bt_advance_ledger g : ledgerPart (advance g) = ledgerPart g.
Proof.
  assert (H1 : forall h, ledgerPart (collisions h) = ledgerPart h) by reflexivity.
  assert (H2 : forall h, ledgerPart (moveBall h) = ledgerPart h) by reflexivity.
  assert (H3 : forall h, ledgerPart (clampPaddles h) = ledgerPart h) by reflexivity.
  assert (H4 : forall h, ledgerPart (trackBall h) = ledgerPart h) by reflexivity.
  unfold advance. now rewrite H1, H2, H3, bt_movePaddles_ledger, H4.
Qed.

Lemma bt_tick_ledger g : ledgerPart (tick g).1 = ledgerPart g.
Proof.
  unfold tick. destruct (negb _); [reflexivity |].
  rewrite <- (bt_advance_ledger g). generalize (advance g). intros h.
  unfold scoreDetection.
  destruct (scoringSide (ball h)); [| reflexivity].
  now destruct (hasWinner _).
Qed.

Lemma bt_advance_status g : status (advance g) = status g.
Proof.
  change (status (advance g)) with (status (movePaddles (trackBall g))).
  unfold movePaddles. now destruct (activePaddle (trackBall g)).
Qed.

Lemma bt_advance_ball g :
  let shifted := moveBall (clampPaddles (movePaddles (trackBall g))) in
  ball (advance g)
  = paddleCollisions (ballSpeed shifted) (leftPaddle shifted) (rightPaddle shifted)
      (wallCollision (ball shifted)).
Proof. reflexivity. Qed.

Lemma bt_shifted_ball g :
  ball (moveBall (clampPaddles (movePaddles (trackBall g))))
  = Ball.set_y (Ball.y (ball g) + Ball.vy (ball g))
      (Ball.set_x (Ball.x (ball g) + Ball.vx (ball g)) (ball g)).
Proof.
  change (ball (moveBall (clampPaddles ?h)))
    with (Ball.set_y (Ball.y (ball h) + Ball.vy (ball h))
            (Ball.set_x (Ball.x (ball h) + Ball.vx (ball h)) (ball h))).
  now destruct (bt_movePaddles_frame (trackBall g)) as (-> & _).
Qed.

Lemma bt_shifted_speed g :
  ballSpeed (moveBall (clampPaddles (movePaddles (trackBall g)))) = ballSpeed g.
Proof.
  change (ballSpeed (moveBall (clampPaddles ?h))) with (ballSpeed h).
  now destruct (bt_movePaddles_frame (trackBall g)) as (_ & _ & -> & _).
Qed.

Lemma bt_tick_match g :
  status g = playing ->
  ball (tick g).1 = ball (advance g) /\
  ballSpeed (tick g).1 = ballSpeed g /\
  match scoringSide (ball (advance g)) with
  | None => status (tick g).1 = playing /\ score (tick g).1 = score g
  | Some s =>
      status (tick g).1
      = (if hasWinner (addPoint s (score g)) then finished else playing) /\
      score (tick g).1 = addPoint s (score g)
  end.
Proof.
  intros Hst. split; [| split; [apply bt_tick_speed |]].
  { rewrite (bt_tick_playing _ Hst). apply bt_scoreDetection_ball. }
  rewrite (bt_tick_playing _ Hst).
  destruct (scoringSide (ball (advance g))) as [s |] eqn:Es.
  - destruct (bt_scoreDetection_some _ _ Es) as (E1 & _ & E2).
    rewrite E1, E2, bt_advance_score, bt_advance_status, Hst. split; reflexivity.
  - rewrite (bt_scoreDetection_none _ Es). cbn [fst].
    rewrite bt_advance_score, bt_advance_status. split; [exact Hst | reflexivity].
Qed.

Lemma bt_step_scoreLaw e s : scoreLaw (game s) -> scoreLaw (game (step e s)).
Proof.
  intros H. pose proof H as (Hl & Hr & Hboth & Hfin).
  assert (Hplay : forall st, st <> finished -> status (game s) <> finished ->
            forall g', status g' = st -> score g' = score (game s) -> scoreLaw g').
  { intros st Hne Hnf g' E1 E2. unfold scoreLaw. rewrite E1, E2.
    split; [exact Hl | split; [exact Hr | split; [exact Hboth |]]].
    split; [congruence | intros Hw; now apply Hfin in Hw]. }
  assert (Hzero : forall st g', st <> finished -> status g' = st ->
            score g' = {| Score.left := 0; Score.right := 0 |} -> scoreLaw g').
  { intros st g' Hne E1 E2. unfold scoreLaw, WINNING_SCORE. rewrite E1, E2. simpl.
    split; [lia | split; [lia | split; [lia |]]].
    split; [congruence | intros [A | A]; discriminate A]. }
  destruct (playerEvent e) eqn:Hpe.
  { pose proof (bt_player_frame e s Hpe) as Hf. unfold matchPart in Hf.
    injection Hf as E1 _ E2 _ _ _ _ _ _.
    unfold scoreLaw. now rewrite E1, E2. }
  destruct e; try discriminate Hpe; simpl.
  - destruct (gameLoop s); [| exact H].
    destruct (tick (game s)) as [g b] eqn:E.
    assert (Eg : g = (tick (game s)).1) by now rewrite E.
    simpl. subst g. clear E b.
    destruct (status_eqb (status (game s)) playing) eqn:Hst.
    + apply status_eqb_eq in Hst.
      destruct (bt_tick_match _ Hst) as (_ & _ & Hm).
      assert (Hnf : status (game s) <> finished) by (rewrite Hst; discriminate).
      destruct (scoringSide _) as [sd |].
      * destruct Hm as (E1 & E2).
        assert (Hlt : (Score.left (score (game s)) < 7)%Z
                      /\ (Score.right (score (game s)) < 7)%Z).
        { unfold WINNING_SCORE in *. split.
          - destruct (Z.eq_dec (Score.left (score (game s))) 7%Z) as [A |]; [| lia].
            exfalso. apply Hnf, Hfin. now left.
          - destruct (Z.eq_dec (Score.right (score (game s))) 7%Z) as [A |]; [| lia].
            exfalso. apply Hnf, Hfin. now right. }
        unfold scoreLaw. rewrite E1, E2.
        destruct (addPoint_points sd (score (game s))) as [Al Ar].
        rewrite Al, Ar. unfold WINNING_SCORE in *.
        destruct (hasWinner (addPoint sd (score (game s)))) eqn:Hw.
        -- apply hasWinner_iff in Hw. rewrite Al, Ar in Hw. unfold WINNING_SCORE in Hw.
           destruct sd; simpl in *; repeat split; try lia; intros _; lia.
        -- assert (Hn : ~ ((7 <= Score.left (addPoint sd (score (game s))))%Z
                          \/ (7 <= Score.right (addPoint sd (score (game s))))%Z)).
           { intros A. apply hasWinner_iff in A. congruence. }
           rewrite Al, Ar in Hn.
           destruct sd; simpl in *; repeat split; try lia; try discriminate;
             intros; lia.
      * destruct Hm as (E1 & E2). now apply (Hplay playing).
    + rewrite bt_tick_idle; [exact H |].
      intros A. apply status_eqb_eq in A. congruence.
  - destruct (pendingResets s); [exact H |]. exact H.
  - destruct (_ || _); [| exact H]. now apply (Hzero playing).
  - destruct (status_eqb _ _) eqn:E; [| exact H].
    apply status_eqb_eq in E.
    apply (Hplay paused); [discriminate | rewrite E; discriminate | reflexivity ..].
  - destruct (status_eqb _ _) eqn:E; [| exact H].
    apply status_eqb_eq in E.
    apply (Hplay playing); [discriminate | rewrite E; discriminate | reflexivity ..].
  - now apply (Hzero waiting).
  - exact H.
Qed.

Lemma bt_step_ballLaw e s : ballLaw (game s) -> ballLaw (game (step e s)).
Proof.
  intros H. pose proof H as (Hs & Hy & Hvx).
  assert (Hserve : forall g' direction rnd,
            ball g' = servedBall INITIAL_BALL_SPEED direction rnd ->
            ballSpeed g' = INITIAL_BALL_SPEED ->
            direction = 1 \/ direction = -1 -> ballLaw g').
  { intros g' direction rnd E1 E2 Hd. unfold ballLaw. rewrite E1, E2.
    split; [reflexivity | split; [apply servedBall_inside |]].
    rewrite servedBall_vx.
    destruct Hd as [-> | ->]; [left | right]; unfold INITIAL_BALL_SPEED; ring. }
  destruct (playerEvent e) eqn:Hpe.
  { pose proof (bt_player_frame e s Hpe) as Hf. unfold matchPart in Hf.
    injection Hf as _ E1 _ E4 _ _ _ _ _.
    unfold ballLaw. now rewrite E1, E4. }
  destruct e; try discriminate Hpe; simpl.
  - destruct (gameLoop s); [| exact H].
    destruct (tick (game s)) as [g b] eqn:E.
    assert (Eg : g = (tick (game s)).1) by now rewrite E.
    simpl. subst g. clear E b.
    destruct (status_eqb (status (game s)) playing) eqn:Hst.
    + apply status_eqb_eq in Hst.
      destruct (bt_tick_match _ Hst) as (Eb & Esp & _).
      unfold ballLaw. rewrite Eb, Esp, bt_advance_ball. cbv zeta.
      split; [exact Hs | split].
      * unfold ballInside. rewrite paddleCollisions_y. apply wallCollision_inside.
      * set (sh := moveBall _). set (b := wallCollision _).
        assert (Ev : Ball.vx b = Ball.vx (ball (game s))).
        { subst b sh. now rewrite wallCollision_vx, bt_shifted_ball. }
        destruct (paddleCollisions_vx (ballSpeed sh) (leftPaddle sh) (rightPaddle sh) b)
          as [-> | ->]; rewrite Ev; destruct Hvx as [Hv | Hv]; rewrite Hv;
          [left | right | right | left]; unfold INITIAL_BALL_SPEED; ring.
    + rewrite bt_tick_idle; [exact H |].
      intros A. apply status_eqb_eq in A. congruence.
  - destruct (pendingResets s); [exact H |].
    apply (Hserve _ (lastScorer (score (game s))) rnd);
      [simpl; now rewrite Hs | exact Hs | apply lastScorer_cases].
  - destruct (_ || _); [| exact H].
    apply (Hserve _ (coin r2) r3); [reflexivity | reflexivity | apply coin_cases].
  - destruct (status_eqb _ _) eqn:E; exact H.
  - destruct (status_eqb _ _) eqn:E; exact H.
  - apply (Hserve _ (coin r2) r3); [reflexivity | reflexivity | apply coin_cases].
  - exact H.
Qed.

Lemma bt_step_steepness e s :
  fairEvent e = true ->
  ballLaw (game s) -> steepness (game s) -> steepness (game (step e s)).
Proof.
  intros Hfair (Hs & _) H.
  assert (Hserve : forall g' direction rnd,
            ball g' = servedBall INITIAL_BALL_SPEED direction rnd ->
            ballSpeed g' = INITIAL_BALL_SPEED ->
            inUnitInterval rnd = true -> steepness g').
  { intros g' direction rnd E1 E2 Hr. unfold steepness. rewrite E1, E2.
    assert (Hp : 0 <= INITIAL_BALL_SPEED) by (vm_compute; discriminate).
    pose proof (servedBall_vy_range _ direction rnd Hp Hr).
    unfold INITIAL_BALL_SPEED in *. split; lra. }
  destruct (playerEvent e) eqn:Hpe.
  { pose proof (bt_player_frame e s Hpe) as Hf. unfold matchPart in Hf.
    injection Hf as _ E1 _ E4 _ _ _ _ _.
    unfold steepness. now rewrite E1, E4. }
  destruct e; try discriminate Hpe; simpl; simpl in Hfair.
  - destruct (gameLoop s); [| exact H].
    destruct (tick (game s)) as [g b] eqn:E.
    assert (Eg : g = (tick (game s)).1) by now rewrite E.
    simpl. subst g. clear E b.
    destruct (status_eqb (status (game s)) playing) eqn:Hst.
    + apply status_eqb_eq in Hst.
      destruct (bt_tick_match _ Hst) as (Eb & Esp & _).
      unfold steepness in *. rewrite Eb, Esp, bt_advance_ball. cbv zeta.
      rewrite bt_shifted_speed.
      set (sh := moveBall _). set (b := wallCollision _).
      assert (Hp : 0 <= ballSpeed (game s))
        by (rewrite Hs; vm_compute; discriminate).
      assert (Ev : - (1.25 * ballSpeed (game s)) <= Ball.vy b
                   <= 1.25 * ballSpeed (game s)).
      { subst b sh. rewrite bt_shifted_ball.
        destruct (wallCollision_vy
          (Ball.set_y (Ball.y (ball (game s)) + Ball.vy (ball (game s)))
             (Ball.set_x (Ball.x (ball (game s)) + Ball.vx (ball (game s)))
                (ball (game s))))) as [-> | ->]; simpl; lra. }
      destruct (paddleCollisions_vy (ballSpeed (game s)) (leftPaddle sh)
                  (rightPaddle sh) b Hp) as [-> | Hb]; lra.
    + rewrite bt_tick_idle; [exact H |].
      intros A. apply status_eqb_eq in A. congruence.
  - destruct (pendingResets s); [exact H |].
    apply (Hserve _ (lastScorer (score (game s))) rnd);
      [simpl; now rewrite Hs | exact Hs | exact Hfair].
  - destruct (_ || _); [| exact H].
    apply andb_true_iff in Hfair as [_ Hr3].
    apply (Hserve _ (coin r2) r3); [reflexivity | reflexivity | exact Hr3].
  - destruct (status_eqb _ _) eqn:E; exact H.
  - destruct (status_eqb _ _) eqn:E; exact H.
  - apply andb_true_iff in Hfair as [_ Hr3].
    apply (Hserve _ (coin r2) r3); [reflexivity | reflexivity | exact Hr3].
  - exact H.
Qed.

(** *** The players, the log and the tallies *)

Lemma bt_handlers_next e s :
  playerEvent e = true ->
  nextPlayerNumber (game (step e s))
  = match e with
    | PlayerJoin _ => (nextPlayerNumber (game s) + 1)%Z
    | _ => nextPlayerNumber (game s)
    end
  /\ maxRecentInputs (game (step e s)) = maxRecentInputs (game s).
Proof.
  intros He. destruct e; try discriminate He; simpl.
  - split; reflexivity.
  - unfold playerInput. now destruct (players (game s) !! id) as [pl |].
  - unfold playerRelease. destruct (players (game s) !! id) as [pl |]; [| now split].
    now destruct (truthy (lastInput pl)).
  - unfold disconnect. now destruct (players (game s) !! id) as [pl |].
Qed.

Lemma bt_others_ledger e s :
  playerEvent e = false -> e <> AdminResetPlayers ->
  players (game (step e s)) = players (game s) /\
  nextPlayerNumber (game (step e s)) = nextPlayerNumber (game s) /\
  maxRecentInputs (game (step e s)) = maxRecentInputs (game s).
Proof.
  intros He Hne. destruct e; try discriminate He; simpl.
  - destruct (gameLoop s); [| auto].
    destruct (tick (game s)) as [g b] eqn:E.
    assert (Eg : g = (tick (game s)).1) by now rewrite E.
    simpl. subst g.
    pose proof (bt_tick_ledger (game s)) as Hl. unfold ledgerPart in Hl.
    injection Hl as E1 E2 _ E4 _ _ _ _. auto.
  - destruct (pendingResets s); auto.
  - destruct (_ || _); auto.
  - destruct (status_eqb _ _); auto.
  - destruct (status_eqb _ _); auto.
  - auto.
  - congruence.
Qed.

Lemma bt_roster_inherit g g' :
  rosterLaw g ->
  nextPlayerNumber g' = nextPlayerNumber g ->
  (forall id p', players g' !! id = Some p' ->
     exists p, players g !! id = Some p /\ number p' = number p) ->
  rosterLaw g'.
Proof.
  intros (H1 & H2 & H3) En Hsub. unfold rosterLaw. rewrite En.
  split; [exact H1 | split].
  - intros id p' Hp'. destruct (Hsub _ _ Hp') as (p & Hp & ->). now apply (H2 id).
  - intros i j p' q' Hp' Hq' E.
    destruct (Hsub _ _ Hp') as (p & Hp & Ep).
    destruct (Hsub _ _ Hq') as (q & Hq & Eq).
    apply (H3 i j p q Hp Hq). congruence.
Qed.

Lemma bt_step_rosterLaw e s : rosterLaw (game s) -> rosterLaw (game (step e s)).
Proof.
  intros H. pose proof H as (H1 & H2 & H3).
  destruct (playerEvent e) eqn:Hpe.
  - destruct e; try discriminate Hpe; simpl.
    + unfold playerJoin, rosterLaw. simpl.
      set (n := nextPlayerNumber (game s)) in *.
      split; [lia | split].
      * intros i p Hp. apply lookup_insert_Some in Hp as [[_ <-] | [_ Hp]]; simpl.
        -- lia.
        -- pose proof (H2 _ _ Hp). lia.
      * intros i j p q Hp Hq E.
        apply lookup_insert_Some in Hp as [[Ei <-] | [Ni Hp]];
          apply lookup_insert_Some in Hq as [[Ej <-] | [Nj Hq]].
        -- congruence.
        -- simpl in E. pose proof (H2 _ _ Hq). lia.
        -- simpl in E. pose proof (H2 _ _ Hp). lia.
        -- now apply (H3 i j p q).
    + destruct (players (game s) !! id) as [pl |] eqn:Hid;
        [| now rewrite bt_playerInput_absent].
      apply (bt_roster_inherit (game s)); [exact H | |].
      * unfold playerInput. now rewrite Hid.
      * intros i p'. rewrite (bt_playerInput_players _ _ _ _ _ _ Hid).
        intros Hp. apply lookup_insert_Some in Hp as [[<- <-] | [_ Hp]]; eauto.
    + destruct (players (game s) !! id) as [pl |] eqn:Hid;
        [| unfold playerRelease; now rewrite Hid].
      destruct (truthy (lastInput pl)) eqn:Ht;
        [| now rewrite (bt_playerRelease_idle _ _ _ Hid Ht)].
      apply (bt_roster_inherit (game s)); [exact H | |].
      * unfold playerRelease. now rewrite Hid, Ht.
      * intros i p'. rewrite (bt_playerRelease_players _ _ _ Hid Ht).
        intros Hp. apply lookup_insert_Some in Hp as [[<- <-] | [_ Hp]]; eauto.
    + destruct (players (game s) !! id) as [pl |] eqn:Hid;
        [| unfold disconnect; now rewrite Hid].
      apply (bt_roster_inherit (game s)); [exact H | |].
      * unfold disconnect. now rewrite Hid.
      * intros i p'. rewrite (bt_disconnect_players _ _ _ Hid).
        intros Hp. apply lookup_delete_Some in Hp as [_ Hp]. eauto.
  - assert (Hcase : e = AdminResetPlayers \/ e <> AdminResetPlayers)
      by (destruct e; (now left) || (right; discriminate)).
    destruct Hcase as [-> | Hne].
    + unfold rosterLaw. simpl. split; [lia | split].
      * intros i p Hp. now rewrite lookup_empty in Hp.
      * intros i j p q Hp. now rewrite lookup_empty in Hp.
    + destruct (bt_others_ledger e s Hpe Hne) as (E1 & E2 & _).
      apply (bt_roster_inherit (game s)); [exact H | exact E2 |].
      intros i p'. rewrite E1. eauto.
Qed.

Lemma bt_step_log e s :
  maxRecentInputs (game s) = 30%nat /\
  (length (recentInputs (game s)) <= 30)%nat ->
  maxRecentInputs (game (step e s)) = 30%nat /\
  (length (recentInputs (game (step e s))) <= 30)%nat.
Proof.
  intros [Hm Hl]. pose proof (conj Hm Hl) as H.
  destruct e; simpl.
  - destruct (gameLoop s); [| exact H].
    destruct (tick (game s)) as [g b] eqn:E.
    assert (Eg : g = (tick (game s)).1) by now rewrite E.
    simpl. subst g.
    pose proof (bt_tick_ledger (game s)) as Hf. unfold ledgerPart in Hf.
    injection Hf as _ _ E3 E4 _ _ _ _. now rewrite E3, E4.
  - destruct (pendingResets s); exact H.
  - exact H.
  - destruct (players (game s) !! id) as [pl |] eqn:Hid;
      [| now rewrite bt_playerInput_absent].
    rewrite (bt_playerInput_log _ _ _ _ _ _ Hid).
    split.
    + unfold playerInput. now rewrite Hid.
    + rewrite Hm. apply logInput_length. exact Hl.
  - unfold playerRelease. destruct (players (game s) !! id) as [pl |]; [| exact H].
    now destruct (truthy (lastInput pl)).
  - unfold disconnect. now destruct (players (game s) !! id) as [pl |].
  - destruct (_ || _); [| exact H]. split; [exact Hm | simpl; lia].
  - destruct (status_eqb _ _); exact H.
  - destruct (status_eqb _ _); exact H.
  - split; [exact Hm | simpl; lia].
  - split; [exact Hm | simpl; lia].
Qed.

Lemma bt_step_twin e s : twinTallies (game s) -> twinTallies (game (step e s)).
Proof.
  intros [Hu Hd]. pose proof (conj Hu Hd) as H.
  assert (Hf : forall f g',
            (forall p q, Paddle.upVotes p = Paddle.upVotes q ->
                         Paddle.upVotes (f p) = Paddle.upVotes (f q)) ->
            (forall p q, Paddle.downVotes p = Paddle.downVotes q ->
                         Paddle.downVotes (f p) = Paddle.downVotes (f q)) ->
            leftPaddle g' = f (leftPaddle (game s)) ->
            rightPaddle g' = f (rightPaddle (game s)) -> twinTallies g').
  { intros f g' Fu Fd El Er. unfold twinTallies. rewrite El, Er. auto. }
  assert (Hr : forall v p q, Paddle.upVotes p = Paddle.upVotes q ->
            Paddle.upVotes (retractVote v p) = Paddle.upVotes (retractVote v q))
    by (intros v p q E; now rewrite !retractVote_up, E).
  assert (Hr' : forall v p q, Paddle.downVotes p = Paddle.downVotes q ->
            Paddle.downVotes (retractVote v p) = Paddle.downVotes (retractVote v q))
    by (intros v p q E; now rewrite !retractVote_down, E).
  destruct e; simpl.
  - destruct (gameLoop s); [| exact H].
    destruct (tick (game s)) as [g b] eqn:E.
    assert (Eg : g = (tick (game s)).1) by now rewrite E.
    simpl. subst g.
    pose proof (bt_tick_ledger (game s)) as Hl. unfold ledgerPart in Hl.
    injection Hl as _ _ _ _ E5 E6 E7 E8. unfold twinTallies.
    now rewrite E5, E6, E7, E8.
  - destruct (pendingResets s); [exact H |]. split; reflexivity.
  - exact H.
  - destruct (players (game s) !! id) as [pl |] eqn:Hid;
      [| now rewrite bt_playerInput_absent].
    apply (Hf (fun p => addVote direction (retractVote (lastInput pl) p))).
    + intros p q E. rewrite !addVote_up. f_equal. now apply Hr.
    + intros p q E. rewrite !addVote_down. f_equal. now apply Hr'.
    + apply (bt_playerInput_paddle _ _ _ _ _ _ sideLeft Hid).
    + apply (bt_playerInput_paddle _ _ _ _ _ _ sideRight Hid).
  - destruct (players (game s) !! id) as [pl |] eqn:Hid;
      [| unfold playerRelease; now rewrite Hid].
    destruct (truthy (lastInput pl)) eqn:Ht;
      [| now rewrite (bt_playerRelease_idle _ _ _ Hid Ht)].
    apply (Hf (retractVote (lastInput pl))); [apply Hr | apply Hr' | |].
    + apply (bt_playerRelease_paddle _ _ _ sideLeft Hid Ht).
    + apply (bt_playerRelease_paddle _ _ _ sideRight Hid Ht).
  - destruct (players (game s) !! id) as [pl |] eqn:Hid;
      [| unfold disconnect; now rewrite Hid].
    apply (Hf (retractVote (lastInput pl))); [apply Hr | apply Hr' | |].
    + apply (bt_disconnect_paddle _ _ _ sideLeft Hid).
    + apply (bt_disconnect_paddle _ _ _ sideRight Hid).
  - destruct (_ || _); [| exact H]. split; reflexivity.
  - destruct (status_eqb _ _); exact H.
  - destruct (status_eqb _ _); exact H.
  - split; reflexivity.
  - split; reflexivity.
Qed.

Lemma bt_step_backed e s :
  freshJoin e s = true -> backed (game s) -> backed (game (step e s)).
Proof.
  intros Hfresh Hg.
  assert (Hzero : forall g',
            (forall t, Paddle.upVotes (paddleOf t g') = 0%Z /\
                       Paddle.downVotes (paddleOf t g') = 0%Z) -> backed g').
  { intros g' Hz t. destruct (Hz t) as [-> ->]. lia. }
  destruct e; simpl; simpl in Hfresh.
  - destruct (gameLoop s); [| exact Hg].
    destruct (tick (game s)) as [g b] eqn:E.
    assert (Eg : g = (tick (game s)).1) by now rewrite E.
    simpl. subst g.
    pose proof (bt_tick_ledger (game s)) as Hf. unfold ledgerPart in Hf.
    injection Hf as E1 _ _ _ E5 E6 E7 E8.
    intros t. unfold backed in Hg. specialize (Hg t). rewrite E1.
    destruct t; simpl in *; [rewrite E5, E6 | rewrite E7, E8]; exact Hg.
  - destruct (pendingResets s); [exact Hg |]. apply Hzero. now intros [].
  - apply bool_decide_eq_true in Hfresh.
    intros t. destruct (Hg t) as [Hu Hd].
    unfold playerJoin, holders in *. simpl.
    rewrite !count_insert_fresh by exact Hfresh.
    unfold votesFor; simpl. rewrite !Nat.add_0_r.
    destruct t; simpl in *; auto.
  - intros t.
    destruct (players (game s) !! id) as [pl |] eqn:Hid;
      [| rewrite bt_playerInput_absent by exact Hid; apply Hg].
    destruct (Hg t) as [Hu Hd].
    rewrite (bt_playerInput_players _ _ _ _ _ _ Hid),
      (bt_playerInput_paddle _ _ _ _ _ _ t Hid).
    set (pl' := mkPlayer _ _ _).
    destruct (bt_holders_replace _ _ _ pl' "up" Hid) as [Cu Bu].
    destruct (bt_holders_replace _ _ _ pl' "down" Hid) as [Cd Bd].
    unfold votesFor in Cu, Bu, Cd, Bd; simpl in Cu, Cd.
    rewrite addVote_up, addVote_down, retractVote_up, retractVote_down.
    split; eapply tally_bound_replace; eassumption.
  - intros t.
    destruct (players (game s) !! id) as [pl |] eqn:Hid;
      [| unfold playerRelease; rewrite Hid; apply Hg].
    destruct (truthy (lastInput pl)) eqn:Ht;
      [| rewrite (bt_playerRelease_idle _ _ _ Hid Ht); apply Hg].
    destruct (Hg t) as [Hu Hd].
    rewrite (bt_playerRelease_players _ _ _ Hid Ht),
      (bt_playerRelease_paddle _ _ _ t Hid Ht).
    set (pl' := mkPlayer _ _ _).
    destruct (bt_holders_replace _ _ _ pl' "up" Hid) as [Cu _].
    destruct (bt_holders_replace _ _ _ pl' "down" Hid) as [Cd _].
    unfold votesFor in Cu, Cd; simpl in Cu, Cd.
    rewrite retractVote_up, retractVote_down.
    split; eapply tally_bound_retract; try eassumption; lia.
  - intros t.
    destruct (players (game s) !! id) as [pl |] eqn:Hid;
      [| unfold disconnect; rewrite Hid; apply Hg].
    destruct (Hg t) as [Hu Hd].
    rewrite (bt_disconnect_players _ _ _ Hid), (bt_disconnect_paddle _ _ _ t Hid).
    pose proof (bt_holders_remove _ _ _ "up" Hid) as Du.
    pose proof (bt_holders_remove _ _ _ "down" Hid) as Dd.
    unfold votesFor in Du, Dd.
    rewrite retractVote_up, retractVote_down.
    split; eapply tally_bound_retract; eassumption.
  - destruct (_ || _); [| exact Hg]. apply Hzero. now intros [].
  - destruct (status_eqb _ _); exact Hg.
  - destruct (status_eqb _ _); exact Hg.
  - apply Hzero. now intros [].
  - intros t. simpl. unfold holders. rewrite !count_empty. destruct t; simpl; lia.
Qed.

(** *** Runs *)

Lemma bt_run_app evs evs' s : run (evs ++ evs') s = run evs' (run evs s).
Proof. unfold run. apply fold_left_app. Qed.

Lemma bt_run_invariant (P : server -> Prop) :
  (forall e s, P s -> P (step e s)) ->
  forall evs s, P s -> P (run evs s).
Proof.
  intros Hstep evs. induction evs as [| e evs IH]; intros s Hs; [exact Hs |].
  simpl. apply IH, Hstep, Hs.
Qed.

Lemma bt_run_invariant_fair (P : server -> Prop) :
  (forall e s, fairEvent e = true -> P s -> P (step e s)) ->
  forall evs s, forallb fairEvent evs = true -> P s -> P (run evs s).
Proof.
  intros Hstep evs. induction evs as [| e evs IH]; intros s Hf Hs; [exact Hs |].
  simpl in Hf. apply andb_true_iff in Hf as [He Hf].
  simpl. apply IH; [exact Hf |]. now apply Hstep.
Qed.

Lemma bt_run_invariant_fresh (P : server -> Prop) :
  (forall e s, freshJoin e s = true -> P s -> P (step e s)) ->
  forall evs s, freshJoins evs s = true -> P s -> P (run evs s).
Proof.
  intros Hstep evs. induction evs as [| e evs IH]; intros s Hf Hs; [exact Hs |].
  simpl in Hf. apply andb_true_iff in Hf as [He Hf].
  simpl. apply IH; [exact Hf |]. now apply Hstep.
Qed.

Lemma bt_initial_laws rnd :
  scoreLaw (initialState rnd) /\ ballLaw (initialState rnd) /\
  steepness (initialState rnd).
Proof.
  split; [| split].
  - unfold scoreLaw, WINNING_SCORE. simpl.
    split; [lia | split; [lia | split; [lia |]]].
    split; [discriminate | intros [A | A]; discriminate A].
  - split; [reflexivity | split; [split; vm_compute; discriminate |]].
    now left.
  - unfold steepness. simpl. unfold INITIAL_BALL_SPEED.
    destruct (coin_cases rnd) as [-> | ->]; split; lra.
Qed.

Lemma bt_reachable_laws evs rnd :
  scoreLaw (game (run evs (boot rnd))) /\ ballLaw (game (run evs (boot rnd))).
Proof.
  apply (bt_run_invariant (fun s => scoreLaw (game s) /\ ballLaw (game s))).
  - intros e s (H1 & H2).
    split; [now apply bt_step_scoreLaw | now apply bt_step_ballLaw].
  - destruct (bt_initial_laws rnd) as (H1 & H2 & _). auto.
Qed.

Lemma bt_reachable_steepness evs rnd :
  forallb fairEvent evs = true -> steepness (game (run evs (boot rnd))).
Proof.
  intros Hf.
  apply (bt_run_invariant_fair (fun s => ballLaw (game s) /\ steepness (game s)));
    [| exact Hf |].
  - intros e s He (H1 & H2).
    split; [now apply bt_step_ballLaw | now apply bt_step_steepness].
  - destruct (bt_initial_laws rnd) as (_ & H2 & H3). auto.
Qed.

Lemma bt_reachable_roster evs rnd : rosterLaw (game (run evs (boot rnd))).
Proof.
  apply (bt_run_invariant (fun s => rosterLaw (game s)));
    [apply bt_step_rosterLaw |].
  unfold rosterLaw. simpl. split; [lia | split].
  - intros i p Hp. now rewrite lookup_empty in Hp.
  - intros i j p q Hp. now rewrite lookup_empty in Hp.
Qed.

Lemma bt_reachable_log evs rnd :
  maxRecentInputs (game (run evs (boot rnd))) = 30%nat /\
  (length (recentInputs (game (run evs (boot rnd)))) <= 30)%nat.
Proof.
  apply (bt_run_invariant
           (fun s => maxRecentInputs (game s) = 30%nat /\
                     (length (recentInputs (game s)) <= 30)%nat));
    [apply bt_step_log | simpl; split; [reflexivity | lia]].
Qed.

Lemma bt_reachable_twin evs rnd : twinTallies (game (run evs (boot rnd))).
Proof.
  apply (bt_run_invariant (fun s => twinTallies (game s)));
    [apply bt_step_twin | split; reflexivity].
Qed.

Lemma bt_reachable_backed evs rnd :
  freshJoins evs (boot rnd) = true -> backed (game (run evs (boot rnd))).
Proof.
  intros Hf.
  apply (bt_run_invariant_fresh (fun s => backed (game s)));
    [apply bt_step_backed | exact Hf |].
  intros t. simpl. unfold holders. rewrite !count_empty. destruct t; simpl; lia.
Qed.

(** *** Paddles, pause, status and reset *)

Lemma bt_tick_paddle_step g t :
  sound g ->
  - PADDLE_SPEED <= Paddle.y (paddleOf t (tick g).1) - Paddle.y (paddleOf t g)
  <= PADDLE_SPEED.
Proof.
  intros (Hp & _). destruct (Hp t) as [Hn Hi].
  unfold tick. destruct (negb _).
  - simpl. unfold PADDLE_SPEED. split; lra.
  - rewrite bt_scoreDetection_paddles, bt_advance_paddle.
    destruct (side_eqb _ t); (apply clamp_step; [exact Hi |]).
    + apply move_bounds; [vm_compute; discriminate | exact Hn].
    + unfold paddleInside, CANVAS_HEIGHT, PADDLE_HEIGHT in Hi.
      assert (Hc : centerY == 240) by reflexivity.
      revert Hc. generalize centerY. intros c Hc.
      unfold PADDLE_SPEED. split; lra.
Qed.

Lemma bt_run_cons e evs s : run (e :: evs) s = run evs (step e s).
Proof. reflexivity. Qed.

Lemma bt_tick_noop s : status (game s) <> playing -> step IntervalTick s = s.
Proof.
  intros H. destruct s as [g l p]. simpl in *.
  destruct l; [| reflexivity]. now rewrite bt_tick_idle.
Qed.

Lemma bt_ticks_noop n s :
  status (game s) <> playing -> run (repeat IntervalTick n) s = s.
Proof.
  intros H. induction n as [| n IH]; [reflexivity |].
  cbn [repeat]. now rewrite bt_run_cons, bt_tick_noop.
Qed.

Lemma bt_pause_resume s n :
  status (game s) = playing ->
  run (AdminPause :: repeat IntervalTick n ++ [AdminResume]) s = s.
Proof.
  intros Hst. rewrite bt_run_cons, bt_run_app.
  assert (Ep : step AdminPause s = set_game (set_status paused (game s)) s)
    by (simpl; now rewrite Hst).
  rewrite Ep, bt_ticks_noop by discriminate.
  destruct s as [g l p]. destruct g. simpl in *. now subst.
Qed.

Lemma bt_step_status e s :
  status (game (step e s)) = status (game s) \/
  allowedMove e (status (game s)) (status (game (step e s))) = true.
Proof.
  destruct (playerEvent e) eqn:Hpe.
  { left. pose proof (bt_player_frame e s Hpe) as Hf. unfold matchPart in Hf.
    now injection Hf as E1 _ _ _ _ _ _ _ _. }
  destruct e; try discriminate Hpe; simpl.
  - destruct (gameLoop s); [| now left].
    destruct (tick (game s)) as [g b] eqn:E.
    assert (Eg : g = (tick (game s)).1) by now rewrite E.
    simpl. subst g.
    destruct (status_eqb (status (game s)) playing) eqn:Hst.
    + apply status_eqb_eq in Hst.
      destruct (bt_tick_match _ Hst) as (_ & _ & Hm). rewrite Hst.
      destruct (scoringSide _) as [sd |].
      * destruct Hm as (-> & _). destruct (hasWinner _); [now right | now left].
      * destruct Hm as (-> & _). now left.
    + left. rewrite bt_tick_idle; [reflexivity |].
      intros A. apply status_eqb_eq in A. congruence.
  - left. now destruct (pendingResets s).
  - destruct (status (game s)) eqn:E; simpl; rewrite ?E; auto.
  - destruct (status (game s)) eqn:E; simpl; rewrite ?E; auto.
  - destruct (status (game s)) eqn:E; simpl; rewrite ?E; auto.
  - right. now destruct (status (game s)).
  - now left.
Qed.

Lemma bt_full_reset s r1 r2 r3 rnd :
  maxRecentInputs (game s) = 30%nat ->
  game (step AdminResetPlayers (step (AdminReset r1 r2 r3) s))
  = set_activePaddle (activePaddle (game s))
      (set_ball (servedBall INITIAL_BALL_SPEED (coin r2) r3) (initialState rnd)).
Proof.
  intros Hm. destruct s as [g l p]. destruct g. simpl in *. now subst.
Qed.

Lemma bt_finished_emitted g w sc :
  scoreLaw g ->
  In (GameFinished w sc) (tickEmits g) <->
  status g = playing /\ status (tick g).1 = finished /\ sc = score (tick g).1 /\
  pointsOf w sc = WINNING_SCORE /\ (pointsOf (otherSide w) sc < WINNING_SCORE)%Z.
Proof.
  intros (Hl & Hr & Hboth & Hfin). unfold tickEmits.
  destruct (status_eqb (status g) playing) eqn:Hst; cbn [negb].
  2:{ split; [intros [] | intros (A & _)].
      apply status_eqb_eq in A. congruence. }
  apply status_eqb_eq in Hst.
  assert (Hlt : (Score.left (score g) < 7)%Z /\ (Score.right (score g) < 7)%Z).
  { unfold WINNING_SCORE in *. split.
    - destruct (Z.eq_dec (Score.left (score g)) 7%Z) as [A |]; [| lia].
      assert (status g = finished) by (apply Hfin; now left). congruence.
    - destruct (Z.eq_dec (Score.right (score g)) 7%Z) as [A |]; [| lia].
      assert (status g = finished) by (apply Hfin; now right). congruence. }
  destruct (bt_tick_match _ Hst) as (_ & _ & Hm).
  rewrite (bt_tick_playing _ Hst) in Hm.
  rewrite (bt_tick_playing _ Hst). cbv zeta.
  unfold trackEmits.
  set (g2 := (scoreDetection (advance g)).1) in *.
  set (hits := paddleHits _ _ _ _). clearbody hits.
  assert (Hhits : forall m, In m (map PaddleHit hits) ->
            m <> GameFinished w sc).
  { intros m Hin. apply in_map_iff in Hin as (x & <- & _). discriminate. }
  assert (Htrack : forall (l : list message),
            (In (GameFinished w sc)
               ((if side_eqb (activePaddle g) (activePaddle (trackBall g)) then []
                 else [ActivePaddleChanged (activePaddle (trackBall g))])
                ++ map PaddleHit hits ++ l))
            <-> In (GameFinished w sc) l).
  { intros l. rewrite !in_app_iff. split; [| tauto].
    intros [A | [A | A]]; [| | exact A].
    - destruct (side_eqb _ _); [destruct A | destruct A as [A | []]; discriminate A].
    - exfalso. exact (Hhits _ A eq_refl). }
  rewrite Htrack. clear Htrack Hhits.
  destruct (scoringSide (ball (advance g))) as [sd |]; clearbody g2.
  - destruct Hm as (E1 & E2). unfold scoredEmits.
    rewrite E1, E2.
    destruct (addPoint_points sd (score g)) as [Al Ar].
    destruct (hasWinner (addPoint sd (score g))) eqn:Hw.
    + apply hasWinner_iff in Hw. unfold WINNING_SCORE in *.
      assert (Ew : winnerOf (addPoint sd (score g)) = sd
                   /\ pointsOf sd (addPoint sd (score g)) = 7%Z
                   /\ (pointsOf (otherSide sd) (addPoint sd (score g)) < 7)%Z).
      { unfold winnerOf, WINNING_SCORE. rewrite Al, Ar in Hw.
        destruct sd; simpl in *.
        - destruct (7 <=? Score.left (score g) + 1)%Z eqn:E;
            [| apply Z.leb_gt in E]; repeat split; lia.
        - destruct (7 <=? Score.left (score g))%Z eqn:E;
            [apply Z.leb_le in E | ]; repeat split; lia. }
      destruct Ew as (Ew & Ep & Eo). rewrite Ew. simpl. split.
      * intros [A | [A | [A | [A | []]]]]; try discriminate A.
        injection A as <- <-. auto.
      * intros (_ & _ & -> & Hp & Ho). left.
        destruct w, sd; simpl in *; try reflexivity; lia.
    + simpl. split.
      * intros [A | [A | [A | []]]]; discriminate A.
      * intros (_ & A & _). discriminate A.
  - destruct Hm as (E1 & _). simpl. split.
    + intros [A | []]. discriminate A.
    + intros (_ & A & _). congruence.
Qed.

(** *** The notices of a change of the active paddle *)

Lemma activeChanges_app l l' :
  activeChanges (l ++ l') = activeChanges l ++ activeChanges l'.
Proof. unfold activeChanges. apply omap_app. Qed.

Lemma activeChanges_hits hits : activeChanges (map PaddleHit hits) = [].
Proof. induction hits as [| h hits IH]; [reflexivity | exact IH]. Qed.

Lemma bt_tick_active_changes g :
  activeChanges (tickEmits g)
  = if status_eqb (status g) playing
    then if side_eqb (activePaddle g) (activePaddle (tick g).1) then []
         else [activePaddle (tick g).1]
    else [].
Proof.
  unfold tickEmits.
  destruct (status_eqb (status g) playing) eqn:Hst; [| reflexivity].
  apply status_eqb_eq in Hst. simpl negb. cbv iota.
  rewrite (bt_tick_playing _ Hst), bt_scoreDetection_active.
  rewrite !activeChanges_app, activeChanges_hits.
  assert (Et : activePaddle (advance g) = activePaddle (trackBall g)).
  { rewrite bt_advance_active. reflexivity. }
  rewrite Et. unfold trackEmits.
  assert (Es : activeChanges
                 (match scoringSide (ball (advance g)) with
                  | Some s => scoredEmits s (scoreDetection (advance g)).1
                  | None => []
                  end) = []).
  { destruct (scoringSide _); [| reflexivity].
    unfold scoredEmits. now destruct (hasWinner _). }
  rewrite Es. simpl.
  destruct (side_eqb _ _); reflexivity.
Qed.

Lemma bt_step_active e s :
  e <> IntervalTick -> activePaddle (game (step e s)) = activePaddle (game s).
Proof.
  intros Hne.
  destruct (playerEvent e) eqn:Hpe.
  { pose proof (bt_player_frame e s Hpe) as Hf. unfold matchPart in Hf.
    now injection Hf as _ _ _ _ E _ _ _ _. }
  destruct e; try discriminate Hpe; try congruence; simpl.
  - now destruct (pendingResets s).
  - now destruct (_ || _).
  - now destruct (status_eqb _ _).
  - now destruct (status_eqb _ _).
  - reflexivity.
  - reflexivity.
Qed.

Lemma bt_changes_alternate evs s :
  alternates (activePaddle (game s)) (activeChanges (tickBroadcast evs s)) = true.
Proof.
  revert s. induction evs as [| e evs IH]; intros s; [reflexivity |].
  cbn [tickBroadcast]. rewrite activeChanges_app.
  assert (Hcase : e = IntervalTick \/ e <> IntervalTick)
    by (destruct e; (now left) || (right; discriminate)).
  destruct Hcase as [-> | Hne].
  - destruct (gameLoop s) eqn:Hl.
    + rewrite bt_tick_active_changes.
      assert (Eg : game (step IntervalTick s) = (tick (game s)).1).
      { simpl. rewrite Hl. now destruct (tick (game s)). }
      specialize (IH (step IntervalTick s)). rewrite Eg in IH.
      destruct (status_eqb (status (game s)) playing) eqn:Hst.
      * destruct (side_eqb (activePaddle (game s)) (activePaddle (tick (game s)).1))
          eqn:Ea; cbn [app alternates].
        -- assert (E : activePaddle (game s) = activePaddle (tick (game s)).1)
             by (destruct (activePaddle (game s)), (activePaddle (tick (game s)).1);
                 simpl in Ea; congruence).
           rewrite E. exact IH.
        -- rewrite Ea. exact IH.
      * cbn [app]. rewrite bt_tick_idle in IH; [exact IH |].
        intros A. apply status_eqb_eq in A. congruence.
    + cbn [app]. specialize (IH (step IntervalTick s)).
      assert (Es : step IntervalTick s = s) by (simpl; now rewrite Hl).
      rewrite Es in *. exact IH.
  - assert (En : activeChanges
                   match e with
                   | IntervalTick => if gameLoop s then tickEmits (game s) else []
                   | _ => []
                   end = []) by (now destruct e).
    rewrite En. cbn [app]. rewrite <- (bt_step_active e s Hne). apply IH.
Qed.

Lemma bt_goal_emitted g s sc :
  (In (BallTracking.GameGoal s) (BallTracking.tickEmits g) <->
   BallTracking.status g = playing /\
   BallTracking.score (BallTracking.tick g).1 = addPoint s (BallTracking.score g)) /\
  (In (BallTracking.GameScored sc) (BallTracking.tickEmits g) <->
   BallTracking.status g = playing /\
   BallTracking.score (BallTracking.tick g).1 <> BallTracking.score g /\
   sc = BallTracking.score (BallTracking.tick g).1).
Proof.
  unfold BallTracking.tickEmits.
  destruct (status_eqb (BallTracking.status g) playing) eqn:Hst; cbn [negb].
  2:{ split; (split; [intros [] | intros (A & _)]);
        apply status_eqb_eq in A; congruence. }
  apply status_eqb_eq in Hst.
  destruct (bt_tick_match _ Hst) as (_ & _ & Hm).
  rewrite (bt_tick_playing _ Hst) in Hm.
  rewrite (bt_tick_playing _ Hst). cbv zeta.
  unfold BallTracking.trackEmits.
  set (g2 := (BallTracking.scoreDetection (BallTracking.advance g)).1) in *.
  clearbody g2.
  set (hits := paddleHits _ _ _ _). clearbody hits.
  set (tracked := BallTracking.trackBall g). clearbody tracked.
  assert (Hskip : forall (m : BallTracking.message) (l : list BallTracking.message),
            (forall a, m <> BallTracking.ActivePaddleChanged a) ->
            (forall h, m <> BallTracking.PaddleHit h) ->
            (In m
               ((if side_eqb (BallTracking.activePaddle g)
                      (BallTracking.activePaddle tracked) then []
                 else [BallTracking.ActivePaddleChanged
                         (BallTracking.activePaddle tracked)])
                ++ map BallTracking.PaddleHit hits ++ l))
            <-> In m l).
  { intros m l H1 H2. rewrite !in_app_iff. split; [| tauto].
    intros [A | [A | A]]; [| | exact A].
    - destruct (side_eqb _ _); [destruct A | destruct A as [A | []]].
      exfalso. exact (H1 _ (eq_sym A)).
    - apply in_map_iff in A as (x & A & _). exfalso. exact (H2 _ (eq_sym A)). }
  rewrite !Hskip by (intros; discriminate). clear Hskip.
  destruct (scoringSide (BallTracking.ball (BallTracking.advance g))) as [sd |].
  - destruct Hm as (_ & E2). unfold BallTracking.scoredEmits.
    rewrite !in_app_iff. split; split.
    + intros [[A | A] | A].
      * destruct (hasWinner _); [destruct A as [A | []]; discriminate A | destruct A].
      * destruct A as [A | [A | []]]; [| discriminate A].
        injection A as <-. split; [exact Hst | exact E2].
      * destruct A as [A | []]. discriminate A.
    + intros (_ & A). rewrite E2 in A. apply addPoint_side in A. subst s.
      left; right. now left.
    + intros [[A | A] | A].
      * destruct (hasWinner _); [destruct A as [A | []]; discriminate A | destruct A].
      * destruct A as [A | [A | []]]; [discriminate A |].
        injection A as <-. rewrite E2.
        split; [exact Hst | split; [apply addPoint_changes | reflexivity]].
      * destruct A as [A | []]. discriminate A.
    + intros (_ & _ & ->). left; right. right. now left.
  - destruct Hm as (_ & E2). cbn [app In]. split; split.
    + intros [A | []]. discriminate A.
    + intros (_ & A). rewrite E2 in A. symmetry in A.
      now apply addPoint_changes in A.
    + intros [A | []]. discriminate A.
    + intros (_ & A & _). congruence.
Qed.

(** *** A socket without a player *)

Lemma bt_unknown_socket e s id :
  players (game s) !! id = None -> fromSocket id e = true -> joinOf id e = false ->
  step e s = s.
Proof.
  intros H Hf Hj. destruct s as [g l p]. simpl in H.
  destruct e; try discriminate Hf; simpl in Hf, Hj.
  - congruence.
  - apply String.eqb_eq in Hf. subst id0.
    unfold step, set_game, playerInput. simpl. now rewrite H.
  - apply String.eqb_eq in Hf. subst id0.
    unfold step, set_game, playerRelease. simpl. now rewrite H.
  - apply String.eqb_eq in Hf. subst id0.
    unfold step, set_game, disconnect. simpl. now rewrite H.
Qed.

Lemma bt_stays_unknown e s id :
  players (game s) !! id = None -> fromSocket id e = false ->
  players (game (step e s)) !! id = None.
Proof.
  intros H Hf.
  destruct (playerEvent e) eqn:Hpe.
  - destruct e; try discriminate Hpe; simpl in Hf; apply String.eqb_neq in Hf; simpl.
    + unfold playerJoin. simpl. now rewrite lookup_insert_ne.
    + destruct (players (game s) !! id0) as [pl |] eqn:Hid;
        [| now rewrite bt_playerInput_absent].
      rewrite (bt_playerInput_players _ _ _ _ _ _ Hid). now rewrite lookup_insert_ne.
    + destruct (players (game s) !! id0) as [pl |] eqn:Hid;
        [| unfold playerRelease; now rewrite Hid].
      destruct (truthy (lastInput pl)) eqn:Ht;
        [| now rewrite (bt_playerRelease_idle _ _ _ Hid Ht)].
      rewrite (bt_playerRelease_players _ _ _ Hid Ht). now rewrite lookup_insert_ne.
    + destruct (players (game s) !! id0) as [pl |] eqn:Hid;
        [| unfold disconnect; now rewrite Hid].
      rewrite (bt_disconnect_players _ _ _ Hid). now rewrite lookup_delete_ne.
  - assert (Hcase : e = AdminResetPlayers \/ e <> AdminResetPlayers)
      by (destruct e; (now left) || (right; discriminate)).
    destruct Hcase as [-> | Hne]; [apply lookup_empty |].
    destruct (bt_others_ledger e s Hpe Hne) as (-> & _). exact H.
Qed.

Lemma bt_socket_has_no_say id evs s :
  players (game s) !! id = None ->
  forallb (fun e => negb (joinOf id e)) evs = true ->
  run evs s = run (List.filter (fun e => negb (fromSocket id e)) evs) s.
Proof.
  revert s. induction evs as [| e evs IH]; intros s H Hj; [reflexivity |].
  simpl in Hj. apply andb_true_iff in Hj as [He Hj]. apply negb_true_iff in He.
  cbn [List.filter]. destruct (fromSocket id e) eqn:Hf; cbn [negb].
  - rewrite bt_run_cons, (bt_unknown_socket e s id H Hf He). now apply IH.
  - rewrite !bt_run_cons. apply IH; [| exact Hj]. now apply bt_stays_unknown.
Qed.

(** *** The log and the score along a run *)

Lemma bt_log_history evs s log :
  maxRecentInputs (game s) = 30%nat ->
  recentInputs (game s) = firstn 30 log ->
  recentInputs (game (run evs s)) = firstn 30 (accepted evs s log).
Proof.
  revert s log. induction evs as [| e evs IH]; intros s log Hm Hl; [exact Hl |].
  rewrite bt_run_cons. cbn [accepted]. apply IH.
  - destruct (playerEvent e) eqn:Hpe.
    + destruct (bt_handlers_next e s Hpe) as [_ ->]. exact Hm.
    + assert (Hcase : e = AdminResetPlayers \/ e <> AdminResetPlayers)
        by (destruct e; (now left) || (right; discriminate)).
      destruct Hcase as [-> | Hne]; [exact Hm |].
      destruct (bt_others_ledger e s Hpe Hne) as (_ & _ & ->). exact Hm.
  - destruct e; simpl.
    + destruct (gameLoop s); [| exact Hl].
      destruct (tick (game s)) as [g b] eqn:E.
      assert (Eg : g = (tick (game s)).1) by now rewrite E.
      simpl. subst g.
      pose proof (bt_tick_ledger (game s)) as Hf. unfold ledgerPart in Hf.
      injection Hf as _ _ E3 _ _ _ _ _. now rewrite E3.
    + destruct (pendingResets s); exact Hl.
    + exact Hl.
    + destruct (players (game s) !! id) as [pl |] eqn:Hid;
        [| now rewrite bt_playerInput_absent].
      rewrite (bt_playerInput_log _ _ _ _ _ _ Hid), Hm, Hl. apply logInput_latest.
    + unfold playerRelease. destruct (players (game s) !! id) as [pl |]; [| exact Hl].
      now destruct (truthy (lastInput pl)).
    + unfold disconnect. now destruct (players (game s) !! id) as [pl |].
    + destruct (_ || _); [reflexivity | exact Hl].
    + destruct (status_eqb _ _); exact Hl.
    + destruct (status_eqb _ _); exact Hl.
    + reflexivity.
    + reflexivity.
Qed.

Lemma bt_step_score e s :
  score (game (step e s)) = score (game s) \/
  (e = IntervalTick /\ status (game s) = playing /\
   exists sd, score (game (step e s)) = addPoint sd (score (game s))) \/
  ((exists r1 r2 r3, e = AdminStart r1 r2 r3 \/ e = AdminReset r1 r2 r3) /\
   score (game (step e s)) = {| Score.left := 0; Score.right := 0 |}).
Proof.
  destruct (playerEvent e) eqn:Hpe.
  { left. pose proof (bt_player_frame e s Hpe) as Hf. unfold matchPart in Hf.
    now injection Hf as _ _ E _ _ _ _ _ _. }
  destruct e; try discriminate Hpe; simpl.
  - destruct (gameLoop s); [| now left].
    destruct (tick (game s)) as [g b] eqn:E.
    assert (Eg : g = (tick (game s)).1) by now rewrite E.
    simpl. subst g.
    destruct (status_eqb (status (game s)) playing) eqn:Hst.
    + apply status_eqb_eq in Hst.
      destruct (bt_tick_match _ Hst) as (_ & _ & Hm).
      destruct (scoringSide _) as [sd |].
      * destruct Hm as (_ & ->). right; left. eauto.
      * destruct Hm as (_ & ->). now left.
    + left. rewrite bt_tick_idle; [reflexivity |].
      intros A. apply status_eqb_eq in A. congruence.
  - left. now destruct (pendingResets s).
  - destruct (_ || _); [| now left]. right; right. split; [eauto | reflexivity].
  - left. now destruct (status_eqb _ _).
  - left. now destruct (status_eqb _ _).
  - right; right. split; [eauto | reflexivity].
  - now left.
Qed.

(** *** Votes that follow one another *)

Lemma bt_last_input_wins id d d' t1 t2 t3 t4 g t :
  (forall t, paddleNonneg (paddleOf t g)) ->
  paddleOf t (playerInput id d' t3 t4 (playerInput id d t1 t2 g))
  = paddleOf t (playerInput id d' t3 t4 g) /\
  players (playerInput id d' t3 t4 (playerInput id d t1 t2 g))
  = players (playerInput id d' t3 t4 g).
Proof.
  intros Hg. destruct (players g !! id) as [pl |] eqn:Hid.
  - assert (Hid1 : players (playerInput id d t1 t2 g) !! id
                   = Some (mkPlayer (number pl) d (Some t1))).
    { rewrite (bt_playerInput_players _ _ _ _ _ _ Hid). apply lookup_insert_eq. }
    split.
    + rewrite (bt_playerInput_paddle _ _ _ _ _ _ t Hid1). cbn [lastInput].
      rewrite !(bt_playerInput_paddle _ _ _ _ _ _ t Hid).
      rewrite retractVote_addVote; [reflexivity |].
      apply retractVote_keeps_nonneg, Hg.
    + rewrite (bt_playerInput_players _ _ _ _ _ _ Hid1). cbn [number].
      rewrite !(bt_playerInput_players _ _ _ _ _ _ Hid).
      apply insert_insert_eq.
  - now rewrite !(bt_playerInput_absent _ _ _ _ _ Hid).
Qed.

Lemma bt_press_and_release id d t1 t2 g pl t :
  players g !! id = Some pl -> lastInput pl = JNull ->
  (forall t, paddleNonneg (paddleOf t g)) ->
  paddleOf t (playerRelease id (playerInput id d t1 t2 g)) = paddleOf t g.
Proof.
  intros Hid Hnull Hg.
  assert (Hid1 : players (playerInput id d t1 t2 g) !! id
                 = Some (mkPlayer (number pl) d (Some t1))).
  { rewrite (bt_playerInput_players _ _ _ _ _ _ Hid). apply lookup_insert_eq. }
  assert (Hp : paddleOf t (playerInput id d t1 t2 g) = addVote d (paddleOf t g)).
  { rewrite (bt_playerInput_paddle _ _ _ _ _ _ t Hid), Hnull.
    now rewrite retractVote_null. }
  destruct (truthy d) eqn:Ht.
  - rewrite (bt_playerRelease_paddle _ _ _ t Hid1 Ht). cbn [lastInput].
    rewrite Hp. apply retractVote_addVote, Hg.
  - rewrite (bt_playerRelease_idle _ _ _ Hid1 Ht), Hp.
    now apply falsy_is_no_vote.
Qed.
End BallTrackingLaws.

(** ** Facts about the address of the server *)

Section NetworkFacts.
Import Network.

Lemma firstUsable_spec entries :
  (firstUsable entries = None /\ Forall (fun i => usable i = false) entries) \/
  (exists pre i post,
     entries = pre ++ i :: post /\ Forall (fun i => usable i = false) pre /\
     usable i = true /\ firstUsable entries = Some (address i)).
Proof.
  induction entries as [| i entries IH]; [left; split; [reflexivity | constructor] |].
  simpl. destruct (usable i) eqn:E.
  - right. exists [], i, entries.
    split; [reflexivity | split; [constructor | split; [exact E | reflexivity]]].
  - destruct IH as [[H1 H2] | (pre & j & post & -> & Hpre & Hj & Hf)].
    + left. split; [exact H1 | now constructor].
    + right. exists (i :: pre), j, post.
      split; [reflexivity | split; [now constructor | split; assumption]].
Qed.

Lemma getLocalIP_spec interfaces :
  let entries := flat_map snd interfaces in
  (getLocalIP interfaces = "localhost" /\ Forall (fun i => usable i = false) entries) \/
  (exists pre i post,
     entries = pre ++ i :: post /\ Forall (fun i => usable i = false) pre /\
     usable i = true /\ getLocalIP interfaces = address i).
Proof.
  cbv zeta. induction interfaces as [| [name entries] interfaces IH];
    [left; split; [reflexivity | constructor] |].
  cbn [getLocalIP flat_map snd].
  destruct (firstUsable_spec entries)
    as [[H1 H2] | (pre & i & post & -> & Hpre & Hi & Hf)].
  - rewrite H1. destruct IH as [[E1 E2] | (pre & j & post & E & Hpre & Hj & Hf)].
    + left. split; [exact E1 |]. apply Forall_app. now split.
    + right. exists (entries ++ pre), j, post.
      rewrite E, <- app_assoc.
      split; [reflexivity | split; [| split; assumption]].
      apply Forall_app. now split.
  - rewrite Hf. right. exists pre, i, (post ++ flat_map snd interfaces).
    rewrite <- app_assoc.
    split; [reflexivity | split; [assumption | split; [assumption | reflexivity]]].
Qed.

Lemma autoDetect_keeps req url : given url = true -> autoDetect req url = url.
Proof.
  intros H. unfold autoDetect. rewrite H. simpl. now destruct (host req).
Qed.

Lemma append_nonempty (s t : string) : t <> EmptyString -> s +:+ t <> EmptyString.
Proof. intros H. destruct s; simpl; [exact H | discriminate]. Qed.

Lemma autoDetect_sets req url :
  autoDetect req url = url \/ given (autoDetect req url) = true.
Proof.
  unfold autoDetect. destruct (host req) as [h |]; [| now left].
  destruct (_ && _); [right | now left].
  simpl. apply negb_true_iff, String.eqb_neq, append_nonempty. discriminate.
Qed.

Lemma served_keeps reqs url : given url = true -> served reqs url = url.
Proof.
  revert url. induction reqs as [| r reqs IH]; intros url H; [reflexivity |].
  unfold served in *. simpl. rewrite autoDetect_keeps by exact H. now apply IH.
Qed.

Lemma served_app reqs reqs' url :
  served (reqs ++ reqs') url = served reqs' (served reqs url).
Proof. unfold served. apply fold_left_app. Qed.



End NetworkFacts.

(** * Further properties *)

(** ** The scoreboard and the ball speed *)

(** X2. In every state of every run of either server no side has more than
    [WINNING_SCORE] points, the two sides are never both at [WINNING_SCORE],
    and the status is [finished] exactly when one side is at
    [WINNING_SCORE]. *)
Theorem scores_stop_at_the_winning_score
    (rnd : Q) (evs : list FixedTeam.event) (evs' : list BallTracking.event) :
  FixedTeam.scoreLaw (FixedTeam.game (FixedTeam.run evs (FixedTeam.boot rnd))) /\
  BallTracking.scoreLaw
    (BallTracking.game (BallTracking.run evs' (BallTracking.boot rnd))).
Proof. split; [apply ft_reachable_laws | apply bt_reachable_laws]. Qed.

(** X3. In every state of every run of [server.js] the round is one more
    than the goals of the match so far and the ball speed is
    [INITIAL_BALL_SPEED] plus [SPEED_INCREMENT] for each of these goals, so
    between 5 and 11.5.  In the second server the ball speed stays at its
    [INITIAL_BALL_SPEED]. *)
Theorem ball_speed_counts_the_goals
    (rnd : Q) (evs : list FixedTeam.event) (evs' : list BallTracking.event) :
  let g := FixedTeam.game (FixedTeam.run evs (FixedTeam.boot rnd)) in
  let g' := BallTracking.game (BallTracking.run evs' (BallTracking.boot rnd)) in
  FixedTeam.speedLaw g /\
  5 <= FixedTeam.ballSpeed g <= 11.5 /\
  BallTracking.ballSpeed g' = BallTracking.INITIAL_BALL_SPEED.
Proof.
  cbv zeta. destruct (ft_reachable_laws evs rnd) as (Hsc & Hsp & _).
  split; [exact Hsp | split; [| apply bt_reachable_laws]].
  pose proof (ft_speed_floor _ Hsc Hsp) as Hfloor.
  destruct Hsc as (Hl & Hr & Hboth & _). destruct Hsp as [_ Hs].
  unfold FixedTeam.INITIAL_BALL_SPEED, FixedTeam.SPEED_INCREMENT, WINNING_SCORE in *.
  split; [exact Hfloor |]. rewrite Hs.
  set (k := (Score.left _ + Score.right _)%Z) in *.
  assert (Hk : inject_Z k <= inject_Z 13)
    by (rewrite <- Zle_Qle; subst k; lia).
  clearbody k. change (inject_Z 13) with 13 in Hk. lra.
Qed.

(** X4. In every state of every run the ball is between the top and the
    bottom wall ([0 <= ball.y <= CANVAS_HEIGHT - BALL_SIZE]).  In
    [server.js] its speed from side to side is at least 5 and at most the
    current ball speed, in either direction; in the second server it is
    exactly 3, in either direction.  So the ball never stops moving toward
    one of the goals. *)
Theorem ball_stays_between_the_walls_and_keeps_its_pace
    (rnd : Q) (evs : list FixedTeam.event) (evs' : list BallTracking.event) :
  FixedTeam.ballLaw (FixedTeam.game (FixedTeam.run evs (FixedTeam.boot rnd))) /\
  BallTracking.ballLaw
    (BallTracking.game (BallTracking.run evs' (BallTracking.boot rnd))).
Proof. split; [apply ft_reachable_laws | apply bt_reachable_laws]. Qed.

(** X5. When every [Math.random()] read by the events of a run is in
    [[0, 1)], the ball is never steeper than 1.25 times the ball speed, in
    either server: a serve gives at most the ball speed and a paddle hit,
    which can be as far as [BALL_SIZE] above the top of the paddle, at most
    1.25 times it. *)
Theorem ball_is_never_steeper_than_a_hit_allows
    (rnd : Q) (evs : list FixedTeam.event) (evs' : list BallTracking.event) :
  forallb FixedTeam.fairEvent evs = true ->
  forallb BallTracking.fairEvent evs' = true ->
  FixedTeam.steepness (FixedTeam.game (FixedTeam.run evs (FixedTeam.boot rnd))) /\
  BallTracking.steepness
    (BallTracking.game (BallTracking.run evs' (BallTracking.boot rnd))).
Proof.
  intros H H'. split; [now apply ft_reachable_steepness | now apply bt_reachable_steepness].
Qed.

Lemma ball_is_never_steeper_than_a_hit_allows_witness :
  FixedTeam.steepness
    (FixedTeam.game
       (FixedTeam.run
          [FixedTeam.AdminStart 0.3 0.7 0.9; FixedTeam.IntervalTick;
           FixedTeam.TimeoutFire 0.1]
          (FixedTeam.boot 0))) /\
  BallTracking.steepness
    (BallTracking.game
       (BallTracking.run
          [BallTracking.AdminStart 0.3 0.7 0.9; BallTracking.IntervalTick;
           BallTracking.TimeoutFire 0.1]
          (BallTracking.boot 0))).
Proof.
  apply ball_is_never_steeper_than_a_hit_allows; reflexivity.
Defined.

(** ** The players *)

(** X6. In every state of every run the numbers of the players present are
    at least 1 and below [nextPlayerNumber], and no two sockets have the
    same number; in [server.js] the players with an even number are on the
    left team and those with an odd number on the right team. *)
Theorem player_numbers_identify_the_players
    (rnd : Q) (evs : list FixedTeam.event) (evs' : list BallTracking.event) :
  FixedTeam.rosterLaw (FixedTeam.game (FixedTeam.run evs (FixedTeam.boot rnd))) /\
  BallTracking.rosterLaw
    (BallTracking.game (BallTracking.run evs' (BallTracking.boot rnd))).
Proof. split; [apply ft_reachable_roster | apply bt_reachable_roster]. Qed.

(** X7. As long as no socket joins twice, no tally ever counts more votes
    than there are players present who hold that vote (on that team, in
    [server.js]), whatever else happens: ticks, round resets, admin
    commands, inputs with any direction value, releases, disconnects. *)
Theorem tallies_never_count_more_than_the_holders
    (rnd : Q) (evs : list FixedTeam.event) (evs' : list BallTracking.event) :
  FixedTeam.freshJoins evs (FixedTeam.boot rnd) = true ->
  BallTracking.freshJoins evs' (BallTracking.boot rnd) = true ->
  FixedTeam.backed (FixedTeam.game (FixedTeam.run evs (FixedTeam.boot rnd))) /\
  BallTracking.backed
    (BallTracking.game (BallTracking.run evs' (BallTracking.boot rnd))).
Proof.
  intros H H'. split; [now apply ft_reachable_backed | now apply bt_reachable_backed].
Qed.

Lemma tallies_never_count_more_than_the_holders_witness :
  FixedTeam.backed
    (FixedTeam.game
       (FixedTeam.run
          [FixedTeam.PlayerJoin "a"; FixedTeam.PlayerInput "a" up 0 0;
           FixedTeam.AdminStart 0 1 0; FixedTeam.PlayerJoin "b";
           FixedTeam.PlayerRelease "a"]
          (FixedTeam.boot 0))) /\
  BallTracking.backed
    (BallTracking.game
       (BallTracking.run
          [BallTracking.PlayerJoin "a"; BallTracking.PlayerInput "a" up 0 0;
           BallTracking.AdminStart 0 1 0; BallTracking.PlayerJoin "b";
           BallTracking.PlayerRelease "a"]
          (BallTracking.boot 0))).
Proof.
  apply tallies_never_count_more_than_the_holders; vm_compute; reflexivity.
Defined.

(** X8. In [server.js], as long as no socket joins twice and nobody
    disconnects, the roster figures the server reports are those of an
    alternating assignment: with [n] the joins since the last
    [admin:resetPlayers], [n] players are present, [n / 2] of them on the
    left team and the other [(n + 1) / 2] on the right team.  So the teams
    differ by one player at most and the right team is never the smaller. *)
Theorem teams_stay_balanced_while_nobody_leaves
    (rnd : Q) (evs : list FixedTeam.event) :
  FixedTeam.freshJoins evs (FixedTeam.boot rnd) = true ->
  forallb FixedTeam.staysConnected evs = true ->
  let g := FixedTeam.game (FixedTeam.run evs (FixedTeam.boot rnd)) in
  let r := FixedTeam.roster g in
  let n := (FixedTeam.nextPlayerNumber g - 1)%Z in
  Z.of_nat (FixedTeam.playerCount r) = n /\
  Z.of_nat (FixedTeam.leftTeamCount r) = (n / 2)%Z /\
  Z.of_nat (FixedTeam.rightTeamCount r) = ((n + 1) / 2)%Z /\
  (FixedTeam.rightTeamCount r = FixedTeam.leftTeamCount r \/
   FixedTeam.rightTeamCount r = S (FixedTeam.leftTeamCount r)).
Proof.
  intros Hf Hc. cbv zeta.
  destruct (ft_reachable_teams evs rnd Hf Hc) as (H1 & H2 & H3).
  unfold FixedTeam.roster. simpl.
  set (next := FixedTeam.nextPlayerNumber _) in *.
  replace (next - 1 + 1)%Z with next by lia.
  split; [exact H1 | split; [exact H2 | split; [exact H3 |]]].
  assert (Hn : (0 <= next - 1)%Z) by lia.
  clearbody next.
  destruct (Z.eq_dec ((next - 1) / 2)%Z (next / 2)%Z) as [E | E]; [left | right];
    revert E H2 H3 Hn; Z.to_euclidean_division_equations; lia.
Qed.

Lemma teams_stay_balanced_while_nobody_leaves_witness :
  let g := FixedTeam.game
             (FixedTeam.run
                [FixedTeam.PlayerJoin "a"; FixedTeam.PlayerJoin "b";
                 FixedTeam.PlayerInput "a" up 0 0; FixedTeam.PlayerJoin "c"]
                (FixedTeam.boot 0)) in
  let r := FixedTeam.roster g in
  let n := (FixedTeam.nextPlayerNumber g - 1)%Z in
  Z.of_nat (FixedTeam.playerCount r) = n /\
  Z.of_nat (FixedTeam.leftTeamCount r) = (n / 2)%Z /\
  Z.of_nat (FixedTeam.rightTeamCount r) = ((n + 1) / 2)%Z /\
  (FixedTeam.rightTeamCount r = FixedTeam.leftTeamCount r \/
   FixedTeam.rightTeamCount r = S (FixedTeam.leftTeamCount r)).
Proof.
  apply teams_stay_balanced_while_nobody_leaves; vm_compute; reflexivity.
Defined.

(** X9. In every run the log of recent inputs is the list of the latest
    [maxRecentInputs] inputs that found their player since the log was last
    emptied (by [resetGame] or [admin:resetPlayers]), newest first;
    [maxRecentInputs] is 20 in [server.js] and 30 in the second server.  The
    inputs of unknown sockets are not logged, and nothing else is. *)
Theorem input_log_keeps_the_latest_inputs
    (rnd : Q) (evs : list FixedTeam.event) (evs' : list BallTracking.event) :
  let g := FixedTeam.game (FixedTeam.run evs (FixedTeam.boot rnd)) in
  let g' := BallTracking.game (BallTracking.run evs' (BallTracking.boot rnd)) in
  (FixedTeam.maxRecentInputs g = 20%nat /\
   FixedTeam.recentInputs g
   = firstn 20 (FixedTeam.accepted evs (FixedTeam.boot rnd) [])) /\
  (BallTracking.maxRecentInputs g' = 30%nat /\
   BallTracking.recentInputs g'
   = firstn 30 (BallTracking.accepted evs' (BallTracking.boot rnd) [])).
Proof.
  cbv zeta. split.
  - split; [apply ft_reachable_log | now apply ft_log_history].
  - split; [apply bt_reachable_log | now apply bt_log_history].
Qed.

(** X10. In every state of every run of the second server the two paddles
    carry the same up tally and the same down tally, so the shares that
    ['game:state'] gives for the active paddle are those it gives for the
    left and for the right paddle. *)
Theorem both_paddles_carry_the_same_tallies
    (rnd : Q) (evs : list BallTracking.event) :
  let g := BallTracking.game (BallTracking.run evs (BallTracking.boot rnd)) in
  let v := BallTracking.viewOf g in
  BallTracking.twinTallies g /\
  BallTracking.v_activeUpRatio v
  = PaddleView.upRatio (BallTracking.v_leftPaddle v) /\
  BallTracking.v_activeUpRatio v
  = PaddleView.upRatio (BallTracking.v_rightPaddle v) /\
  BallTracking.v_activeDownRatio v
  = PaddleView.downRatio (BallTracking.v_leftPaddle v) /\
  BallTracking.v_activeDownRatio v
  = PaddleView.downRatio (BallTracking.v_rightPaddle v).
Proof.
  cbv zeta. pose proof (bt_reachable_twin evs rnd) as [Hu Hd].
  split; [now split |].
  unfold BallTracking.viewOf, paddleView, voteShare. simpl.
  destruct (BallTracking.activePaddle _); simpl; rewrite ?Hu, ?Hd; repeat split;
    try reflexivity; now rewrite <- ?Hu, <- ?Hd.
Qed.

(** ** The status of the match *)

(** X11. An event either leaves the status as it is or moves it along the
    cycle of the match: [admin:start] from waiting or finished to playing,
    [admin:pause] from playing to paused, [admin:resume] from paused to
    playing, a tick from playing to finished, [admin:reset] from anywhere to
    waiting.  Nothing else changes it: a paused match, for one, cannot
    finish, and no player event changes the status. *)
Theorem status_moves_only_along_the_match_cycle
    (e : FixedTeam.event) (s : FixedTeam.server)
    (e' : BallTracking.event) (s' : BallTracking.server) :
  (FixedTeam.status (FixedTeam.game (FixedTeam.step e s))
   = FixedTeam.status (FixedTeam.game s) \/
   FixedTeam.allowedMove e (FixedTeam.status (FixedTeam.game s))
     (FixedTeam.status (FixedTeam.game (FixedTeam.step e s))) = true) /\
  (BallTracking.status (BallTracking.game (BallTracking.step e' s'))
   = BallTracking.status (BallTracking.game s') \/
   BallTracking.allowedMove e' (BallTracking.status (BallTracking.game s'))
     (BallTracking.status (BallTracking.game (BallTracking.step e' s'))) = true).
Proof. split; [apply ft_step_status | apply bt_step_status]. Qed.

(** X12. Pausing a match that is being played, letting the interval fire
    any number of times and resuming gives back the very state of the
    process that was paused: ball, paddles, tallies, players and log. *)
Theorem pause_and_resume_restore_the_match
    (s : FixedTeam.server) (s' : BallTracking.server) (n : nat) :
  FixedTeam.status (FixedTeam.game s) = playing ->
  BallTracking.status (BallTracking.game s') = playing ->
  FixedTeam.run
    (FixedTeam.AdminPause :: repeat FixedTeam.IntervalTick n ++ [FixedTeam.AdminResume])
    s = s /\
  BallTracking.run
    (BallTracking.AdminPause :: repeat BallTracking.IntervalTick n
       ++ [BallTracking.AdminResume])
    s' = s'.
Proof. intros H H'. split; [now apply ft_pause_resume | now apply bt_pause_resume]. Qed.

Lemma pause_and_resume_restore_the_match_witness :
  let s := FixedTeam.run [FixedTeam.AdminStart 0 1 0; FixedTeam.IntervalTick]
             (FixedTeam.boot 0) in
  let s' := BallTracking.run [BallTracking.AdminStart 0 1 0; BallTracking.IntervalTick]
              (BallTracking.boot 0) in
  FixedTeam.run
    (FixedTeam.AdminPause :: repeat FixedTeam.IntervalTick 3 ++ [FixedTeam.AdminResume])
    s = s /\
  BallTracking.run
    (BallTracking.AdminPause :: repeat BallTracking.IntervalTick 3
       ++ [BallTracking.AdminResume])
    s' = s'.
Proof.
  apply pause_and_resume_restore_the_match; vm_compute; reflexivity.
Defined.

(** X13. The events of the players (join, input with any direction value,
    release, disconnect) change nothing of the match: status, ball, score,
    round, ball speed, the positions of the paddles, the interval and the
    outstanding round resets stay as they are.  A tick, in turn, changes
    nothing of the ledger: players, next number, log and the four tallies. *)
Theorem players_and_ticks_keep_to_their_parts
    (s : FixedTeam.server) (s' : BallTracking.server)
    (id : string) (direction : jsval) (t1 t2 : Z) :
  (FixedTeam.matchPart (FixedTeam.step (FixedTeam.PlayerJoin id) s)
   = FixedTeam.matchPart s /\
   FixedTeam.matchPart (FixedTeam.step (FixedTeam.PlayerInput id direction t1 t2) s)
   = FixedTeam.matchPart s /\
   FixedTeam.matchPart (FixedTeam.step (FixedTeam.PlayerRelease id) s)
   = FixedTeam.matchPart s /\
   FixedTeam.matchPart (FixedTeam.step (FixedTeam.Disconnect id) s)
   = FixedTeam.matchPart s /\
   FixedTeam.ledgerPart (FixedTeam.game (FixedTeam.step FixedTeam.IntervalTick s))
   = FixedTeam.ledgerPart (FixedTeam.game s)) /\
  (BallTracking.matchPart (BallTracking.step (BallTracking.PlayerJoin id) s')
   = BallTracking.matchPart s' /\
   BallTracking.matchPart
     (BallTracking.step (BallTracking.PlayerInput id direction t1 t2) s')
   = BallTracking.matchPart s' /\
   BallTracking.matchPart (BallTracking.step (BallTracking.PlayerRelease id) s')
   = BallTracking.matchPart s' /\
   BallTracking.matchPart (BallTracking.step (BallTracking.Disconnect id) s')
   = BallTracking.matchPart s' /\
   BallTracking.ledgerPart
     (BallTracking.game (BallTracking.step BallTracking.IntervalTick s'))
   = BallTracking.ledgerPart (BallTracking.game s')).
Proof.
  split.
  - repeat (split; [now apply ft_player_frame |]).
    cbn [FixedTeam.step]. destruct (FixedTeam.gameLoop s); [| reflexivity].
    pose proof (ft_tick_ledger (FixedTeam.game s)) as H.
    now destruct (FixedTeam.tick (FixedTeam.game s)).
  - repeat (split; [now apply bt_player_frame |]).
    cbn [BallTracking.step]. destruct (BallTracking.gameLoop s'); [| reflexivity].
    pose proof (bt_tick_ledger (BallTracking.game s')) as H.
    now destruct (BallTracking.tick (BallTracking.game s')).
Qed.

(** X14. A socket that never joins has no say: its inputs, releases and
    disconnect can be taken out of any run, from the start of the process,
    without changing the state the run ends in.  (Each of them finds no
    player and returns at once.) *)
Theorem socket_that_never_joins_has_no_say
    (rnd : Q) (id : string)
    (evs : list FixedTeam.event) (evs' : list BallTracking.event) :
  forallb (fun e => negb (FixedTeam.joinOf id e)) evs = true ->
  forallb (fun e => negb (BallTracking.joinOf id e)) evs' = true ->
  FixedTeam.run evs (FixedTeam.boot rnd)
  = FixedTeam.run (List.filter (fun e => negb (FixedTeam.fromSocket id e)) evs)
      (FixedTeam.boot rnd) /\
  BallTracking.run evs' (BallTracking.boot rnd)
  = BallTracking.run (List.filter (fun e => negb (BallTracking.fromSocket id e)) evs')
      (BallTracking.boot rnd).
Proof.
  intros H H'. split.
  - now apply ft_socket_has_no_say.
  - now apply bt_socket_has_no_say.
Qed.

Lemma socket_that_never_joins_has_no_say_witness :
  let evs := [FixedTeam.PlayerJoin "a"; FixedTeam.PlayerInput "ghost" up 1 1;
              FixedTeam.AdminStart 0 1 0; FixedTeam.PlayerInput "a" down 2 2;
              FixedTeam.IntervalTick; FixedTeam.PlayerRelease "ghost";
              FixedTeam.Disconnect "ghost"] in
  let evs' := [BallTracking.PlayerJoin "a"; BallTracking.PlayerInput "ghost" up 1 1;
               BallTracking.AdminStart 0 1 0; BallTracking.PlayerInput "a" down 2 2;
               BallTracking.IntervalTick; BallTracking.PlayerRelease "ghost";
               BallTracking.Disconnect "ghost"] in
  FixedTeam.run evs (FixedTeam.boot 0)
  = FixedTeam.run (List.filter (fun e => negb (FixedTeam.fromSocket "ghost" e)) evs)
      (FixedTeam.boot 0) /\
  BallTracking.run evs' (BallTracking.boot 0)
  = BallTracking.run
      (List.filter (fun e => negb (BallTracking.fromSocket "ghost" e)) evs')
      (BallTracking.boot 0).
Proof.
  apply socket_that_never_joins_has_no_say; reflexivity.
Defined.

(** X15. A second ['player:join'] on a socket whose player holds up gives
    the socket a new player, with the next number and no direction, and
    takes no vote back: the up tally that counted the holders (of the old
    player's team, in [server.js]) now counts one vote more than there are
    holders. *)
Theorem second_join_leaves_the_held_vote_counted
    (g : FixedTeam.gameState) (g' : BallTracking.gameState) (id : string)
    (pl : FixedTeam.player) (pl' : BallTracking.player) :
  FixedTeam.players g !! id = Some pl ->
  FixedTeam.lastInput pl = up ->
  Paddle.upVotes (FixedTeam.paddleOf (FixedTeam.team pl) g)
  = Z.of_nat (FixedTeam.holders (FixedTeam.team pl) "up" (FixedTeam.players g)) ->
  BallTracking.players g' !! id = Some pl' ->
  BallTracking.lastInput pl' = up ->
  (forall t, Paddle.upVotes (BallTracking.paddleOf t g')
             = Z.of_nat (BallTracking.holders "up" (BallTracking.players g'))) ->
  let joined := FixedTeam.playerJoin id g in
  let joined' := BallTracking.playerJoin id g' in
  (FixedTeam.lastInput <$> (FixedTeam.players joined !! id) = Some JNull /\
   FixedTeam.number <$> (FixedTeam.players joined !! id)
   = Some (FixedTeam.nextPlayerNumber g) /\
   Paddle.upVotes (FixedTeam.paddleOf (FixedTeam.team pl) joined)
   = (Z.of_nat (FixedTeam.holders (FixedTeam.team pl) "up" (FixedTeam.players joined))
      + 1)%Z) /\
  (BallTracking.lastInput <$> (BallTracking.players joined' !! id) = Some JNull /\
   BallTracking.number <$> (BallTracking.players joined' !! id)
   = Some (BallTracking.nextPlayerNumber g') /\
   forall t, Paddle.upVotes (BallTracking.paddleOf t joined')
             = (Z.of_nat (BallTracking.holders "up" (BallTracking.players joined'))
                + 1)%Z).
Proof.
  intros Hid Hup Ht Hid' Hup' Ht'. cbv zeta. split.
  - unfold FixedTeam.playerJoin.
    cbn [FixedTeam.players FixedTeam.set_players FixedTeam.set_nextPlayerNumber].
    rewrite lookup_insert_eq. split; [reflexivity | split; [reflexivity |]].
    set (new := FixedTeam.mkPlayer _ _ _ _).
    destruct (ft_holders_replace _ _ _ new (FixedTeam.team pl) "up" Hid) as [C _].
    unfold FixedTeam.votesFor in C. rewrite Hup in C. simpl in C.
    assert (Es : side_eqb (FixedTeam.team pl) (FixedTeam.team pl) = true)
      by now destruct (FixedTeam.team pl).
    rewrite Es, andb_false_r in C. simpl in C.
    transitivity (Paddle.upVotes (FixedTeam.paddleOf (FixedTeam.team pl) g));
      [now destruct (FixedTeam.team pl) |].
    rewrite Ht. lia.
  - unfold BallTracking.playerJoin.
    cbn [BallTracking.players BallTracking.set_players
         BallTracking.set_nextPlayerNumber].
    rewrite lookup_insert_eq. split; [reflexivity | split; [reflexivity |]].
    intros t. set (new := BallTracking.mkPlayer _ _ _).
    destruct (bt_holders_replace _ _ _ new "up" Hid') as [C _].
    unfold BallTracking.votesFor in C. rewrite Hup' in C. simpl in C.
    transitivity (Paddle.upVotes (BallTracking.paddleOf t g')); [now destruct t |].
    rewrite Ht'. lia.
Qed.

Lemma second_join_leaves_the_held_vote_counted_witness :
  let g := FixedTeam.game
             (FixedTeam.run [FixedTeam.PlayerJoin "a"; FixedTeam.PlayerInput "a" up 0 0]
                (FixedTeam.boot 0)) in
  let g' := BallTracking.game
              (BallTracking.run
                 [BallTracking.PlayerJoin "a"; BallTracking.PlayerInput "a" up 0 0]
                 (BallTracking.boot 0)) in
  let pl := FixedTeam.mkPlayer 1 sideRight up (Some 0%Z) in
  let joined := FixedTeam.playerJoin "a" g in
  let joined' := BallTracking.playerJoin "a" g' in
  (FixedTeam.lastInput <$> (FixedTeam.players joined !! "a") = Some JNull /\
   FixedTeam.number <$> (FixedTeam.players joined !! "a")
   = Some (FixedTeam.nextPlayerNumber g) /\
   Paddle.upVotes (FixedTeam.paddleOf (FixedTeam.team pl) joined)
   = (Z.of_nat (FixedTeam.holders (FixedTeam.team pl) "up" (FixedTeam.players joined))
      + 1)%Z) /\
  (BallTracking.lastInput <$> (BallTracking.players joined' !! "a") = Some JNull /\
   BallTracking.number <$> (BallTracking.players joined' !! "a")
   = Some (BallTracking.nextPlayerNumber g') /\
   forall t, Paddle.upVotes (BallTracking.paddleOf t joined')
             = (Z.of_nat (BallTracking.holders "up" (BallTracking.players joined'))
                + 1)%Z).
Proof.
  cbv zeta.
  apply (second_join_leaves_the_held_vote_counted _ _ "a"
           (FixedTeam.mkPlayer 1 sideRight up (Some 0%Z))
           (BallTracking.mkPlayer 1 up (Some 0%Z)));
    try (vm_compute; reflexivity).
  intros []; vm_compute; reflexivity.
Defined.

(** X16. From any state of a run, [admin:reset] followed by
    [admin:resetPlayers] brings the game state back to the one the process
    started with, but for the ball, which is served anew (to a random side,
    at a random angle) and, in the second server, for the active paddle,
    which is left as it was. *)
Theorem full_reset_returns_to_the_boot_state
    (rnd r1 r2 r3 : Q) (evs : list FixedTeam.event) (evs' : list BallTracking.event) :
  FixedTeam.game
    (FixedTeam.run (evs ++ [FixedTeam.AdminReset r1 r2 r3; FixedTeam.AdminResetPlayers])
       (FixedTeam.boot rnd))
  = FixedTeam.set_ball (servedBall FixedTeam.INITIAL_BALL_SPEED (coin r2) r3)
      (FixedTeam.initialState rnd) /\
  BallTracking.game
    (BallTracking.run
       (evs' ++ [BallTracking.AdminReset r1 r2 r3; BallTracking.AdminResetPlayers])
       (BallTracking.boot rnd))
  = BallTracking.set_activePaddle
      (BallTracking.activePaddle
         (BallTracking.game (BallTracking.run evs' (BallTracking.boot rnd))))
      (BallTracking.set_ball (servedBall BallTracking.INITIAL_BALL_SPEED (coin r2) r3)
         (BallTracking.initialState rnd)).
Proof.
  split.
  - rewrite ft_run_app. apply ft_full_reset, ft_reachable_log.
  - rewrite bt_run_app. apply bt_full_reset, bt_reachable_log.
Qed.

(** ** The ball and the paddles in one tick *)

(** X17. In one tick at most one paddle returns the ball (the paddle checks
    are 1115 pixels apart).  The left paddle returns only a ball that moves
    left and is at [x <= PADDLE_WIDTH + 20], the right paddle only one that
    moves right and is at [x >= CANVAS_WIDTH - PADDLE_WIDTH - 20 - BALL_SIZE];
    the ball returned moves the other way, and its vertical speed, set by
    the point of the hit, is between -1.25 times and once the ball speed.
    When no paddle returns it the ball is left as it is. *)
Theorem one_paddle_at_most_returns_the_ball
    (speed : Q) (leftPaddle rightPaddle : Paddle.t) (ball : Ball.t) :
  0 <= speed ->
  let returned := paddleCollisions speed leftPaddle rightPaddle ball in
  let hits := paddleHits speed leftPaddle rightPaddle ball in
  (hits = [] /\ returned = ball) \/
  (hits = [sideLeft] /\ returned = bounce speed leftPaddle ball /\
   Ball.x ball <= PADDLE_WIDTH + 20 /\ movesLeft ball /\ movesRight returned /\
   - (1.25 * speed) <= Ball.vy returned <= speed) \/
  (hits = [sideRight] /\ returned = bounce speed rightPaddle ball /\
   CANVAS_WIDTH - PADDLE_WIDTH - 20 - BALL_SIZE <= Ball.x ball /\
   movesRight ball /\ movesLeft returned /\
   - (1.25 * speed) <= Ball.vy returned <= speed).
Proof.
  intros Hs. cbv zeta.
  destruct (paddleCollisions_cases speed leftPaddle rightPaddle ball)
    as [(_ & _ & E & Eh) | [(Hc & E & Eh) | (_ & Hc & E & Eh)]].
  - left. now split.
  - right; left. rewrite E. split; [exact Eh | split; [reflexivity |]].
    unfold leftPaddleCollision in Hc. rewrite !andb_true_iff in Hc.
    destruct Hc as [[[Hx H1] H2] Hv].
    apply Qle_bool_iff in Hx. apply Qlt_bool_iff in Hv.
    split; [exact Hx | split; [exact Hv | split]].
    + unfold movesRight. rewrite bounce_vx. lra.
    + now apply bounce_vy_range.
  - right; right. rewrite E. split; [exact Eh | split; [reflexivity |]].
    unfold rightPaddleCollision in Hc. rewrite !andb_true_iff in Hc.
    destruct Hc as [[[Hx H1] H2] Hv].
    apply Qle_bool_iff in Hx. apply Qlt_bool_iff in Hv.
    split; [exact Hx | split; [exact Hv | split]].
    + unfold movesLeft. rewrite bounce_vx. lra.
    + now apply bounce_vy_range.
Qed.

Lemma one_paddle_at_most_returns_the_ball_witness :
  let speed := 5 in
  let leftPaddle := Paddle.mk 240 0 0 in
  let rightPaddle := Paddle.mk 240 0 0 in
  let ball := Ball.mk 30 270 (-5) 2 in
  let returned := paddleCollisions speed leftPaddle rightPaddle ball in
  let hits := paddleHits speed leftPaddle rightPaddle ball in
  (hits = [] /\ returned = ball) \/
  (hits = [sideLeft] /\ returned = bounce speed leftPaddle ball /\
   Ball.x ball <= PADDLE_WIDTH + 20 /\ movesLeft ball /\ movesRight returned /\
   - (1.25 * speed) <= Ball.vy returned <= speed) \/
  (hits = [sideRight] /\ returned = bounce speed rightPaddle ball /\
   CANVAS_WIDTH - PADDLE_WIDTH - 20 - BALL_SIZE <= Ball.x ball /\
   movesRight ball /\ movesLeft returned /\
   - (1.25 * speed) <= Ball.vy returned <= speed).
Proof.
  apply one_paddle_at_most_returns_the_ball. vm_compute. discriminate.
Defined.

(** X18. In every state of every run a tick moves each paddle by at most
    [PADDLE_SPEED] pixels, up or down: 8 in [server.js] and 6 in the second
    server, where the paddle away from the ball, which eases toward the
    centre, moves by less than that. *)
Theorem paddle_moves_at_most_its_speed_in_a_tick
    (rnd : Q) (evs : list FixedTeam.event) (evs' : list BallTracking.event)
    (t : side) :
  let g := FixedTeam.game (FixedTeam.run evs (FixedTeam.boot rnd)) in
  let g' := BallTracking.game (BallTracking.run evs' (BallTracking.boot rnd)) in
  - FixedTeam.PADDLE_SPEED
  <= Paddle.y (FixedTeam.paddleOf t (FixedTeam.tick g).1)
     - Paddle.y (FixedTeam.paddleOf t g)
  <= FixedTeam.PADDLE_SPEED /\
  - BallTracking.PADDLE_SPEED
  <= Paddle.y (BallTracking.paddleOf t (BallTracking.tick g').1)
     - Paddle.y (BallTracking.paddleOf t g')
  <= BallTracking.PADDLE_SPEED.
Proof.
  cbv zeta. split.
  - apply ft_tick_paddle_step, ft_reachable_sound.
  - apply bt_tick_paddle_step, bt_reachable_sound.
Qed.

(** X19. In every state of every run, what ['game:state'] tells about a
    paddle is well formed: the up and the down share are between 0 and 1;
    they are both 0 when the paddle has no vote (the division is by
    [Math.max(1, total)]) and add up to 1 when it has some; and the
    displacement [calculatePaddleMovement] gives the paddle is the paddle
    speed times the down share minus the up share. *)
Theorem broadcast_shares_are_well_formed
    (rnd : Q) (evs : list FixedTeam.event) (evs' : list BallTracking.event)
    (t : side) :
  let p := FixedTeam.paddleOf t
             (FixedTeam.game (FixedTeam.run evs (FixedTeam.boot rnd))) in
  let p' := BallTracking.paddleOf t
              (BallTracking.game (BallTracking.run evs' (BallTracking.boot rnd))) in
  let v := paddleView p in
  let v' := paddleView p' in
  (0 <= PaddleView.upRatio v <= 1 /\
   0 <= PaddleView.downRatio v <= 1 /\
   ((PaddleView.totalVotes v = 0%Z /\
     PaddleView.upRatio v == 0 /\ PaddleView.downRatio v == 0) \/
    ((0 < PaddleView.totalVotes v)%Z /\
     PaddleView.upRatio v + PaddleView.downRatio v == 1)) /\
   calculatePaddleMovement FixedTeam.PADDLE_SPEED p
   == FixedTeam.PADDLE_SPEED * (PaddleView.downRatio v - PaddleView.upRatio v)) /\
  (0 <= PaddleView.upRatio v' <= 1 /\
   0 <= PaddleView.downRatio v' <= 1 /\
   ((PaddleView.totalVotes v' = 0%Z /\
     PaddleView.upRatio v' == 0 /\ PaddleView.downRatio v' == 0) \/
    ((0 < PaddleView.totalVotes v')%Z /\
     PaddleView.upRatio v' + PaddleView.downRatio v' == 1)) /\
   calculatePaddleMovement BallTracking.PADDLE_SPEED p'
   == BallTracking.PADDLE_SPEED * (PaddleView.downRatio v' - PaddleView.upRatio v')).
Proof.
  cbv zeta. split; apply paddleView_shares.
  - apply ft_reachable_sound.
  - apply bt_reachable_sound.
Qed.

(** ** What the tick announces *)

(** X20. In a state that obeys the law of the scoreboard (as every state of
    a run does) a tick emits ['game:finished'] exactly when it ends the
    match: the match was being played and is finished after the tick, the
    score of the message is the score after the tick, and the winner it
    names has [WINNING_SCORE] points while the other side has less. *)
Theorem finish_is_announced_with_the_true_winner
    (g : FixedTeam.gameState) (g' : BallTracking.gameState)
    (w : side) (sc : Score.t) :
  FixedTeam.scoreLaw g ->
  BallTracking.scoreLaw g' ->
  (In (FixedTeam.GameFinished w sc) (FixedTeam.tickEmits g) <->
   FixedTeam.status g = playing /\
   FixedTeam.status (FixedTeam.tick g).1 = finished /\
   sc = FixedTeam.score (FixedTeam.tick g).1 /\
   pointsOf w sc = WINNING_SCORE /\
   (pointsOf (otherSide w) sc < WINNING_SCORE)%Z) /\
  (In (BallTracking.GameFinished w sc) (BallTracking.tickEmits g') <->
   BallTracking.status g' = playing /\
   BallTracking.status (BallTracking.tick g').1 = finished /\
   sc = BallTracking.score (BallTracking.tick g').1 /\
   pointsOf w sc = WINNING_SCORE /\
   (pointsOf (otherSide w) sc < WINNING_SCORE)%Z).
Proof.
  intros H H'. split; [now apply ft_finished_emitted | now apply bt_finished_emitted].
Qed.

(** The last tick of the match of [firstGoalRun], and of its counterpart in
    the second server: the left side goes from 6 to 7 and the tick announces
    it as the winner. *)
Lemma finish_is_announced_with_the_true_winner_witness :
  let g := FixedTeam.game
             (FixedTeam.run (FixedTeam.firstGoalRun ++ repeat FixedTeam.IntervalTick 6)
                (FixedTeam.boot 0)) in
  let g' := BallTracking.game
              (BallTracking.run (repeat BallTracking.IntervalTick 6)
                 BallTracking.beforeFirstGoal) in
  let w := sideLeft in
  let sc := {| Score.left := 7; Score.right := 0 |} in
  FixedTeam.scoreLaw g /\ BallTracking.scoreLaw g' /\
  In (FixedTeam.GameFinished w sc) (FixedTeam.tickEmits g) /\
  In (BallTracking.GameFinished w sc) (BallTracking.tickEmits g').
Proof.
  cbv zeta.
  assert (H : FixedTeam.scoreLaw
                (FixedTeam.game
                   (FixedTeam.run
                      (FixedTeam.firstGoalRun ++ repeat FixedTeam.IntervalTick 6)
                      (FixedTeam.boot 0))))
    by exact (proj1 (ft_reachable_laws
                       (FixedTeam.firstGoalRun ++ repeat FixedTeam.IntervalTick 6) 0)).
  assert (H' : BallTracking.scoreLaw
                 (BallTracking.game
                    (BallTracking.run (repeat BallTracking.IntervalTick 6)
                       BallTracking.beforeFirstGoal))).
  { apply (bt_run_invariant (fun s => BallTracking.scoreLaw (BallTracking.game s)));
      [apply bt_step_scoreLaw |].
    unfold BallTracking.scoreLaw.
    split; [vm_compute; split; discriminate |].
    split; [vm_compute; split; discriminate |].
    split; [intros [A _]; vm_compute in A; discriminate A |].
    split; [intros A; vm_compute in A; discriminate A
           | intros [A | A]; vm_compute in A; discriminate A]. }
  split; [exact H | split; [exact H' |]].
  destruct (finish_is_announced_with_the_true_winner _ _ sideLeft
              {| Score.left := 7; Score.right := 0 |} H H') as [[_ F] [_ F']].
  split; [apply F | apply F'];
    (split; [vm_compute; reflexivity |]);
    (split; [vm_compute; reflexivity |]);
    (split; [vm_compute; reflexivity |]);
    (split; vm_compute; reflexivity).
Defined.

(** X21. The ['game:activePaddleChanged'] messages of a run of the second
    server, whatever its events, name the left and the right paddle in
    turn, the left one first: no two in a row name the same paddle. *)
Theorem active_paddle_notices_alternate
    (rnd : Q) (evs : list BallTracking.event) :
  alternates sideRight
    (BallTracking.activeChanges
       (BallTracking.tickBroadcast evs (BallTracking.boot rnd))) = true.
Proof. apply (bt_changes_alternate evs (BallTracking.boot rnd)). Qed.

(** X22. A tick emits ['game:scored'] exactly when it changes the score,
    with the score (and, in [server.js], the round) it leaves; in the second
    server it emits ['game:goal'] for a side exactly when it gives that side
    a point. *)
Theorem goals_are_announced_as_they_are_counted
    (g : FixedTeam.gameState) (g' : BallTracking.gameState)
    (s : side) (sc : Score.t) (r : Z) :
  (In (FixedTeam.GameScored sc r) (FixedTeam.tickEmits g) <->
   FixedTeam.status g = playing /\
   FixedTeam.score (FixedTeam.tick g).1 <> FixedTeam.score g /\
   sc = FixedTeam.score (FixedTeam.tick g).1 /\
   r = FixedTeam.round (FixedTeam.tick g).1) /\
  (In (BallTracking.GameGoal s) (BallTracking.tickEmits g') <->
   BallTracking.status g' = playing /\
   BallTracking.score (BallTracking.tick g').1
   = addPoint s (BallTracking.score g')) /\
  (In (BallTracking.GameScored sc) (BallTracking.tickEmits g') <->
   BallTracking.status g' = playing /\
   BallTracking.score (BallTracking.tick g').1 <> BallTracking.score g' /\
   sc = BallTracking.score (BallTracking.tick g').1).
Proof. split; [apply ft_scored_emitted | apply bt_goal_emitted]. Qed.

(** ** The address of the server *)

(** X23. [getLocalIP] scans the interfaces in the order of their names and
    the entries of each in their order: it returns the address of the first
    entry that is IPv4 and not internal, and ["localhost"] when there is
    none (no interface at all, loopback only, or a [family] that is not the
    string ['IPv4']). *)
Theorem local_address_is_the_first_usable_entry
    (interfaces : list (string * list Network.iface)) :
  let entries := flat_map snd interfaces in
  (Network.getLocalIP interfaces = "localhost" /\
   Forall (fun i => Network.usable i = false) entries) \/
  (exists pre i post,
     entries = pre ++ i :: post /\
     Forall (fun i => Network.usable i = false) pre /\
     Network.usable i = true /\
     Network.getLocalIP interfaces = Network.address i).
Proof. apply getLocalIP_spec. Qed.

(** X24. [PUBLIC_URL] is set once: when it has a value, from the environment
    or from the headers of an earlier request, no later request changes it,
    whatever its headers, and [getPublicURL] returns it. *)
Theorem public_url_is_set_once
    (start : option string) (reqs more : list Network.request) (PORT : string)
    (interfaces : list (string * list Network.iface)) :
  Network.given (Network.served reqs start) = true ->
  Network.served (reqs ++ more) start = Network.served reqs start /\
  Some (Network.getPublicURL (Network.served (reqs ++ more) start) PORT interfaces)
  = Network.served reqs start.
Proof.
  intros H. rewrite served_app, served_keeps by exact H.
  split; [reflexivity |].
  unfold Network.getPublicURL. destruct (Network.served reqs start) as [url |].
  - now rewrite H.
  - discriminate H.
Qed.

Lemma public_url_is_set_once_witness :
  let start := Network.envURL None in
  let reqs := [Network.mkRequest (Some "localhost:3000") None;
               Network.mkRequest (Some "pong.example.org") (Some "http")] in
  let more := [Network.mkRequest (Some "other.example.org") None] in
  Network.served reqs start = Some "http://pong.example.org" /\
  Network.served (reqs ++ more) start = Network.served reqs start /\
  Some (Network.getPublicURL (Network.served (reqs ++ more) start) "3000" [])
  = Network.served reqs start.
Proof.
  cbv zeta. split; [reflexivity |].
  apply public_url_is_set_once. reflexivity.
Defined.


(** ** The score *)

(** X26. Only a tick gives points, and one point at a time: an event either
    leaves the score as it is, or it is a tick of a match being played that
    adds one point to one side, or it is [admin:start] or [admin:reset]
    putting the score back to 0-0.  No event of a player changes the
    score. *)
Theorem score_changes_one_point_at_a_time
    (e : FixedTeam.event) (s : FixedTeam.server)
    (e' : BallTracking.event) (s' : BallTracking.server) :
  (FixedTeam.score (FixedTeam.game (FixedTeam.step e s))
   = FixedTeam.score (FixedTeam.game s) \/
   (e = FixedTeam.IntervalTick /\ FixedTeam.status (FixedTeam.game s) = playing /\
    exists sd, FixedTeam.score (FixedTeam.game (FixedTeam.step e s))
               = addPoint sd (FixedTeam.score (FixedTeam.game s))) \/
   ((exists r1 r2 r3,
       e = FixedTeam.AdminStart r1 r2 r3 \/ e = FixedTeam.AdminReset r1 r2 r3) /\
    FixedTeam.score (FixedTeam.game (FixedTeam.step e s))
    = {| Score.left := 0; Score.right := 0 |})) /\
  (BallTracking.score (BallTracking.game (BallTracking.step e' s'))
   = BallTracking.score (BallTracking.game s') \/
   (e' = BallTracking.IntervalTick /\
    BallTracking.status (BallTracking.game s') = playing /\
    exists sd, BallTracking.score (BallTracking.game (BallTracking.step e' s'))
               = addPoint sd (BallTracking.score (BallTracking.game s'))) \/
   ((exists r1 r2 r3,
       e' = BallTracking.AdminStart r1 r2 r3 \/ e' = BallTracking.AdminReset r1 r2 r3) /\
    BallTracking.score (BallTracking.game (BallTracking.step e' s'))
    = {| Score.left := 0; Score.right := 0 |})).
Proof. split; [apply ft_step_score | apply bt_step_score]. Qed.

(** ** Votes that follow one another *)

(** X27. Only the latest input of a player counts: in a state whose tallies
    are not negative (as in every state of a run), an input followed by
    another input of the same socket, with any two direction values, leaves
    the tallies of both paddles and the players as the second input alone
    would.  (An unknown socket changes nothing either way.) *)
Theorem last_input_of_a_player_wins
    (id : string) (d d' : jsval) (t1 t2 t3 t4 : Z)
    (g : FixedTeam.gameState) (g' : BallTracking.gameState) (t : side) :
  (forall t, paddleNonneg (FixedTeam.paddleOf t g)) ->
  (forall t, paddleNonneg (BallTracking.paddleOf t g')) ->
  (FixedTeam.paddleOf t
     (FixedTeam.playerInput id d' t3 t4 (FixedTeam.playerInput id d t1 t2 g))
   = FixedTeam.paddleOf t (FixedTeam.playerInput id d' t3 t4 g) /\
   FixedTeam.players
     (FixedTeam.playerInput id d' t3 t4 (FixedTeam.playerInput id d t1 t2 g))
   = FixedTeam.players (FixedTeam.playerInput id d' t3 t4 g)) /\
  (BallTracking.paddleOf t
     (BallTracking.playerInput id d' t3 t4 (BallTracking.playerInput id d t1 t2 g'))
   = BallTracking.paddleOf t (BallTracking.playerInput id d' t3 t4 g') /\
   BallTracking.players
     (BallTracking.playerInput id d' t3 t4 (BallTracking.playerInput id d t1 t2 g'))
   = BallTracking.players (BallTracking.playerInput id d' t3 t4 g')).
Proof.
  intros H H'. split; [now apply ft_last_input_wins | now apply bt_last_input_wins].
Qed.

(** Player ["a"] sends up and then down: the right paddle has no up vote
    and one down vote, as if only down had been sent. *)
Lemma last_input_of_a_player_wins_witness :
  let g := FixedTeam.playerJoin "a" (FixedTeam.initialState 0) in
  let g' := BallTracking.playerJoin "a" (BallTracking.initialState 0) in
  FixedTeam.paddleOf sideRight
    (FixedTeam.playerInput "a" down 2 2 (FixedTeam.playerInput "a" up 1 1 g))
  = Paddle.mk centerY 0 1 /\
  BallTracking.paddleOf sideRight
    (BallTracking.playerInput "a" down 2 2 (BallTracking.playerInput "a" up 1 1 g'))
  = Paddle.mk centerY 0 1.
Proof.
  intros g g'.
  assert (Hg : forall t, paddleNonneg (FixedTeam.paddleOf t g))
    by (intros []; split; vm_compute; discriminate).
  assert (Hg' : forall t, paddleNonneg (BallTracking.paddleOf t g'))
    by (intros []; split; vm_compute; discriminate).
  destruct (last_input_of_a_player_wins "a" up down 1 1 2 2 g g' sideRight Hg Hg')
    as [[A _] [B _]].
  rewrite A, B. split; vm_compute; reflexivity.
Defined.

(** X28. A player who holds no direction, sends an input and lets go leaves
    the tallies as they were: in a state whose tallies are not negative, an
    input with any direction value followed by a release of the same socket
    gives back the tallies of both paddles. *)
Theorem press_and_release_restore_the_tallies
    (id : string) (d : jsval) (t1 t2 : Z)
    (g : FixedTeam.gameState) (g' : BallTracking.gameState)
    (pl : FixedTeam.player) (pl' : BallTracking.player) (t : side) :
  FixedTeam.players g !! id = Some pl ->
  FixedTeam.lastInput pl = JNull ->
  (forall t, paddleNonneg (FixedTeam.paddleOf t g)) ->
  BallTracking.players g' !! id = Some pl' ->
  BallTracking.lastInput pl' = JNull ->
  (forall t, paddleNonneg (BallTracking.paddleOf t g')) ->
  FixedTeam.paddleOf t
    (FixedTeam.playerRelease id (FixedTeam.playerInput id d t1 t2 g))
  = FixedTeam.paddleOf t g /\
  BallTracking.paddleOf t
    (BallTracking.playerRelease id (BallTracking.playerInput id d t1 t2 g'))
  = BallTracking.paddleOf t g'.
Proof.
  intros H1 H2 H3 H1' H2' H3'. split.
  - now apply (ft_press_and_release id d t1 t2 g pl t).
  - now apply (bt_press_and_release id d t1 t2 g' pl' t).
Qed.

Lemma press_and_release_restore_the_tallies_witness :
  let g := FixedTeam.playerJoin "a" (FixedTeam.initialState 0) in
  let g' := BallTracking.playerJoin "a" (BallTracking.initialState 0) in
  FixedTeam.paddleOf sideRight
    (FixedTeam.playerRelease "a" (FixedTeam.playerInput "a" up 1 1 g))
  = FixedTeam.paddleOf sideRight g /\
  BallTracking.paddleOf sideRight
    (BallTracking.playerRelease "a" (BallTracking.playerInput "a" up 1 1 g'))
  = BallTracking.paddleOf sideRight g'.
Proof.
  intros g g'.
  apply (press_and_release_restore_the_tallies "a" up 1 1 g g'
           (FixedTeam.mkPlayer 1 sideRight JNull None)
           (BallTracking.mkPlayer 1 JNull None) sideRight);
    try (vm_compute; reflexivity);
    intros []; split; vm_compute; discriminate.
Defined.
